(** * BearWatch Node SDK: request execution and retry

    A shallow embedding of the request/retry core of the SDK
    ([src/errors.ts], [src/internal/retry.ts], [src/internal/http-client.ts],
    [src/bearwatch.ts]) together with the properties its specification
    states about it.

    Conventions of the embedding.
    - A JavaScript [number] that the code only uses as an integer (HTTP
      status, attempt index, millisecond delay, retry budget) is a [Z];
      the jitter factor, a fraction, is a [Q].  Where the code computes
      with numbers (the backoff delay, the seconds of a retry hint) each
      operation is followed by the rounding to 53 significant bits that
      a double applies, [Double.nearest].  The exponent of a double is
      not bounded in the embedding: a result of magnitude 2^1024 or
      more is [Infinity] in the code and finite here, and a theorem
      that bounds a delay which could be that large keeps below it by
      a hypothesis.
    - [undefined] / absent optional fields are [None].
    - An [async] function is a state transformer over a world [W] that
      ends in a completion: a returned value or a thrown value.
    - Platform functions whose result the code only inspects
      ([JSON.parse], [new Date(s)], [Math.random], [fetch], ...) are the
      operations of a class [Runtime]; the definitions and theorems hold
      for every instance of it.
    - [String(v)] and the conversion that [new Error(message)] applies
      are computed on the value; they throw a [TypeError] for an object
      that has a key [toString] of its own, which cannot be called. *)

From Stdlib Require Import ZArith QArith Qround Qpower Bool List String Ascii Lia.
From Stdlib Require Import Decimal DecimalString DecimalPos.
Import ListNotations.

#[local] Open Scope string_scope.
#[local] Open Scope Z_scope.

(** ** JavaScript values *)

#[local] Set Warnings "-register-all".

(** The values [JSON.parse] can produce, plus [undefined], which a
    property read yields for a missing key.  An object lists its own
    enumerable keys; a key occurs at most once (as [JSON.parse] builds
    them), so the first binding is the property's value. *)
Inductive JSValue : Type :=
| JUndefined
| JNull
| JBool (b : bool)
| JNumber (q : Q)
| JString (s : string)
| JArray (items : list JSValue)
| JObject (fields : list (string * JSValue)).

Fixpoint assoc_get (k : string) (fields : list (string * JSValue)) : JSValue :=
  match fields with
  | [] => JUndefined
  | (k', v) :: rest => if String.eqb k k' then v else assoc_get k rest
  end.

(** [v.k] for a value [v] that is neither [null] nor [undefined].  The
    keys read by the SDK ([error], [code], [message], [success], [data])
    are not properties of any built-in prototype, so only objects can
    answer with something else than [undefined]. *)
Definition js_get (v : JSValue) (k : string) : JSValue :=
  match v with
  | JObject fields => assoc_get k fields
  | _ => JUndefined
  end.

Definition js_nullish (v : JSValue) : bool :=
  match v with
  | JUndefined | JNull => true
  | _ => false
  end.

(** [v?.k] *)
Definition js_get_opt (v : JSValue) (k : string) : JSValue :=
  if js_nullish v then JUndefined else js_get v k.

(** Truthiness, as tested by [x ? a : b], [!x] and [x && y]. *)
Definition js_truthy (v : JSValue) : bool :=
  match v with
  | JUndefined | JNull => false
  | JBool b => b
  | JNumber q => negb (Qeq_bool q 0)
  | JString s => negb (String.eqb s "")
  | JArray _ | JObject _ => true
  end.

(** Template-literal rendering of an integral number. *)
Definition string_of_Z (z : Z) : string := NilZero.string_of_int (Z.to_int z).

(** [s.includes(sub)] *)
Fixpoint includes (s sub : string) : bool :=
  if String.prefix sub s then true
  else match s with
       | EmptyString => false
       | String _ rest => includes rest sub
       end.

(** ** Numbers

    The values of the type [number] are the IEEE 754 doubles.  A finite
    double is a rational with a significand of at most 53 bits, and the
    result of an arithmetic operation is the double nearest to the exact
    result, a tie going to the even significand. *)
Module Double.

(** The binade of a positive rational: the [e] with [2^e <= x < 2^(e+1)]. *)
Definition Qlog2 (x : Q) : Z :=
  let e := Z.log2 (Qnum x) - Z.log2 (Z.pos (Qden x)) in
  if Qle_bool (2 ^ e) x then e else e - 1.

(** The nearest integer, a tie going to the even one. *)
Definition rne (t : Q) : Z :=
  let f := Qfloor t in
  match (t - inject_Z f ?= 1 # 2)%Q with
  | Lt => f
  | Gt => f + 1
  | Eq => if Z.even f then f else f + 1
  end.

(** The nearest multiple of [2^(e-52)], for [x] of binade [e]. *)
Definition round_pos (x : Q) : Q :=
  let s := Qlog2 x - 52 in
  (inject_Z (rne (x * 2 ^ (- s))) * 2 ^ s)%Q.

(** The double nearest to [x]. *)
Definition nearest (x : Q) : Q :=
  match (x ?= 0)%Q with
  | Gt => round_pos x
  | Lt => (- round_pos (- x))%Q
  | Eq => 0%Q
  end.

(** The double nearest to an integer, itself an integer. *)
Definition of_Z (z : Z) : Z := Qfloor (nearest (inject_Z z)).

(** The integers that are doubles: every integer up to 2^53 in
    magnitude, and beyond that those with 53 significant bits. *)
Definition exact (z : Z) : Prop := (nearest (inject_Z z) == inject_Z z)%Q.

End Double.

(** ** src/errors.ts *)
Module Errors.

Inductive ErrorCode : Type :=
| INVALID_API_KEY
| JOB_NOT_FOUND
| RATE_LIMITED
| SERVER_ERROR
| INVALID_RESPONSE
| NETWORK_ERROR
| TIMEOUT.

Definition ErrorCode_eq_dec (a b : ErrorCode) : {a = b} + {a <> b}.
Proof. decide equality. Defined.

Definition ErrorCode_eqb (a b : ErrorCode) : bool :=
  if ErrorCode_eq_dec a b then true else false.

(** The string literal behind each member of the union type. *)
Definition ErrorCode_literal (c : ErrorCode) : string :=
  match c with
  | INVALID_API_KEY => "INVALID_API_KEY"
  | JOB_NOT_FOUND => "JOB_NOT_FOUND"
  | RATE_LIMITED => "RATE_LIMITED"
  | SERVER_ERROR => "SERVER_ERROR"
  | INVALID_RESPONSE => "INVALID_RESPONSE"
  | NETWORK_ERROR => "NETWORK_ERROR"
  | TIMEOUT => "TIMEOUT"
  end.

Definition all_codes : list ErrorCode :=
  [INVALID_API_KEY; JOB_NOT_FOUND; RATE_LIMITED; SERVER_ERROR;
   INVALID_RESPONSE; NETWORK_ERROR; TIMEOUT].

Record ErrorContext : Type := {
  jobId : option string;
  runId : option string;
  operation : option string
}.

(** A native [Error] instance that is not a [BearWatchError]: what
    [fetch] rejects with, or what user code throws. *)
Record NativeError : Type := {
  err_name : string;
  err_message : string;
  err_isTypeError : bool
}.

(** [BearWatchError], with the [retryAfter] field that
    [BearWatchErrorWithRetry] adds.  [retryAfter] is only ever read
    through [?? null], so [undefined] and [null] are both [None]. *)
Record BearWatchError : Type := {
  message : string;
  code : ErrorCode;
  statusCode : option Z;
  responseBody : option string;
  context : option ErrorContext;
  cause : option NativeError;
  retryAfter : option string
}.

(** A thrown value: a [BearWatchError], another [Error], or any
    non-error value. *)
Inductive Thrown : Type :=
| ThrownBearWatch (e : BearWatchError)
| ThrownError (e : NativeError)
| ThrownValue (v : JSValue).

(** [error instanceof BearWatchError] *)
Definition instanceof_BearWatchError (error : Thrown) : bool :=
  match error with
  | ThrownBearWatch _ => true
  | _ => false
  end.

(** How a call to an [async] function ends. *)
Inductive Completion (A : Type) : Type :=
| Returned (a : A)
| Threw (t : Thrown).
Arguments Returned {A} a.
Arguments Threw {A} t.

(** [bodyCode === 'INVALID_API_KEY' || ...]: the member of the union
    whose literal the value is, if any. *)
Fixpoint code_of_literal (v : JSValue) (candidates : list ErrorCode) : option ErrorCode :=
  match candidates with
  | [] => None
  | c :: rest =>
      match v with
      | JString s => if String.eqb s (ErrorCode_literal c) then Some c
                     else code_of_literal v rest
      | _ => None
      end
  end.

Definition mapStatusToErrorCode (status : Z) (body : JSValue) : ErrorCode :=
  if status =? 401 then INVALID_API_KEY
  else if status =? 404 then JOB_NOT_FOUND
  else if status =? 429 then RATE_LIMITED
  else if status >=? 500 then SERVER_ERROR
  else
    let bodyCode := js_get_opt (js_get_opt body "error") "code" in
    match code_of_literal bodyCode all_codes with
    | Some c => c
    | None => SERVER_ERROR
    end.

End Errors.

(** ** The host environment *)
Module Host.
Import Errors.

(** What the code reads from a [fetch] response. *)
Record Response : Type := {
  status : Z;
  headers_get : string -> option string;
  text : string
}.

(** [response.ok]: the status is in the range 200-299. *)
Definition ok (response : Response) : bool :=
  (200 <=? status response) && (status response <=? 299).

Record FetchInit : Type := {
  init_method : string;
  init_headers : list (string * string);
  init_body : option string
}.

(** How the network part of one attempt settles:
    [fetch] followed by [response.text()] either yields a response or
    rejects; [signal_reason] is [controller.signal.reason] at that
    moment ([None] while the controller has not been aborted). *)
Inductive Settled : Type :=
| Responded (response : Response)
| Rejected (t : Thrown).

Record AttemptIO : Type := {
  settled : Settled;
  signal_reason : option string
}.

(** The operations of the JavaScript host that the SDK calls, over a
    world [W] that they read and advance. *)
Class Runtime (W : Type) : Type := {
  (** [Math.random()] *)
  Math_random : W -> Q * W;
  (** [Date.now()], also the time value of [new Date()] *)
  Date_now : W -> Z;
  (** [new Date(s).getTime()]; [None] is [NaN] *)
  Date_parse : string -> option Z;
  (** the world after a [setTimeout] of that many milliseconds fired *)
  timer_elapse : Z -> W -> W;
  (** [d.toISOString()] of a valid date *)
  Date_toISOString : Z -> string;
  (** [error.stack] of an [Error] instance *)
  Error_stack : Thrown -> option string;
  (** [String(n)] of a number *)
  Number_toString : Q -> string;
  (** [JSON.parse(s)]; [None] when it throws *)
  JSON_parse : string -> option JSValue;
  (** [JSON.stringify(v)] *)
  JSON_stringify : JSValue -> string;
  (** [fetch(url, init)] up to the end of [response.text()] *)
  fetch : string -> FetchInit -> W -> AttemptIO * W
}.

(** An [async] function without arguments. *)
Definition Async (W A : Type) : Type := W -> Completion A * W.

(** The conversion to a string that [String(v)] and [new Error(v)]
    apply; [None] when it throws its [TypeError].  An object is
    converted by its [toString] method: [Object.prototype.toString]
    unless the object has a key [toString] of its own, whose value, not
    being a function, cannot be called; [valueOf] then returns the
    object itself, and the conversion throws.  An array joins the
    conversions of its elements, [null] and [undefined] giving the empty
    string. *)
Fixpoint ToString {W} `{Runtime W} (v : JSValue) : option string :=
  match v with
  | JUndefined => Some "undefined"
  | JNull => Some "null"
  | JBool true => Some "true"
  | JBool false => Some "false"
  | JNumber q => Some (Number_toString q)
  | JString s => Some s
  | JArray items =>
      (fix join (l : list JSValue) : option string :=
         match l with
         | [] => Some ""
         | x :: rest =>
             let element := if js_nullish x then Some "" else ToString x in
             match rest with
             | [] => element
             | _ :: _ =>
                 match element, join rest with
                 | Some a, Some b => Some (a ++ "," ++ b)
                 | _, _ => None
                 end
             end
         end) items
  | JObject fields =>
      if existsb (fun field => String.eqb (fst field) "toString") fields
      then None
      else Some "[object Object]"
  end.

(** The [TypeError] of a conversion that fails. *)
Definition conversion_error : NativeError :=
  {| err_name := "TypeError";
     err_message := "Cannot convert object to primitive value";
     err_isTypeError := true |}.

End Host.

(** ** src/internal/retry.ts *)
Module Retry.
Import Errors Host.

Definition RETRYABLE_STATUS_CODES : list Z := [429; 500; 502; 503; 504].

Definition RETRYABLE_ERROR_CODES : list ErrorCode :=
  [NETWORK_ERROR; TIMEOUT; RATE_LIMITED; SERVER_ERROR].

(** Truthiness of an optional number: [undefined] and [0] are falsy. *)
Definition number_truthy (n : option Z) : bool :=
  match n with
  | Some z => negb (z =? 0)
  | None => false
  end.

Definition status_listed (codes : list Z) (n : option Z) : bool :=
  match n with
  | Some z => existsb (Z.eqb z) codes
  | None => false
  end.

Definition isRetryable (error : BearWatchError) : bool :=
  if number_truthy (statusCode error)
     && status_listed RETRYABLE_STATUS_CODES (statusCode error)
  then true
  else existsb (ErrorCode_eqb (code error)) RETRYABLE_ERROR_CODES.

(** [Math.floor(baseDelay * Math.pow(2, attempt) * jitter)]: a power of
    two is a double, and each product is rounded. *)
Definition jittered (attempt baseDelay : Z) (jitter : Q) : Z :=
  let exponentialDelay := Double.nearest (inject_Z baseDelay * 2 ^ attempt)%Q in
  Qfloor (Double.nearest (exponentialDelay * jitter)).

(** The jitter factor computed from one draw of [Math.random()]:
    [0.5 + r * 0.5]. *)
Definition jitter_of (r : Q) : Q :=
  Double.nearest ((1 # 2) + Double.nearest (r * (1 # 2)))%Q.

Definition calculateBackoffDelay {W} `{Runtime W}
    (attempt baseDelay : Z) (w : W) : Z * W :=
  let '(r, w') := Math_random w in
  (jittered attempt baseDelay (jitter_of r), w').

(** *** [parseInt(s, 10)] *)

(** White space that [parseInt] skips, among the code units a header
    value can hold: TAB, LF, VT, FF, CR, SP and NBSP. *)
Definition is_space (c : ascii) : bool :=
  let n := nat_of_ascii c in
  existsb (Nat.eqb n) [9; 10; 11; 12; 13; 32; 160]%nat.

Definition digit_of (c : ascii) : option Z :=
  let n := Z.of_nat (nat_of_ascii c) in
  if (48 <=? n) && (n <=? 57) then Some (n - 48) else None.

Fixpoint skip_space (s : string) : string :=
  match s with
  | String c rest => if is_space c then skip_space rest else s
  | EmptyString => s
  end.

(** The value of the longest prefix of decimal digits, [acc] being the
    value of the digits read so far ([None]: none read yet). *)
Fixpoint read_digits (s : string) (acc : option Z) : option Z :=
  match s with
  | String c rest =>
      match digit_of c with
      | Some d =>
          read_digits rest
            (Some (match acc with Some a => 10 * a + d | None => d end))
      | None => acc
      end
  | EmptyString => acc
  end.

(** The number that a sequence of decimal digits denotes, read from the
    left after digits of value [acc]. *)
Fixpoint uint_value (d : Decimal.uint) (acc : Z) : Z :=
  match d with
  | Decimal.Nil => acc
  | Decimal.D0 l => uint_value l (10 * acc)
  | Decimal.D1 l => uint_value l (10 * acc + 1)
  | Decimal.D2 l => uint_value l (10 * acc + 2)
  | Decimal.D3 l => uint_value l (10 * acc + 3)
  | Decimal.D4 l => uint_value l (10 * acc + 4)
  | Decimal.D5 l => uint_value l (10 * acc + 5)
  | Decimal.D6 l => uint_value l (10 * acc + 6)
  | Decimal.D7 l => uint_value l (10 * acc + 7)
  | Decimal.D8 l => uint_value l (10 * acc + 8)
  | Decimal.D9 l => uint_value l (10 * acc + 9)
  end.

(** The integer that the text starts with: white space, a sign and the
    longest run of decimal digits, whatever follows it. *)
Definition leading_integer (s : string) : option Z :=
  match skip_space s with
  | String "-" rest => option_map Z.opp (read_digits rest None)
  | String "+" rest => read_digits rest None
  | trimmed => read_digits trimmed None
  end.

(** [parseInt(s, 10)]: the double nearest to the integer read; [None]
    is [NaN].  (For a text of more than 20 significant digits the
    language leaves the digits after the 20th to the engine; they are
    read as they are here.) *)
Definition parseInt10 (s : string) : option Z :=
  option_map Double.of_Z (leading_integer s).

Definition parseRetryAfter {W} `{Runtime W}
    (retryAfter : option string) (w : W) : option Z :=
  match retryAfter with
  | None => None
  | Some "" => None
  | Some s =>
      let from_date :=
        match Date_parse s with
        | Some time => Some (Z.max 0 (Double.of_Z (time - Date_now w)))
        | None => None
        end in
      match parseInt10 s with
      | Some seconds =>
          if seconds >=? 0 then Some (Double.of_Z (seconds * 1000))
          else from_date
      | None => from_date
      end
  end.

(** [sleep(ms)] *)
Definition sleep {W} `{Runtime W} (ms : Z) (w : W) : W := timer_elapse ms w.

Record RetryOptions : Type := {
  maxRetries : Z;
  baseDelay : Z
}.

(** What an observer of one [withRetry] call sees, in order: each
    invocation of the attempt function with how it ended, and each
    sleep with its duration. *)
Inductive Event (T : Type) : Type :=
| Attempt (outcome : Completion T)
| Sleep (ms : Z).
Arguments Attempt {T} outcome.
Arguments Sleep {T} ms.

(** [throw lastError] *)
Definition throw_last (lastError : option BearWatchError) : Thrown :=
  match lastError with
  | Some e => ThrownBearWatch e
  | None => ThrownValue JUndefined
  end.

(** The delay chosen before the next attempt. *)
Definition retry_delay {W} `{Runtime W}
    (error : BearWatchError) (attempt : Z) (options : RetryOptions)
    (w : W) : Z * W :=
  if ErrorCode_eqb (code error) RATE_LIMITED then
    match parseRetryAfter (retryAfter error) w with
    | Some retryAfterDelay => (retryAfterDelay, w)
    | None => calculateBackoffDelay attempt (baseDelay options) w
    end
  else calculateBackoffDelay attempt (baseDelay options) w.

(** The [for] loop of [withRetry], from the test of its condition at
    index [attempt].  [fuel] bounds the number of condition tests;
    [None] means the bound was too small. *)
Fixpoint withRetry_loop {W T} `{Runtime W}
    (fn : Async W T) (options : RetryOptions)
    (fuel : nat) (attempt : Z) (lastError : option BearWatchError) (w : W)
    : option (Completion T * W * list (Event T)) :=
  match fuel with
  | O => None
  | S fuel' =>
      if attempt <=? maxRetries options then
        let '(outcome, w1) := fn w in
        match outcome with
        | Returned _ => Some (outcome, w1, [Attempt outcome])
        | Threw (ThrownBearWatch error) =>
            if negb (isRetryable error) || (attempt >=? maxRetries options)
            then Some (outcome, w1, [Attempt outcome])
            else
              let '(delay, w2) := retry_delay error attempt options w1 in
              match withRetry_loop fn options fuel' (attempt + 1)
                      (Some error) (sleep delay w2) with
              | Some (final, w3, events) =>
                  Some (final, w3, Attempt outcome :: Sleep delay :: events)
              | None => None
              end
        | Threw _ => Some (outcome, w1, [Attempt outcome])
        end
      else Some (Threw (throw_last lastError), w, [])
  end.

(** One more condition test than the loop has iterations. *)
Definition withRetry_fuel (options : RetryOptions) : nat :=
  S (Z.to_nat (maxRetries options + 1)).

Definition withRetry {W T} `{Runtime W}
    (fn : Async W T) (options : RetryOptions) (w : W)
    : option (Completion T * W * list (Event T)) :=
  withRetry_loop fn options (withRetry_fuel options) 0 None w.

Definition attempts {T} (events : list (Event T)) : nat :=
  List.length (filter (fun ev => match ev with Attempt _ => true | Sleep _ => false end)
                 events).

(** An event that can precede the last attempt of a run: a sleep, or an
    attempt that failed with a retryable typed error. *)
Definition retried_event {T} (ev : Event T) : Prop :=
  match ev with
  | Sleep _ => True
  | Attempt outcome =>
      exists e, outcome = Threw (ThrownBearWatch e) /\ isRetryable e = true
  end.

(** The number of sleeps of a run, and the time they add up to. *)
Definition sleeps {T} (events : list (Event T)) : nat :=
  List.length (filter (fun ev => match ev with Attempt _ => false | Sleep _ => true end)
                 events).

(** A run paced as the loop paces it: attempts separated by single
    sleeps, an attempt first and an attempt last. *)
Fixpoint well_paced {T} (events : list (Event T)) : bool :=
  match events with
  | [Attempt _] => true
  | Attempt _ :: Sleep _ :: rest => well_paced rest
  | _ => false
  end.

Fixpoint total_sleep {T} (events : list (Event T)) : Z :=
  match events with
  | [] => 0
  | Attempt _ :: rest => total_sleep rest
  | Sleep ms :: rest => ms + total_sleep rest
  end.

End Retry.

(** ** src/config.ts *)
Module Config.

Record ResolvedConfig : Type := {
  apiKey : string;
  baseUrl : string;
  timeout : Z;
  maxRetries : Z;
  retryDelay : Z
}.

(** [BearWatchConfig]: what the user passes; the optional fields are
    read through [??], so an absent field is [None]. *)
Record BearWatchConfig : Type := {
  given_apiKey : string;
  given_baseUrl : option string;
  given_timeout : option Z;
  given_maxRetries : option Z;
  given_retryDelay : option Z
}.

Record Defaults : Type := {
  default_baseUrl : string;
  default_timeout : Z;
  default_maxRetries : Z;
  default_retryDelay : Z
}.

Definition DEFAULT_CONFIG : Defaults :=
  {| default_baseUrl := "https://api.bearwatch.dev";
     default_timeout := 30000;
     default_maxRetries := 3;
     default_retryDelay := 500 |}.

(** [given ?? fallback] *)
Definition or_default {A} (given : option A) (fallback : A) : A :=
  match given with
  | Some v => v
  | None => fallback
  end.

Definition resolveConfig (config : BearWatchConfig) : ResolvedConfig :=
  {| apiKey := given_apiKey config;
     baseUrl := or_default (given_baseUrl config) (default_baseUrl DEFAULT_CONFIG);
     timeout := or_default (given_timeout config) (default_timeout DEFAULT_CONFIG);
     maxRetries :=
       or_default (given_maxRetries config) (default_maxRetries DEFAULT_CONFIG);
     retryDelay :=
       or_default (given_retryDelay config) (default_retryDelay DEFAULT_CONFIG) |}.

End Config.

(** ** src/internal/http-client.ts *)
Module HttpClient.
Import Errors Host.

Definition SDK_VERSION : string := "0.1.0".
Definition USER_AGENT : string := "bearwatch-sdk-node/" ++ SDK_VERSION.

Record RequestOptions : Type := {
  method : string;
  (** [JUndefined] when absent *)
  body : JSValue;
  retry : option bool;
  context : option ErrorContext
}.

(** [new BearWatchError(message, { code, statusCode, responseBody,
    context, cause })], before any [retryAfter] is attached. *)
Definition new_BearWatchError (msg : string) (c : ErrorCode)
    (status_code : option Z) (response_body : option string)
    (ctx : option ErrorContext) (cause_of : option NativeError)
    : BearWatchError :=
  {| Errors.message := msg; Errors.code := c;
     Errors.statusCode := status_code;
     Errors.responseBody := response_body;
     Errors.context := ctx; Errors.cause := cause_of;
     Errors.retryAfter := None |}.

(** [error.retryAfter = header] *)
Definition with_retryAfter (error : BearWatchError) (header : option string)
    : BearWatchError :=
  {| Errors.message := Errors.message error;
     Errors.code := Errors.code error;
     Errors.statusCode := Errors.statusCode error;
     Errors.responseBody := Errors.responseBody error;
     Errors.context := Errors.context error;
     Errors.cause := Errors.cause error;
     Errors.retryAfter := header |}.

Definition js_string_of (v : JSValue) : option string :=
  match v with
  | JString s => Some s
  | _ => None
  end.

Definition is_object (v : JSValue) : bool :=
  match v with
  | JArray _ | JObject _ => true
  | _ => false
  end.

Definition getErrorMessage (data : JSValue) : option string :=
  if is_object data then
    match js_string_of (js_get data "message") with
    | Some m => Some m
    | None =>
        let error := js_get data "error" in
        if is_object error then js_string_of (js_get error "message")
        else None
    end
  else None.

(** The [TypeError] of a property read on [null] or [undefined]. *)
Definition property_read_error (k : string) : NativeError :=
  {| err_name := "TypeError";
     err_message := "Cannot read properties of null (reading '" ++ k ++ "')";
     err_isTypeError := true |}.

(** [contentType?.includes('application/json')], as a condition. *)
Definition isJson (response : Response) : bool :=
  match headers_get response "Content-Type" with
  | Some contentType => includes contentType "application/json"
  | None => false
  end.

(** [new BearWatchError(message, options)] for a message that may not
    be a string: [super(message)] converts it, and throws when the
    conversion does. *)
Definition construct_BearWatchError {W} `{Runtime W} (msg : JSValue)
    (c : ErrorCode) (status_code : option Z) (response_body : option string)
    (ctx : option ErrorContext) : Thrown :=
  match ToString msg with
  | Some text =>
      ThrownBearWatch
        (new_BearWatchError text c status_code response_body ctx None)
  | None => ThrownError conversion_error
  end.

(** [apiResponse.error?.message ?? 'Request failed'] *)
Definition envelope_message (apiResponse : JSValue) : JSValue :=
  let m := js_get_opt (js_get apiResponse "error") "message" in
  if js_nullish m then JString "Request failed" else m.

(** The [try] block of [executeRequest] from the point where the
    response and its text are at hand. *)
Definition on_response {W} `{Runtime W}
    (options : RequestOptions) (response : Response) : Completion JSValue :=
  let responseText := text response in
  let bw message code :=
    new_BearWatchError message code (Some (status response))
      (Some responseText) (context options) None in
  if negb (ok response) then
    if (status response >=? 500) && negb (isJson response) then
      Threw (ThrownBearWatch
        (bw ("Server error (" ++ string_of_Z (status response) ++ ")")
            SERVER_ERROR))
    else if status response =? 429 then
      Threw (ThrownBearWatch
        (with_retryAfter
           (new_BearWatchError "Rate limit exceeded" RATE_LIMITED (Some 429)
              (Some responseText) (context options) None)
           (headers_get response "Retry-After")))
    else if negb (isJson response) then
      Threw (ThrownBearWatch (bw "Non-JSON response received" INVALID_RESPONSE))
    else
      match JSON_parse responseText with
      | None =>
          if status response >=? 500 then
            Threw (ThrownBearWatch
              (bw ("Server error (" ++ string_of_Z (status response) ++ ")")
                  SERVER_ERROR))
          else
            Threw (ThrownBearWatch
              (bw "Failed to parse JSON response" INVALID_RESPONSE))
      | Some data =>
          let errorCode := mapStatusToErrorCode (status response) data in
          let errorMessage :=
            match getErrorMessage data with
            | Some m => m
            | None => "Request failed with status "
                        ++ string_of_Z (status response)
            end in
          let error := bw errorMessage errorCode in
          Threw (ThrownBearWatch
            (if status response =? 429
             then with_retryAfter error (headers_get response "Retry-After")
             else error))
      end
  else if negb (isJson response) then
    Threw (ThrownBearWatch (bw "Non-JSON response received" INVALID_RESPONSE))
  else
    match JSON_parse responseText with
    | None =>
        Threw (ThrownBearWatch
          (bw "Failed to parse JSON response" INVALID_RESPONSE))
    | Some apiResponse =>
        if js_nullish apiResponse then
          Threw (ThrownError (property_read_error "success"))
        else
          match js_get apiResponse "success" with
          | JBool false =>
              Threw
                (construct_BearWatchError (envelope_message apiResponse)
                   SERVER_ERROR (Some (status response)) (Some responseText)
                   (context options))
          | _ => Returned (js_get apiResponse "data")
          end
    end.

(** The [catch] block of [executeRequest]: what is thrown in place of
    [error], [reason] being [controller.signal.reason]. *)
Definition on_catch (config : Config.ResolvedConfig) (options : RequestOptions)
    (reason : option string) (error : Thrown) : Thrown :=
  match error with
  | ThrownBearWatch _ => error
  | ThrownError e =>
      if String.eqb (err_name e) "AbortError" then
        if match reason with
           | Some r => String.eqb r "timeout"
           | None => false
           end
        then
          ThrownBearWatch
            (new_BearWatchError
               ("Request timed out after "
                  ++ string_of_Z (Config.timeout config) ++ "ms")
               TIMEOUT None None (context options) (Some e))
        else error
      else if err_isTypeError e then
        ThrownBearWatch
          (new_BearWatchError "Network error" NETWORK_ERROR None None
             (context options) (Some e))
      else
        ThrownBearWatch
          (new_BearWatchError "Unknown error occurred" NETWORK_ERROR None None
             (context options) (Some e))
  | ThrownValue _ =>
      ThrownBearWatch
        (new_BearWatchError "Unknown error occurred" NETWORK_ERROR None None
           (context options) None)
  end.

Definition request_init {W} `{Runtime W}
    (config : Config.ResolvedConfig) (options : RequestOptions) : FetchInit :=
  {| init_method := method options;
     init_headers :=
       [("Content-Type", "application/json");
        ("Accept", "application/json");
        ("X-API-Key", Config.apiKey config);
        ("User-Agent", USER_AGENT)];
     init_body :=
       if js_truthy (body options) then Some (JSON_stringify (body options))
       else None |}.

(** One attempt. *)
Definition executeRequest {W} `{Runtime W}
    (config : Config.ResolvedConfig) (path : string)
    (options : RequestOptions) : Async W JSValue :=
  fun w =>
    let url := Config.baseUrl config ++ path in
    let '(io, w1) := fetch url (request_init config options) w in
    let tried :=
      match settled io with
      | Responded response => on_response options response
      | Rejected error => Threw error
      end in
    match tried with
    | Returned payload => (Returned payload, w1)
    | Threw error =>
        (Threw (on_catch config options (signal_reason io) error), w1)
    end.

(** [createHttpClient(config).request(path, options)].  The result is
    [None] only if the retry loop was given too little fuel. *)
Definition request {W} `{Runtime W}
    (config : Config.ResolvedConfig) (path : string)
    (options : RequestOptions) (w : W)
    : option (Completion JSValue * W) :=
  let shouldRetry :=
    match retry options with
    | Some false => false
    | _ => true
    end in
  if shouldRetry then
    match
      Retry.withRetry (executeRequest config path options)
        {| Retry.maxRetries := Config.maxRetries config;
           Retry.baseDelay := Config.retryDelay config |} w
    with
    | Some (final, w', _) => Some (final, w')
    | None => None
    end
  else Some (executeRequest config path options w).

(** The attempt started in world [w] gets [response] from the network
    and ends in world [w']. *)
Definition receives {W} `{Runtime W}
    (config : Config.ResolvedConfig) (path : string)
    (options : RequestOptions) (w : W) (response : Response) (w' : W) : Prop :=
  exists io,
    fetch (Config.baseUrl config ++ path) (request_init config options) w
    = (io, w')
    /\ settled io = Responded response.

(** [fetch] (or reading the body) rejects with [error] while
    [controller.signal.reason] is [reason]. *)
Definition rejects {W} `{Runtime W}
    (config : Config.ResolvedConfig) (path : string)
    (options : RequestOptions) (w : W) (error : Thrown)
    (reason : option string) (w' : W) : Prop :=
  exists io,
    fetch (Config.baseUrl config ++ path) (request_init config options) w
    = (io, w')
    /\ settled io = Rejected error /\ signal_reason io = reason.

End HttpClient.

(** ** src/types.ts, src/bearwatch.ts *)
Module BearWatch.
Import Errors Host.

(** A [Date | string] value; a [Date] holds its time value, [None]
    for an invalid date. *)
Inductive DateOrString : Type :=
| ADate (time : option Z)
| AString (s : string).

Record PingOptions : Type := {
  status : option string;
  output : option string;
  error : option string;
  startedAt : option DateOrString;
  completedAt : option DateOrString;
  metadata : option JSValue;
  retry : option bool
}.

Record WrapOptions : Type := {
  wrap_metadata : option JSValue;
  wrap_retry : option bool
}.

(** The [HttpClient] interface. *)
Record HttpClient (W : Type) : Type := {
  request : string -> HttpClient.RequestOptions -> Async W JSValue
}.
Arguments request {W} _ _ _ _.

Definition invalid_time_value : NativeError :=
  {| err_name := "RangeError"; err_message := "Invalid time value";
     err_isTypeError := false |}.

(** [d instanceof Date ? d.toISOString() : d] *)
Definition iso_of {W} `{Runtime W} (d : DateOrString) : Completion string :=
  match d with
  | ADate (Some time) => Returned (Date_toISOString time)
  | ADate None => Threw (ThrownError invalid_time_value)
  | AString s => Returned s
  end.

Definition optional_field (k : string) (v : option JSValue)
    : list (string * JSValue) :=
  match v with
  | Some x => [(k, x)]
  | None => []
  end.

Definition ping {W} `{Runtime W} (http : HttpClient W)
    (jobId : string) (options : option PingOptions) : Async W JSValue :=
  fun w =>
    let now := Date_toISOString (Date_now w) in
    let completed :=
      match option_map completedAt options with
      | Some (Some d) => iso_of d
      | _ => Returned now
      end in
    match completed with
    | Threw t => (Threw t, w)
    | Returned completedAt_iso =>
        let started :=
          match option_map startedAt options with
          | Some (Some d) => iso_of d
          | _ => Returned completedAt_iso
          end in
        match started with
        | Threw t => (Threw t, w)
        | Returned startedAt_iso =>
            (* [options?.k] *)
            let opt {A} (get : PingOptions -> option A) : option A :=
              match options with
              | Some o => get o
              | None => None
              end in
            let body :=
              JObject
                ([("status",
                   JString (match opt status with
                            | Some s => s
                            | None => "SUCCESS"
                            end));
                  ("startedAt", JString startedAt_iso);
                  ("completedAt", JString completedAt_iso)]
                 ++ optional_field "output" (option_map JString (opt output))
                 ++ optional_field "error" (option_map JString (opt error))
                 ++ optional_field "metadata" (opt metadata)) in
            request http
              ("/api/v1/ingest/jobs/" ++ jobId ++ "/heartbeat")
              {| HttpClient.method := "POST";
                 HttpClient.body := body;
                 HttpClient.retry :=
                   Some (match opt retry with
                         | Some false => false
                         | _ => true
                         end);
                 HttpClient.context :=
                   Some {| Errors.jobId := Some jobId;
                           Errors.runId := None;
                           Errors.operation := Some "ping" |} |}
              w
        end
    end.

(** [error instanceof Error ? (error.stack || error.message)
    : String(error)]; [None] when [String(error)] throws. *)
Definition describe {W} `{Runtime W} (error : Thrown) : option string :=
  let or_message (m : string) :=
    match Error_stack error with
    | Some "" | None => m
    | Some stack => stack
    end in
  match error with
  | ThrownBearWatch e => Some (or_message (Errors.message e))
  | ThrownError e => Some (or_message (err_message e))
  | ThrownValue v => ToString v
  end.

(** The [catch] block of [wrap] up to its [throw error]: the inner
    [try], whose outcome the empty [catch] drops.  When the text of the
    error cannot be computed, the options of the ping are never built
    and no ping is sent. *)
Definition report_failure {W} `{Runtime W} (http : HttpClient W)
    (jobId : string) (options : option WrapOptions) (started : Z)
    (error : Thrown) (w : W) : Completion JSValue * W :=
  match describe error with
  | None => (Threw (ThrownError conversion_error), w)
  | Some text =>
      ping http jobId
        (Some {| status := Some "FAILED";
                 output := None;
                 error := Some text;
                 startedAt := Some (ADate (Some started));
                 completedAt := Some (ADate (Some (Date_now w)));
                 metadata := match options with
                             | Some o => wrap_metadata o
                             | None => None
                             end;
                 retry := match options with
                          | Some o => wrap_retry o
                          | None => None
                          end |})
        w
  end.

Definition wrap {W T} `{Runtime W} (http : HttpClient W)
    (jobId : string) (fn : Async W T) (options : option WrapOptions)
    : Async W T :=
  fun w =>
    let started := Date_now w in
    let on_error (error : Thrown) (w' : W) : Completion T * W :=
      (* the outcome of the reporting ping is dropped *)
      let '(_, w'') := report_failure http jobId options started error w' in
      (Threw error, w'') in
    let '(outcome, w1) := fn w in
    match outcome with
    | Returned result =>
        let '(reported, w2) :=
          ping http jobId
            (Some {| status := Some "SUCCESS";
                     output := None;
                     error := None;
                     startedAt := Some (ADate (Some started));
                     completedAt := Some (ADate (Some (Date_now w1)));
                     metadata := match options with
                                 | Some o => wrap_metadata o
                                 | None => None
                                 end;
                     retry := match options with
                              | Some o => wrap_retry o
                              | None => None
                              end |})
            w1 in
        match reported with
        | Returned _ => (Returned result, w2)
        | Threw error => on_error error w2
        end
    | Threw error => on_error error w1
    end.

(** [createHttpClient(config)] as the client's [http].  The retry loop
    always ends within the fuel that [withRetry] gives it, so the [None]
    branch is never taken. *)
Definition createHttpClient {W} `{Runtime W}
    (config : Config.ResolvedConfig) : HttpClient W :=
  {| request := fun path options w =>
       match HttpClient.request config path options w with
       | Some ended => ended
       | None => (Threw (ThrownValue JUndefined), w)
       end |}.

(** [options?.k] on optional ping options. *)
Definition ping_option {A} (options : option PingOptions)
    (get : PingOptions -> option A) : option A :=
  match options with
  | Some o => get o
  | None => None
  end.

(** The path of a job's heartbeat endpoint. *)
Definition heartbeat_path (jobId : string) : string :=
  "/api/v1/ingest/jobs/" ++ jobId ++ "/heartbeat".

(** The options of the SUCCESS report that [wrap] sends. *)
Definition success_options (options : option WrapOptions)
    (started completed : Z) : PingOptions :=
  {| status := Some "SUCCESS";
     output := None;
     error := None;
     startedAt := Some (ADate (Some started));
     completedAt := Some (ADate (Some completed));
     metadata := match options with
                 | Some o => wrap_metadata o
                 | None => None
                 end;
     retry := match options with
              | Some o => wrap_retry o
              | None => None
              end |}.

(** [new BearWatch(config)]: the [http] client of the instance. *)
Definition new_BearWatch {W} `{Runtime W}
    (config : Config.BearWatchConfig) : HttpClient W :=
  createHttpClient (Config.resolveConfig config).

End BearWatch.

(** ** A scripted host

    A deterministic host for running the definitions above on concrete
    inputs, in the manner of the test suite's mocked [fetch]: the world
    is a clock and a count of the network calls made so far. *)
Module Scripted.
Import Errors Host.

Record World : Type := {
  clock : Z;
  calls : nat
}.

Definition start : World := {| clock := 0; calls := 0 |}.

Definition table_get {A} (table : list (string * A)) (k : string) : option A :=
  option_map snd (find (fun entry => String.eqb k (fst entry)) table).

(** [random]: what every [Math.random()] returns; [dates] and [json]:
    the texts [new Date] and [JSON.parse] accept, with their values;
    [replies]: how the n-th [fetch] settles.  The numbers that the
    examples convert to strings are integers. *)
Definition host (random : Q) (dates : list (string * Z))
    (json : list (string * JSValue)) (replies : nat -> AttemptIO)
    : Runtime World :=
  {| Math_random := fun w => (random, w);
     Date_now := clock;
     Date_parse := table_get dates;
     timer_elapse := fun ms w => {| clock := clock w + ms; calls := calls w |};
     Date_toISOString := string_of_Z;
     Error_stack := fun _ => None;
     Number_toString := fun q => string_of_Z (Qfloor q);
     JSON_parse := table_get json;
     JSON_stringify := fun _ => "{}";
     fetch := fun _ _ w =>
       (replies (calls w), {| clock := clock w; calls := S (calls w) |}) |}.

(** A response with the given status, content type, retry hint and
    body text. *)
Definition response (status : Z) (contentType retryAfter : option string)
    (text : string) : Response :=
  {| Host.status := status;
     headers_get := fun name =>
       if String.eqb name "Content-Type" then contentType
       else if String.eqb name "Retry-After" then retryAfter
       else None;
     Host.text := text |}.

Definition reply (r : Response) : AttemptIO :=
  {| settled := Responded r; signal_reason := None |}.

(** A rejected [fetch]. *)
Definition failure (error : Thrown) (reason : option string) : AttemptIO :=
  {| settled := Rejected error; signal_reason := reason |}.

End Scripted.

(** ** Concrete inputs used by the examples below *)
Module Examples.
Import Errors Host.

Definition not_found_404 : BearWatchError :=
  {| message := "Not found"; code := JOB_NOT_FOUND; statusCode := Some 404;
     responseBody := None; context := None; cause := None;
     retryAfter := None |}.

(** The host of the examples: every [Math.random()] yields [1/2]. *)
Definition host_half : Runtime Scripted.World :=
  Scripted.host (1 # 2) [] [] (fun _ => Scripted.reply (Scripted.response 200 None None "")).

(** The host of the counterexample: every [Math.random()] yields [0],
    so the jitter factor is exactly [1/2]. *)
Definition host_zero : Runtime Scripted.World :=
  Scripted.host 0 [] [] (fun _ => Scripted.reply (Scripted.response 200 None None "")).

Definition http_date : string := "Wed, 21 Oct 2015 07:28:00 GMT".

(** A host whose [new Date] accepts [http_date] (its time value is
    1445412480000) and nothing else. *)
Definition host_dated : Runtime Scripted.World :=
  Scripted.host (1 # 2) [(http_date, 1445412480000)] []
    (fun _ => Scripted.reply (Scripted.response 200 None None "")).

(** Ten seconds before [http_date]. *)
Definition before_date : Scripted.World :=
  {| Scripted.clock := 1445412470000; Scripted.calls := 0 |}.

Definition config : Config.ResolvedConfig :=
  {| Config.apiKey := "test-key";
     Config.baseUrl := "https://api.bearwatch.dev";
     Config.timeout := 30000;
     Config.maxRetries := 3;
     Config.retryDelay := 500 |}.

Definition heartbeat : string := "/api/v1/ingest/jobs/my-job/heartbeat".

Definition post : HttpClient.RequestOptions :=
  {| HttpClient.method := "POST";
     HttpClient.body := JUndefined;
     HttpClient.retry := None;
     HttpClient.context := None |}.

Definition json_type : option string := Some "application/json".

(** A gateway's HTML error page. *)
Definition bad_gateway : Response :=
  Scripted.response 502 (Some "text/html") None "<html>Bad Gateway</html>".

Definition host_bad_gateway : Runtime Scripted.World :=
  Scripted.host (1 # 2) [] [] (fun _ => Scripted.reply bad_gateway).

Definition quoted (s : string) : string :=
  let q := String (ascii_of_nat 34) EmptyString in q ++ s ++ q.

(** A 403 whose body names a known error code. *)
Definition forbidden_text : string :=
  "{" ++ quoted "error" ++ ":{" ++ quoted "code" ++ ":"
      ++ quoted "JOB_NOT_FOUND" ++ "}}".

Definition forbidden_json : JSValue :=
  JObject [("error", JObject [("code", JString "JOB_NOT_FOUND")])].

Definition forbidden : Response :=
  Scripted.response 403 json_type None forbidden_text.

Definition host_forbidden : Runtime Scripted.World :=
  Scripted.host (1 # 2) [] [(forbidden_text, forbidden_json)]
    (fun _ => Scripted.reply forbidden).

(** A 200 whose body is the envelope [{ success: true, data: 7 }]. *)
Definition accepted_text : string :=
  "{" ++ quoted "success" ++ ":true," ++ quoted "data" ++ ":7}".

Definition accepted_json : JSValue :=
  JObject [("success", JBool true); ("data", JNumber 7)].

Definition accepted : Response :=
  Scripted.response 200 json_type None accepted_text.

Definition host_accepted : Runtime Scripted.World :=
  Scripted.host (1 # 2) [] [(accepted_text, accepted_json)]
    (fun _ => Scripted.reply accepted).

(** A 200 whose body is the JSON text [null]. *)
Definition null_body : Response :=
  Scripted.response 200 json_type None "null".

Definition host_null_body : Runtime Scripted.World :=
  Scripted.host (1 # 2) [] [("null", JNull)]
    (fun _ => Scripted.reply null_body).

(** A 200 that reports a failure whose message is an object with a key
    [toString] of its own. *)
Definition unprintable_text : string :=
  "{" ++ quoted "success" ++ ":false," ++ quoted "error" ++ ":{"
      ++ quoted "message" ++ ":{" ++ quoted "toString" ++ ":1}}}".

Definition unprintable_json : JSValue :=
  JObject [("success", JBool false);
           ("error", JObject [("message", JObject [("toString", JNumber 1)])])].

Definition unprintable : Response :=
  Scripted.response 200 json_type None unprintable_text.

Definition host_unprintable : Runtime Scripted.World :=
  Scripted.host (1 # 2) [] [(unprintable_text, unprintable_json)]
    (fun _ => Scripted.reply unprintable).

(** A 401 with an empty JSON object as body. *)
Definition unauthorized : Response :=
  Scripted.response 401 json_type None "{}".

Definition host_unauthorized : Runtime Scripted.World :=
  Scripted.host (1 # 2) [] [("{}", JObject [])]
    (fun _ => Scripted.reply unauthorized).

(** A 429 that asks for one second, then the accepted envelope. *)
Definition rate_limited : Response :=
  Scripted.response 429 json_type (Some "1") "{}".

Definition host_rate_limited : Runtime Scripted.World :=
  Scripted.host (1 # 2) [] [("{}", JObject []); (accepted_text, accepted_json)]
    (fun n => match n with
              | O => Scripted.reply rate_limited
              | S _ => Scripted.reply accepted
              end).

(** A caller's cancellation: [fetch] rejects with an [AbortError] while
    the attempt's own controller has not been aborted. *)
Definition abort_error : NativeError :=
  {| err_name := "AbortError"; err_message := "The operation was aborted";
     err_isTypeError := false |}.

Definition host_cancelled : Runtime Scripted.World :=
  Scripted.host (1 # 2) [] []
    (fun _ => Scripted.failure (ThrownError abort_error) None).

(** The attempt's own timer fired. *)
Definition host_timed_out : Runtime Scripted.World :=
  Scripted.host (1 # 2) [] []
    (fun _ => Scripted.failure (ThrownError abort_error) (Some "timeout")).

Definition policy : Retry.RetryOptions :=
  {| Retry.maxRetries := Config.maxRetries config;
     Retry.baseDelay := Config.retryDelay config |}.

(** The network is down: [fetch] rejects with a [TypeError]. *)
Definition fetch_failed : NativeError :=
  {| err_name := "TypeError"; err_message := "fetch failed";
     err_isTypeError := true |}.

Definition host_offline : Runtime Scripted.World :=
  Scripted.host (1 # 2) [] []
    (fun _ => Scripted.failure (ThrownError fetch_failed) None).

Definition config_no_retry : Config.ResolvedConfig :=
  {| Config.apiKey := "test-key";
     Config.baseUrl := "https://api.bearwatch.dev";
     Config.timeout := 30000;
     Config.maxRetries := 0;
     Config.retryDelay := 500 |}.

(** A job that throws. *)
Definition business_error : Thrown :=
  ThrownError {| err_name := "Error";
                 err_message := "Original business error";
                 err_isTypeError := false |}.

Definition failing_job : Async Scripted.World JSValue :=
  fun w => (Threw business_error, w).

(** A JSON response that names its character set. *)
Definition with_charset : Response :=
  Scripted.response 200 (Some "application/json; charset=utf-8") None "{}".

(** A 503 that carries a [Retry-After] header. *)
Definition unavailable : Response :=
  Scripted.response 503 (Some "text/html") (Some "120")
    "<html>Service Unavailable</html>".

Definition host_unavailable : Runtime Scripted.World :=
  Scripted.host (1 # 2) [] [] (fun _ => Scripted.reply unavailable).

(** A 400 whose JSON body gives a message and no error code. *)
Definition bad_request_text : string :=
  "{" ++ quoted "message" ++ ":" ++ quoted "startedAt is required" ++ "}".

Definition bad_request_json : JSValue :=
  JObject [("message", JString "startedAt is required")].

Definition bad_request : Response :=
  Scripted.response 400 json_type None bad_request_text.

Definition host_bad_request : Runtime Scripted.World :=
  Scripted.host (1 # 2) [] [(bad_request_text, bad_request_json)]
    (fun _ => Scripted.reply bad_request).

(** A 404 served as an HTML page. *)
Definition not_found_page : Response :=
  Scripted.response 404 (Some "text/html") None "<html>Not Found</html>".

Definition host_not_found_page : Runtime Scripted.World :=
  Scripted.host (1 # 2) [] [] (fun _ => Scripted.reply not_found_page).

(** The first attempt runs into the timeout, the second is accepted. *)
Definition host_slow_start : Runtime Scripted.World :=
  Scripted.host (1 # 2) [] [(accepted_text, accepted_json)]
    (fun n => match n with
              | O => Scripted.failure (ThrownError abort_error) (Some "timeout")
              | S _ => Scripted.reply accepted
              end).

(** A job that returns. *)
Definition succeeding_job : Async Scripted.World JSValue :=
  fun w => (Returned (JString "done"), w).

(** The error of a ping for [my-job] sent while the network is down. *)
Definition offline_error : BearWatchError :=
  HttpClient.new_BearWatchError "Network error" NETWORK_ERROR None None
    (Some {| jobId := Some "my-job"; runId := None;
             operation := Some "ping" |})
    (Some fetch_failed).

(** The world after one network call. *)
Definition after_one_call : Scripted.World :=
  {| Scripted.clock := 0; Scripted.calls := 1 |}.

End Examples.


(** * Properties *)

(** ** Rounding to the nearest double *)
Module DoubleFacts.
Import Double.

Lemma pow2_pos (k : Z) : (0 < 2 ^ k)%Q.
Proof. apply Qpower_0_lt. reflexivity. Qed.

Lemma pow2_add (a b : Z) : (2 ^ (a + b) == 2 ^ a * 2 ^ b)%Q.
Proof. apply Qpower_plus. discriminate. Qed.

Lemma pow2_le (a b : Z) : a <= b -> (2 ^ a <= 2 ^ b)%Q.
Proof. intros Hab. apply Qpower_le_compat_l; [exact Hab | discriminate]. Qed.

Lemma pow2_lt_inv (a b : Z) : (2 ^ a < 2 ^ b)%Q -> a < b.
Proof. intros Hlt. apply (Qpower_lt_compat_l_inv 2); [exact Hlt | reflexivity]. Qed.

Lemma pow2_Z (k : Z) : 0 <= k -> (2 ^ k == inject_Z (2 ^ k))%Q.
Proof. intros Hk. symmetry. apply (Zpower_Qpower 2 k Hk). Qed.

(** The binade of a positive rational. *)
Lemma Qlog2_spec (x : Q) :
  (0 < x)%Q -> (2 ^ Qlog2 x <= x)%Q /\ (x < 2 ^ (Qlog2 x + 1))%Q.
Proof.
  intros Hx. destruct x as [n d].
  assert (Hn : 0 < n) by (unfold Qlt in Hx; simpl in Hx; lia).
  unfold Qlog2. cbn [Qnum Qden].
  set (a := Z.log2 n). set (b := Z.log2 (Z.pos d)).
  destruct (Z.log2_spec n Hn) as [Ha1 Ha2]. fold a in Ha1, Ha2.
  destruct (Z.log2_spec (Z.pos d) eq_refl) as [Hb1 Hb2]. fold b in Hb1, Hb2.
  assert (Ha0 : 0 <= a) by apply Z.log2_nonneg.
  assert (Hb0 : 0 <= b) by apply Z.log2_nonneg.
  assert (HD : (0 < inject_Z (Z.pos d))%Q) by reflexivity.
  assert (Hx' : (n # d == inject_Z n / inject_Z (Z.pos d))%Q) by apply Qmake_Qdiv.
  assert (Hlow : (2 ^ (a - b - 1) <= n # d)%Q).
  { rewrite Hx'. apply Qle_shift_div_l; [exact HD |].
    apply Qle_trans with (2 ^ (a - b - 1) * 2 ^ (b + 1))%Q.
    - rewrite !(Qmult_comm (2 ^ (a - b - 1))).
      apply Qmult_le_compat_r; [| apply Qlt_le_weak, pow2_pos].
      rewrite (pow2_Z (b + 1)) by lia. rewrite <- Zle_Qle. lia.
    - rewrite <- pow2_add. replace (a - b - 1 + (b + 1)) with a by lia.
      rewrite (pow2_Z a Ha0). rewrite <- Zle_Qle. exact Ha1. }
  assert (Hhigh : (n # d < 2 ^ (a - b + 1))%Q).
  { rewrite Hx'. apply Qlt_shift_div_r; [exact HD |].
    apply Qlt_le_trans with (2 ^ (a - b + 1) * 2 ^ b)%Q.
    - rewrite <- pow2_add. replace (a - b + 1 + b) with (a + 1) by lia.
      rewrite (pow2_Z (a + 1)) by lia. rewrite <- Zlt_Qlt.
      replace (a + 1) with (Z.succ a) by lia. exact Ha2.
    - rewrite !(Qmult_comm (2 ^ (a - b + 1))).
      apply Qmult_le_compat_r; [| apply Qlt_le_weak, pow2_pos].
      rewrite (pow2_Z b Hb0). rewrite <- Zle_Qle. exact Hb1. }
  destruct (Qle_bool (2 ^ (a - b)) (n # d)) eqn:Hcmp.
  - split; [apply Qle_bool_iff; exact Hcmp | exact Hhigh].
  - split; [exact Hlow |].
    replace (a - b - 1 + 1) with (a - b) by lia.
    apply Qnot_le_lt. intros Hle. apply Qle_bool_iff in Hle. congruence.
Qed.

Lemma Qlog2_unique (x : Q) (e : Z) :
  (2 ^ e <= x)%Q -> (x < 2 ^ (e + 1))%Q -> Qlog2 x = e.
Proof.
  intros Hlow Hhigh.
  assert (Hx : (0 < x)%Q) by (eapply Qlt_le_trans; [apply (pow2_pos e) | exact Hlow]).
  destruct (Qlog2_spec x Hx) as [Hl Hh].
  assert (H1 : Qlog2 x < e + 1)
    by (apply pow2_lt_inv; eapply Qle_lt_trans; [exact Hl | exact Hhigh]).
  assert (H2 : e < Qlog2 x + 1)
    by (apply pow2_lt_inv; eapply Qle_lt_trans; [exact Hlow | exact Hh]).
  lia.
Qed.

Lemma Qlog2_comp (x y : Q) : (0 < x)%Q -> (x == y)%Q -> Qlog2 x = Qlog2 y.
Proof.
  intros Hx Hxy. destruct (Qlog2_spec x Hx) as [Hl Hh].
  symmetry. apply Qlog2_unique; rewrite <- Hxy; assumption.
Qed.

Lemma Qlog2_le (x y : Q) : (0 < x)%Q -> (x <= y)%Q -> Qlog2 x <= Qlog2 y.
Proof.
  intros Hx Hxy.
  assert (Hy : (0 < y)%Q) by (eapply Qlt_le_trans; eassumption).
  destruct (Qlog2_spec x Hx) as [Hl _]. destruct (Qlog2_spec y Hy) as [_ Hh].
  assert (H : Qlog2 x < Qlog2 y + 1).
  { apply pow2_lt_inv. eapply Qle_lt_trans; [exact Hl |].
    eapply Qle_lt_trans; [exact Hxy | exact Hh]. }
  lia.
Qed.

Lemma Qlog2_scale (x : Q) (k : Z) : (0 < x)%Q -> Qlog2 (x * 2 ^ k) = Qlog2 x + k.
Proof.
  intros Hx. destruct (Qlog2_spec x Hx) as [Hl Hh].
  apply Qlog2_unique.
  - rewrite pow2_add. apply Qmult_le_compat_r; [exact Hl | apply Qlt_le_weak, pow2_pos].
  - replace (Qlog2 x + k + 1) with (Qlog2 x + 1 + k) by lia.
    rewrite pow2_add. apply Qmult_lt_compat_r; [apply pow2_pos | exact Hh].
Qed.

(** Rounding to the nearest integer, ties to even. *)
Lemma rne_comp (t u : Q) : (t == u)%Q -> rne t = rne u.
Proof.
  intros Htu. unfold rne. rewrite (Qfloor_comp t u Htu).
  assert (H : (t - inject_Z (Qfloor u) == u - inject_Z (Qfloor u))%Q)
    by (rewrite Htu; reflexivity).
  rewrite (Qcompare_comp _ _ H (1 # 2) (1 # 2) (Qeq_refl _)). reflexivity.
Qed.

Lemma rne_inject (z : Z) : rne (inject_Z z) = z.
Proof.
  unfold rne. rewrite Qfloor_Z.
  assert (H : (inject_Z z - inject_Z z ?= 1 # 2)%Q = Lt).
  { apply Qlt_alt. setoid_replace (inject_Z z - inject_Z z)%Q with 0%Q by ring. reflexivity. }
  rewrite H. reflexivity.
Qed.

Lemma rne_floor (t : Q) : Qfloor t <= rne t <= Qfloor t + 1.
Proof.
  unfold rne. destruct (t - inject_Z (Qfloor t) ?= 1 # 2)%Q; [| lia | lia].
  destruct (Z.even (Qfloor t)); lia.
Qed.

Lemma rne_le (t u : Q) : (t <= u)%Q -> rne t <= rne u.
Proof.
  intros Htu.
  pose proof (Qfloor_resp_le t u Htu) as Hf.
  destruct (Z.eq_dec (Qfloor t) (Qfloor u)) as [Heq | Hne].
  - unfold rne. rewrite <- Heq.
    assert (Hr : (t - inject_Z (Qfloor t) <= u - inject_Z (Qfloor t))%Q).
    { apply Qplus_le_compat; [exact Htu | apply Qle_refl]. }
    destruct (Qcompare_spec (t - inject_Z (Qfloor t)) (1 # 2)) as [Ht | Ht | Ht];
      destruct (Qcompare_spec (u - inject_Z (Qfloor t)) (1 # 2)) as [Hu | Hu | Hu];
      try lia; try (destruct (Z.even (Qfloor t)); lia); exfalso.
    + rewrite Ht in Hr. apply (Qlt_irrefl (1 # 2)). eapply Qle_lt_trans; eassumption.
    + rewrite Hu in Hr. apply (Qlt_irrefl (1 # 2)). eapply Qlt_le_trans; eassumption.
    + apply (Qlt_irrefl (1 # 2)).
      eapply Qlt_trans; [exact Ht |]. eapply Qle_lt_trans; eassumption.
  - pose proof (rne_floor t). pose proof (rne_floor u). lia.
Qed.

(** Rounding a positive number to 53 significant bits. *)
Lemma round_pos_scaled (x : Q) :
  (0 < x)%Q ->
  (2 ^ 52 <= x * 2 ^ (- (Qlog2 x - 52)))%Q /\ (x * 2 ^ (- (Qlog2 x - 52)) < 2 ^ 53)%Q.
Proof.
  intros Hx. destruct (Qlog2_spec x Hx) as [Hl Hh]. split.
  - apply Qle_trans with (2 ^ Qlog2 x * 2 ^ (- (Qlog2 x - 52)))%Q.
    + rewrite <- pow2_add. replace (Qlog2 x + - (Qlog2 x - 52)) with 52 by lia.
      apply Qle_refl.
    + apply Qmult_le_compat_r; [exact Hl | apply Qlt_le_weak, pow2_pos].
  - apply Qlt_le_trans with (2 ^ (Qlog2 x + 1) * 2 ^ (- (Qlog2 x - 52)))%Q.
    + apply Qmult_lt_compat_r; [apply pow2_pos | exact Hh].
    + rewrite <- pow2_add. replace (Qlog2 x + 1 + - (Qlog2 x - 52)) with 53 by lia.
      apply Qle_refl.
Qed.

Lemma round_pos_range (x : Q) :
  (0 < x)%Q ->
  (2 ^ Qlog2 x <= round_pos x)%Q /\ (round_pos x <= 2 ^ (Qlog2 x + 1))%Q.
Proof.
  intros Hx. destruct (round_pos_scaled x Hx) as [Hl Hh].
  unfold round_pos. set (s := Qlog2 x - 52) in *.
  assert (Hm1 : 2 ^ 52 <= rne (x * 2 ^ (- s))).
  { rewrite <- (rne_inject (2 ^ 52)). apply rne_le.
    rewrite <- (pow2_Z 52) by lia. exact Hl. }
  assert (Hm2 : rne (x * 2 ^ (- s)) <= 2 ^ 53).
  { rewrite <- (rne_inject (2 ^ 53)). apply rne_le.
    rewrite <- (pow2_Z 53) by lia. apply Qlt_le_weak. exact Hh. }
  split.
  - apply Qle_trans with (2 ^ 52 * 2 ^ s)%Q.
    + rewrite <- pow2_add. replace (52 + s) with (Qlog2 x) by (unfold s; lia).
      apply Qle_refl.
    + apply Qmult_le_compat_r; [| apply Qlt_le_weak, pow2_pos].
      rewrite (pow2_Z 52) by lia. rewrite <- Zle_Qle. exact Hm1.
  - apply Qle_trans with (2 ^ 53 * 2 ^ s)%Q.
    + apply Qmult_le_compat_r; [| apply Qlt_le_weak, pow2_pos].
      rewrite (pow2_Z 53) by lia. rewrite <- Zle_Qle. exact Hm2.
    + rewrite <- pow2_add. replace (53 + s) with (Qlog2 x + 1) by (unfold s; lia).
      apply Qle_refl.
Qed.

Lemma round_pos_comp (x y : Q) : (0 < x)%Q -> (x == y)%Q -> (round_pos x == round_pos y)%Q.
Proof.
  intros Hx Hxy. unfold round_pos. rewrite <- (Qlog2_comp x y Hx Hxy).
  rewrite (rne_comp (x * 2 ^ (- (Qlog2 x - 52))) (y * 2 ^ (- (Qlog2 x - 52)))).
  - reflexivity.
  - apply Qmult_comp; [exact Hxy | reflexivity].
Qed.

Lemma round_pos_le (x y : Q) : (0 < x)%Q -> (x <= y)%Q -> (round_pos x <= round_pos y)%Q.
Proof.
  intros Hx Hxy.
  assert (Hy : (0 < y)%Q) by (eapply Qlt_le_trans; eassumption).
  pose proof (Qlog2_le x y Hx Hxy) as He.
  destruct (Z.eq_dec (Qlog2 x) (Qlog2 y)) as [Heq | Hne].
  - unfold round_pos. rewrite <- Heq.
    apply Qmult_le_compat_r; [| apply Qlt_le_weak, pow2_pos].
    rewrite <- Zle_Qle. apply rne_le.
    apply Qmult_le_compat_r; [exact Hxy | apply Qlt_le_weak, pow2_pos].
  - destruct (round_pos_range x Hx) as [_ Hux].
    destruct (round_pos_range y Hy) as [Hly _].
    eapply Qle_trans; [exact Hux |]. eapply Qle_trans; [| exact Hly].
    apply pow2_le. lia.
Qed.

Lemma round_pos_pos (x : Q) : (0 < x)%Q -> (0 < round_pos x)%Q.
Proof.
  intros Hx. destruct (round_pos_range x Hx) as [Hl _].
  eapply Qlt_le_trans; [apply pow2_pos | exact Hl].
Qed.

Lemma round_pos_scale (x : Q) (k : Z) :
  (0 < x)%Q -> (round_pos (x * 2 ^ k) == round_pos x * 2 ^ k)%Q.
Proof.
  intros Hx. unfold round_pos. rewrite (Qlog2_scale x k Hx).
  rewrite (rne_comp (x * 2 ^ k * 2 ^ (- (Qlog2 x + k - 52))) (x * 2 ^ (- (Qlog2 x - 52)))).
  - replace (Qlog2 x + k - 52) with (Qlog2 x - 52 + k) by lia.
    rewrite (pow2_add (Qlog2 x - 52) k). ring.
  - rewrite <- Qmult_assoc, <- pow2_add.
    replace (k + - (Qlog2 x + k - 52)) with (- (Qlog2 x - 52)) by lia. reflexivity.
Qed.

(** Rounding to the nearest double. *)
Lemma nearest_pos (x : Q) : (0 < x)%Q -> nearest x = round_pos x.
Proof.
  intros Hx. unfold nearest.
  assert (H : (x ?= 0)%Q = Gt) by (apply Qgt_alt; exact Hx).
  rewrite H. reflexivity.
Qed.

Lemma nearest_neg (x : Q) : (x < 0)%Q -> nearest x = (- round_pos (- x))%Q.
Proof.
  intros Hx. unfold nearest.
  assert (H : (x ?= 0)%Q = Lt) by (apply Qlt_alt; exact Hx).
  rewrite H. reflexivity.
Qed.

Lemma nearest_zero (x : Q) : (x == 0)%Q -> nearest x = 0%Q.
Proof.
  intros Hx. unfold nearest.
  assert (H : (x ?= 0)%Q = Eq) by (apply Qeq_alt; exact Hx).
  rewrite H. reflexivity.
Qed.

Lemma opp_pos (x : Q) : (x < 0)%Q -> (0 < - x)%Q.
Proof. intros Hx. apply Qopp_lt_compat in Hx. exact Hx. Qed.

Lemma nearest_comp (x y : Q) : (x == y)%Q -> (nearest x == nearest y)%Q.
Proof.
  intros Hxy. destruct (Qcompare_spec x 0) as [Hx | Hx | Hx].
  - rewrite (nearest_zero x Hx), (nearest_zero y); [reflexivity |].
    rewrite <- Hxy. exact Hx.
  - rewrite (nearest_neg x Hx), (nearest_neg y) by (rewrite <- Hxy; exact Hx).
    apply Qopp_comp. apply round_pos_comp; [apply opp_pos; exact Hx |].
    rewrite Hxy. reflexivity.
  - rewrite (nearest_pos x Hx), (nearest_pos y) by (rewrite <- Hxy; exact Hx).
    apply round_pos_comp; assumption.
Qed.

Lemma nearest_le (x y : Q) : (x <= y)%Q -> (nearest x <= nearest y)%Q.
Proof.
  intros Hxy.
  destruct (Qcompare_spec x 0) as [Hx | Hx | Hx];
    destruct (Qcompare_spec y 0) as [Hy | Hy | Hy].
  - rewrite (nearest_zero x Hx), (nearest_zero y Hy). apply Qle_refl.
  - exfalso. rewrite Hx in Hxy. apply (Qlt_irrefl 0). eapply Qle_lt_trans; eassumption.
  - rewrite (nearest_zero x Hx), (nearest_pos y Hy).
    apply Qlt_le_weak, round_pos_pos. exact Hy.
  - rewrite (nearest_neg x Hx), (nearest_zero y Hy).
    apply Qlt_le_weak. apply (Qopp_lt_compat 0 (round_pos (- x))).
    apply round_pos_pos, opp_pos. exact Hx.
  - rewrite (nearest_neg x Hx), (nearest_neg y Hy).
    apply Qopp_le_compat. apply round_pos_le; [apply opp_pos; exact Hy |].
    apply Qopp_le_compat. exact Hxy.
  - rewrite (nearest_neg x Hx), (nearest_pos y Hy).
    apply Qle_trans with 0%Q.
    + apply Qlt_le_weak. apply (Qopp_lt_compat 0 (round_pos (- x))).
      apply round_pos_pos, opp_pos. exact Hx.
    + apply Qlt_le_weak, round_pos_pos. exact Hy.
  - exfalso. rewrite Hy in Hxy. apply (Qlt_irrefl 0). eapply Qlt_le_trans; eassumption.
  - exfalso. apply (Qlt_irrefl 0).
    eapply Qlt_le_trans; [exact Hx |]. eapply Qle_trans; [exact Hxy |].
    apply Qlt_le_weak. exact Hy.
  - rewrite (nearest_pos x Hx), (nearest_pos y Hy). apply round_pos_le; assumption.
Qed.

Lemma nearest_scale (x : Q) (k : Z) : (nearest (x * 2 ^ k) == nearest x * 2 ^ k)%Q.
Proof.
  destruct (Qcompare_spec x 0) as [Hx | Hx | Hx].
  - rewrite (nearest_zero x Hx), (nearest_zero (x * 2 ^ k)).
    + ring.
    + rewrite Hx. ring.
  - assert (Hxk : (x * 2 ^ k < 0)%Q).
    { setoid_replace 0%Q with (0 * 2 ^ k)%Q by ring.
      apply Qmult_lt_compat_r; [apply pow2_pos | exact Hx]. }
    rewrite (nearest_neg x Hx), (nearest_neg _ Hxk).
    rewrite (round_pos_comp (- (x * 2 ^ k)) (- x * 2 ^ k)).
    + rewrite (round_pos_scale (- x) k (opp_pos x Hx)). ring.
    + apply opp_pos. exact Hxk.
    + ring.
  - assert (Hxk : (0 < x * 2 ^ k)%Q).
    { apply Qmult_lt_0_compat; [exact Hx | apply pow2_pos]. }
    rewrite (nearest_pos x Hx), (nearest_pos _ Hxk).
    apply round_pos_scale. exact Hx.
Qed.

Lemma Qeq_le (x y : Q) : (x == y)%Q -> (x <= y)%Q.
Proof. intros Hxy. rewrite Hxy. apply Qle_refl. Qed.

Lemma nearest_nonneg (x : Q) : (0 <= x)%Q -> (0 <= nearest x)%Q.
Proof. intros Hx. apply (nearest_le 0 x Hx). Qed.

(** Integers up to 2^53 are doubles. *)
Lemma nearest_inject (z : Z) : 0 <= z <= 2 ^ 53 -> (nearest (inject_Z z) == inject_Z z)%Q.
Proof.
  intros [Hz0 Hz1].
  destruct (Z.eq_dec z 0) as [-> | Hnz]; [reflexivity |].
  destruct (Z.eq_dec z (2 ^ 53)) as [-> | Hnt]; [vm_compute; reflexivity |].
  assert (Hz : 0 < z) by lia.
  assert (Hpos : (0 < inject_Z z)%Q)     by (change (inject_Z 0 < inject_Z z)%Q; rewrite <- Zlt_Qlt; exact Hz).
  rewrite (nearest_pos _ Hpos). unfold round_pos.
  destruct (Z.log2_spec z Hz) as [Hl Hh].
  assert (He0 : 0 <= Z.log2 z) by apply Z.log2_nonneg.
  assert (He1 : Z.log2 z < 53) by (apply Z.log2_lt_pow2; lia).
  assert (He : Qlog2 (inject_Z z) = Z.log2 z).
  { apply Qlog2_unique.
    - rewrite (pow2_Z _ He0). rewrite <- Zle_Qle. exact Hl.
    - rewrite (pow2_Z (Z.log2 z + 1)) by lia. rewrite <- Zlt_Qlt.
      replace (Z.log2 z + 1) with (Z.succ (Z.log2 z)) by lia. exact Hh. }
  rewrite He. set (e := Z.log2 z) in *.
  rewrite (rne_comp (inject_Z z * 2 ^ (- (e - 52))) (inject_Z (z * 2 ^ (52 - e)))).
  - rewrite rne_inject. rewrite inject_Z_mult.
    rewrite <- (pow2_Z (52 - e)) by lia.
    rewrite <- Qmult_assoc, <- pow2_add.
    replace (52 - e + (e - 52)) with 0 by lia. ring.
  - rewrite inject_Z_mult. rewrite <- (pow2_Z (52 - e)) by lia.
    replace (- (e - 52)) with (52 - e) by lia. reflexivity.
Qed.

End DoubleFacts.

(** ** Error codes and the retryability verdict *)
Module ErrorsFacts.
Import Errors.

Lemma ErrorCode_eqb_eq a b : ErrorCode_eqb a b = true <-> a = b.
Proof.
  unfold ErrorCode_eqb; destruct (ErrorCode_eq_dec a b); split; congruence.
Qed.

End ErrorsFacts.

Module RetryableFacts.
Import Errors Host Retry Examples.

Lemma status_listed_In codes n :
  status_listed codes n = true <-> exists s, n = Some s /\ In s codes.
Proof.
  destruct n as [s|]; simpl.
  - rewrite existsb_exists. split.
    + intros (x & Hin & Heq). apply Z.eqb_eq in Heq. subst x. eauto.
    + intros (x & Heq & Hin). injection Heq as <-. exists s.
      split; [assumption | apply Z.eqb_refl].
  - split; [discriminate | intros (s & Heq & _); discriminate].
Qed.

Lemma code_listed_In c codes :
  existsb (ErrorCode_eqb c) codes = true <-> In c codes.
Proof.
  rewrite existsb_exists. split.
  - intros (x & Hin & Heq). apply ErrorsFacts.ErrorCode_eqb_eq in Heq.
    now subst x.
  - intros Hin. exists c. split; [assumption|].
    now apply ErrorsFacts.ErrorCode_eqb_eq.
Qed.

(** A listed status is never [0], so the truthiness test of
    [error.statusCode && ...] does not change the verdict. *)
Lemma listed_status_truthy n :
  status_listed RETRYABLE_STATUS_CODES n = true -> number_truthy n = true.
Proof.
  destruct n as [s|]; simpl; [|discriminate].
  destruct (Z.eqb_spec s 0) as [->|]; [discriminate | reflexivity].
Qed.

Lemma isRetryable_true_iff e :
  isRetryable e = true <->
  status_listed RETRYABLE_STATUS_CODES (statusCode e) = true
  \/ In (code e) RETRYABLE_ERROR_CODES.
Proof.
  unfold isRetryable. rewrite <- code_listed_In.
  destruct (status_listed RETRYABLE_STATUS_CODES (statusCode e)) eqn:Hs.
  - rewrite (listed_status_truthy _ Hs). simpl. tauto.
  - rewrite andb_false_r. split; [now right | intros [H|H]; congruence].
Qed.

(** C1. [isRetryable e] is [true] exactly when the code of [e] is one of
    RATE_LIMITED, SERVER_ERROR, NETWORK_ERROR, TIMEOUT or its status code
    is one of 429, 500, 502, 503, 504; an error whose code is
    INVALID_API_KEY, JOB_NOT_FOUND or INVALID_RESPONSE and whose status
    is not in that list is not retryable. *)
Theorem isRetryable_verdict (e : BearWatchError) :
  (isRetryable e = true <->
     In (code e) [RATE_LIMITED; SERVER_ERROR; NETWORK_ERROR; TIMEOUT]
     \/ exists s, statusCode e = Some s /\ In s [429; 500; 502; 503; 504])
  /\ (In (code e) [INVALID_API_KEY; JOB_NOT_FOUND; INVALID_RESPONSE] ->
      (forall s, statusCode e = Some s -> ~ In s [429; 500; 502; 503; 504]) ->
      isRetryable e = false).
Proof.
  split.
  - rewrite isRetryable_true_iff, status_listed_In.
    unfold RETRYABLE_ERROR_CODES, RETRYABLE_STATUS_CODES. simpl. tauto.
  - intros Hcode Hstatus.
    destruct (isRetryable e) eqn:Hr; [exfalso | reflexivity].
    apply isRetryable_true_iff in Hr. destruct Hr as [Hs | Hc].
    + apply status_listed_In in Hs. destruct Hs as (s & Heq & Hin).
      exact (Hstatus s Heq Hin).
    + unfold RETRYABLE_ERROR_CODES in Hc. simpl in Hcode, Hc.
      destruct (code e); intuition discriminate.
Qed.

Lemma isRetryable_verdict_witness :
  (In (code not_found_404) [INVALID_API_KEY; JOB_NOT_FOUND; INVALID_RESPONSE]
   /\ (forall s, statusCode not_found_404 = Some s ->
                 ~ In s [429; 500; 502; 503; 504]))
  /\ isRetryable not_found_404 = false.
Proof.
  assert (Hc : In (code not_found_404)
                  [INVALID_API_KEY; JOB_NOT_FOUND; INVALID_RESPONSE])
    by (simpl; tauto).
  assert (Hs : forall s, statusCode not_found_404 = Some s ->
                         ~ In s [429; 500; 502; 503; 504]).
  { intros s Heq. injection Heq as <-. simpl. lia. }
  split; [split; assumption|].
  exact (proj2 (isRetryable_verdict not_found_404) Hc Hs).
Defined.

End RetryableFacts.

(** ** Backoff delay *)
Module BackoffFacts.
Import Errors Host Retry Examples.

Lemma exponential_integral (attempt baseDelay : Z) :
  0 <= attempt ->
  (inject_Z baseDelay * 2 ^ attempt == inject_Z (baseDelay * 2 ^ attempt))%Q.
Proof.
  intros Ha. rewrite inject_Z_mult.
  now rewrite (Zpower_Qpower 2 attempt Ha).
Qed.

(** The product of a double and a power of two is a double. *)
Lemma exponential_exact (attempt baseDelay : Z) :
  0 <= attempt -> Double.exact baseDelay ->
  (Double.nearest (inject_Z baseDelay * 2 ^ attempt)
   == inject_Z (baseDelay * 2 ^ attempt))%Q.
Proof.
  intros Ha Hexact. unfold Double.exact in Hexact.
  rewrite DoubleFacts.nearest_scale.
  rewrite <- (exponential_integral attempt baseDelay Ha).
  apply Qmult_comp; [exact Hexact | reflexivity].
Qed.

Lemma exponential_is_double (attempt baseDelay : Z) :
  0 <= attempt -> Double.exact baseDelay ->
  Double.exact (baseDelay * 2 ^ attempt).
Proof.
  intros Ha Hexact. unfold Double.exact.
  rewrite <- (exponential_exact attempt baseDelay Ha Hexact) at 2.
  apply DoubleFacts.nearest_comp. symmetry.
  apply exponential_integral. exact Ha.
Qed.

(** With an exponential delay that is a double, the only rounding is
    that of the product with the jitter factor. *)
Lemma jittered_integral (attempt baseDelay : Z) (jitter : Q) :
  0 <= attempt -> Double.exact baseDelay ->
  jittered attempt baseDelay jitter
  = Qfloor (Double.nearest (inject_Z (baseDelay * 2 ^ attempt) * jitter)).
Proof.
  intros Ha Hexact. unfold jittered.
  apply Qfloor_comp, DoubleFacts.nearest_comp.
  apply Qmult_comp; [| reflexivity].
  apply exponential_exact; assumption.
Qed.

Lemma Qfloor_half (E : Z) : Qfloor (inject_Z E * (1 # 2)) = E / 2.
Proof. unfold Qfloor, Qmult, inject_Z. simpl. now rewrite Z.mul_1_r. Qed.

Lemma Qfloor_whole (E : Z) : Qfloor (inject_Z E * 1) = E.
Proof.
  unfold Qfloor, Qmult, inject_Z. simpl.
  now rewrite Z.mul_1_r, Z.div_1_r.
Qed.

(** Half of a double is a double. *)
Lemma nearest_half (E : Z) :
  Double.exact E ->
  (Double.nearest (inject_Z E * (1 # 2)) == inject_Z E * (1 # 2))%Q.
Proof.
  intros Hexact. unfold Double.exact in Hexact.
  change (1 # 2)%Q with (2 ^ (-1))%Q.
  rewrite DoubleFacts.nearest_scale.
  apply Qmult_comp; [exact Hexact | reflexivity].
Qed.

Lemma nearest_whole (E : Z) :
  Double.exact E -> (Double.nearest (inject_Z E * 1) == inject_Z E * 1)%Q.
Proof.
  intros Hexact. unfold Double.exact in Hexact.
  apply Qeq_trans with (Double.nearest (inject_Z E)).
  - apply DoubleFacts.nearest_comp, Qmult_1_r.
  - apply Qeq_trans with (inject_Z E); [exact Hexact |].
    symmetry. apply Qmult_1_r.
Qed.

Lemma exponential_pos (attempt baseDelay : Z) :
  0 <= attempt -> 0 < baseDelay -> 0 < baseDelay * 2 ^ attempt.
Proof.
  intros Ha Hb.
  assert (0 < 2 ^ attempt) by (apply Z.pow_pos_nonneg; lia). nia.
Qed.

Lemma scale_le (E : Z) (x y : Q) :
  0 <= E -> (x <= y)%Q -> (inject_Z E * x <= inject_Z E * y)%Q.
Proof.
  intros HE Hxy. rewrite !(Qmult_comm (inject_Z E)).
  apply Qmult_le_compat_r; [assumption |].
  change 0%Q with (inject_Z 0). now rewrite <- Zle_Qle.
Qed.

(** The bounds of the floored, rounded product when the jitter factor
    lies in [[1/2, 1]]: rounding is monotone, and it leaves the
    exponential delay and its half as they are. *)
Lemma jittered_bounds (attempt baseDelay : Z) (jitter : Q) :
  0 <= attempt -> 0 < baseDelay -> Double.exact baseDelay ->
  (1 # 2 <= jitter)%Q -> (jitter <= 1)%Q ->
  (baseDelay * 2 ^ attempt) / 2 <= jittered attempt baseDelay jitter
  /\ jittered attempt baseDelay jitter <= baseDelay * 2 ^ attempt.
Proof.
  intros Ha Hb Hexact Hlo Hhi.
  pose proof (exponential_pos attempt baseDelay Ha Hb) as HE.
  pose proof (exponential_is_double attempt baseDelay Ha Hexact) as HD.
  rewrite (jittered_integral attempt baseDelay jitter Ha Hexact).
  set (E := baseDelay * 2 ^ attempt) in *.
  split.
  - rewrite <- Qfloor_half.
    rewrite <- (Qfloor_comp _ _ (nearest_half E HD)).
    apply Qfloor_resp_le, DoubleFacts.nearest_le, scale_le; [lia | exact Hlo].
  - rewrite <- (Qfloor_whole E) at 2.
    rewrite <- (Qfloor_comp _ _ (nearest_whole E HD)).
    apply Qfloor_resp_le, DoubleFacts.nearest_le, scale_le; [lia | exact Hhi].
Qed.

(** Half of an even exponential delay is itself an integer. *)
Lemma exponential_even (attempt baseDelay : Z) :
  1 <= attempt \/ Z.even baseDelay = true ->
  2 * ((baseDelay * 2 ^ attempt) / 2) = baseDelay * 2 ^ attempt.
Proof.
  intros [Ha | Hb].
  - replace attempt with (1 + (attempt - 1)) by lia.
    rewrite Z.pow_add_r by lia. change (2 ^ 1) with 2.
    replace (baseDelay * (2 * 2 ^ (attempt - 1)))
      with (baseDelay * 2 ^ (attempt - 1) * 2) by ring.
    rewrite Z.div_mul by lia. ring.
  - apply Z.even_spec in Hb. destruct Hb as [k ->].
    replace (2 * k * 2 ^ attempt) with (k * 2 ^ attempt * 2) by ring.
    rewrite Z.div_mul by lia. ring.
Qed.

(** An integer that is not a double is not a number of the code: read
    as one, it is rounded, here upwards, and the delay follows. *)
Example base_is_rounded :
  ~ Double.exact (2 ^ 53 + 3) /\ jittered 0 (2 ^ 53 + 3) 1 = 2 ^ 53 + 4.
Proof. split; [vm_compute; discriminate | vm_compute; reflexivity]. Qed.

(** The product with the jitter factor is rounded before it is floored:
    with [baseDelay = 500], [attempt = 0] and a draw of
    [0.12399999999999989] the exact product is just below 281 and its
    nearest double is 281. *)
Example product_is_rounded :
  let r := (558446353793941 # 4503599627370496)%Q in
  jittered 0 500 (jitter_of r) = 281
  /\ Qfloor (inject_Z 500 * ((1 # 2) + r * (1 # 2))) = 280.
Proof. split; vm_compute; reflexivity. Qed.

(** C5, as the code has it.  Let [baseDelay > 0] be an integer that is
    a double, [attempt >= 0], the exponential delay
    [baseDelay * 2^attempt] below [2^1024] (so that it is finite), and
    the jitter factor in [[1/2, 1]].  Then the delay is the integer
    [floor (fl (baseDelay * 2^attempt * jitter))], [fl] rounding to the
    nearest double; it lies between [floor (baseDelay * 2^attempt / 2)]
    and [baseDelay * 2^attempt], and it is at least
    [baseDelay * 2^attempt * 0.5] itself whenever that bound is an
    integer ([attempt >= 1] or [baseDelay] even). *)
Theorem calculateBackoffDelay_range {W} `{Runtime W}
    (attempt baseDelay : Z) (w : W) :
  0 <= attempt -> 0 < baseDelay -> Double.exact baseDelay ->
  baseDelay * 2 ^ attempt < 2 ^ 1024 ->
  let jitter := jitter_of (fst (Math_random w)) in
  (1 # 2 <= jitter)%Q -> (jitter <= 1)%Q ->
  let delay := fst (calculateBackoffDelay attempt baseDelay w) in
  delay
  = Qfloor (Double.nearest (inject_Z (baseDelay * 2 ^ attempt) * jitter))
  /\ (baseDelay * 2 ^ attempt) / 2 <= delay <= baseDelay * 2 ^ attempt
  /\ (inject_Z delay <= inject_Z baseDelay * 2 ^ attempt * 1)%Q
  /\ (1 <= attempt \/ Z.even baseDelay = true ->
      (inject_Z baseDelay * 2 ^ attempt * (1 # 2) <= inject_Z delay)%Q).
Proof.
  intros Ha Hb Hexact Hfinite jitter Hlo Hhi delay.
  assert (Hd : delay = jittered attempt baseDelay jitter).
  { unfold delay, jitter, calculateBackoffDelay.
    destruct (Math_random w) as [r w']. reflexivity. }
  destruct (jittered_bounds attempt baseDelay jitter Ha Hb Hexact Hlo Hhi)
    as [Hlower Hupper].
  rewrite <- Hd in Hlower, Hupper.
  split.
  { rewrite Hd. apply jittered_integral; assumption. }
  split; [split; assumption|]. split.
  - rewrite Qmult_1_r, (exponential_integral attempt baseDelay Ha).
    now rewrite <- Zle_Qle.
  - intros Heven. apply (exponential_even attempt baseDelay) in Heven.
    rewrite (exponential_integral attempt baseDelay Ha).
    rewrite <- Heven at 1.
    rewrite inject_Z_mult.
    setoid_replace (inject_Z 2 * inject_Z (baseDelay * 2 ^ attempt / 2) * (1 # 2))%Q
      with (inject_Z (baseDelay * 2 ^ attempt / 2)) by (unfold inject_Z; ring).
    now rewrite <- Zle_Qle.
Qed.

Lemma calculateBackoffDelay_range_witness :
  let jitter := jitter_of (fst (@Math_random _ host_half Scripted.start)) in
  let delay :=
    fst (@calculateBackoffDelay _ host_half 1 500 Scripted.start) in
  (0 <= 1 /\ 0 < 500 /\ Double.exact 500 /\ 500 * 2 ^ 1 < 2 ^ 1024
   /\ (1 # 2 <= jitter)%Q /\ (jitter <= 1)%Q)
  /\ delay = 750
  /\ 500 * 2 ^ 1 / 2 <= delay <= 500 * 2 ^ 1.
Proof.
  assert (Ha : 0 <= 1) by lia.
  assert (Hb : 0 < 500) by lia.
  assert (Hexact : Double.exact 500) by (vm_compute; reflexivity).
  assert (Hfinite : 500 * 2 ^ 1 < 2 ^ 1024) by (vm_compute; reflexivity).
  assert (Hlo : (1 # 2 <= jitter_of (fst (@Math_random _ host_half Scripted.start)))%Q)
    by (vm_compute; discriminate).
  assert (Hhi : (jitter_of (fst (@Math_random _ host_half Scripted.start)) <= 1)%Q)
    by (vm_compute; discriminate).
  pose proof (@calculateBackoffDelay_range _ host_half 1 500 Scripted.start
                Ha Hb Hexact Hfinite Hlo Hhi) as (Hval & Hrange & _).
  split; [repeat split; assumption|].
  split; [vm_compute; reflexivity | exact Hrange].
Defined.

(** C5 as stated fails: with [attempt = 0], [baseDelay = 1] and jitter
    [1/2] the delay is [0], below the stated lower bound
    [1 * 2^0 * 0.5]. *)
Lemma calculateBackoffDelay_below_half :
  let jitter := jitter_of (fst (@Math_random _ host_zero Scripted.start)) in
  let delay := fst (@calculateBackoffDelay _ host_zero 0 1 Scripted.start) in
  (0 <= 0 /\ 0 < 1 /\ (1 # 2 <= jitter)%Q /\ (jitter <= 1)%Q)
  /\ delay = 0
  /\ ~ (inject_Z 1 * 2 ^ 0 * (1 # 2) <= inject_Z delay)%Q.
Proof.
  cbv zeta. split; [|split].
  - repeat split; try lia; vm_compute; discriminate.
  - vm_compute. reflexivity.
  - vm_compute. intros Hle. now apply Hle.
Qed.

End BackoffFacts.

(** ** The retry hint *)
Module RetryAfterFacts.
Import Errors Host Retry Examples.

Lemma geb_true (a b : Z) : b <= a -> (a >=? b) = true.
Proof. intros Hle. rewrite Z.geb_leb. now apply Z.leb_le. Qed.

Lemma geb_false (a b : Z) : a < b -> (a >=? b) = false.
Proof. intros Hlt. rewrite Z.geb_leb. now apply Z.leb_gt. Qed.

(** The double nearest to an integer keeps its sign. *)
Lemma of_Z_nonneg (z : Z) : 0 <= z -> 0 <= Double.of_Z z.
Proof.
  intros Hz. unfold Double.of_Z. rewrite <- (Qfloor_Z 0).
  apply Qfloor_resp_le, DoubleFacts.nearest_nonneg.
  change 0%Q with (inject_Z 0). now rewrite <- Zle_Qle.
Qed.

(** An integer up to 2^53 is read and multiplied without rounding. *)
Lemma of_Z_exact (z : Z) : 0 <= z <= 2 ^ 53 -> Double.of_Z z = z.
Proof.
  intros Hz. unfold Double.of_Z.
  rewrite (Qfloor_comp _ _ (DoubleFacts.nearest_inject z Hz)).
  apply Qfloor_Z.
Qed.

(** The rules of [parseRetryAfter] on the inputs of the test suite and
    on an HTTP date: absent, a number of seconds, a date ten seconds
    ahead, and a text that is neither. *)
Example parseRetryAfter_rules :
  let parse := @parseRetryAfter _ host_dated in
  let w := before_date in
  parse None w = None
  /\ parse (Some "") w = None
  /\ parse (Some "1") w = Some 1000
  /\ parse (Some http_date) w = Some 10000
  /\ parse (Some "not-a-date") w = None.
Proof. cbv zeta. repeat split; vm_compute; reflexivity. Qed.

(** C6.  The code breaks rules (b) to (d) on a text that starts with
    digits and goes on: [parseInt] reads the digits and ignores the
    rest, so the text counts as a number of seconds although it is not
    an integer, and this before [new Date] is asked.  On every host,
    whatever [new Date] makes of these texts, [12abc] gives 12000,
    [1.5] gives 1000 and the date [2030-01-01] gives 2030000, where
    rules (c) and (d) give the time left until a date, or null. *)
Theorem parseRetryAfter_reads_leading_digits {W} `{Runtime W} (w : W) :
  leading_integer "12abc" = Some 12
  /\ parseRetryAfter (Some "12abc") w = Some 12000
  /\ parseRetryAfter (Some "1.5") w = Some 1000
  /\ parseRetryAfter (Some "2030-01-01") w = Some 2030000.
Proof. repeat split; vm_compute; reflexivity. Qed.

End RetryAfterFacts.


(** ** Classification of one attempt *)
Module ClassifierFacts.
Import Errors Host Retry HttpClient Examples.

Lemma code_of_literal_known (c : ErrorCode) :
  code_of_literal (JString (ErrorCode_literal c)) all_codes = Some c.
Proof. destruct c; reflexivity. Qed.

Lemma code_of_literal_unknown (v : JSValue) :
  (forall c, v <> JString (ErrorCode_literal c)) ->
  code_of_literal v all_codes = None.
Proof.
  intros Hnot. destruct v; try reflexivity. simpl.
  repeat match goal with
         | |- context [String.eqb s ?lit] =>
             destruct (String.eqb_spec s lit) as [Heq | _];
             [ exfalso; subst s | ]
         end;
    try reflexivity.
  - exact (Hnot INVALID_API_KEY eq_refl).
  - exact (Hnot JOB_NOT_FOUND eq_refl).
  - exact (Hnot RATE_LIMITED eq_refl).
  - exact (Hnot SERVER_ERROR eq_refl).
  - exact (Hnot INVALID_RESPONSE eq_refl).
  - exact (Hnot NETWORK_ERROR eq_refl).
  - exact (Hnot TIMEOUT eq_refl).
Qed.

Lemma mapStatus_server (status : Z) (body : JSValue) :
  500 <= status -> mapStatusToErrorCode status body = SERVER_ERROR.
Proof.
  intros Hs. unfold mapStatusToErrorCode.
  destruct (Z.eqb_spec status 401); [lia|].
  destruct (Z.eqb_spec status 404); [lia|].
  destruct (Z.eqb_spec status 429); [lia|].
  now rewrite (RetryAfterFacts.geb_true status 500 Hs).
Qed.

Lemma mapStatus_other (status : Z) (body : JSValue) :
  status <> 401 -> status <> 404 -> status <> 429 -> status < 500 ->
  mapStatusToErrorCode status body
  = match code_of_literal
            (js_get_opt (js_get_opt body "error") "code") all_codes with
    | Some c => c
    | None => SERVER_ERROR
    end.
Proof.
  intros H1 H2 H3 H4. unfold mapStatusToErrorCode.
  destruct (Z.eqb_spec status 401); [contradiction|].
  destruct (Z.eqb_spec status 404); [contradiction|].
  destruct (Z.eqb_spec status 429); [contradiction|].
  now rewrite (RetryAfterFacts.geb_false status 500 H4).
Qed.

(** [executeRequest] in terms of its [try] and [catch] parts. *)
Lemma executeRequest_settled {W} `{Runtime W}
    (config : Config.ResolvedConfig) (path : string)
    (options : RequestOptions) (w : W) (io : AttemptIO) (w' : W) :
  fetch (Config.baseUrl config ++ path) (request_init config options) w
  = (io, w') ->
  executeRequest config path options w
  = (match match settled io with
           | Responded response => on_response options response
           | Rejected error => Threw error
           end with
     | Returned payload => Returned payload
     | Threw error => Threw (on_catch config options (signal_reason io) error)
     end, w').
Proof.
  intros Hfetch. unfold executeRequest. rewrite Hfetch.
  destruct (settled io) as [response | error].
  - destruct (on_response options response); reflexivity.
  - reflexivity.
Qed.

(** A typed error raised while handling the response leaves the attempt
    unchanged. *)
Lemma executeRequest_typed {W} `{Runtime W}
    (config : Config.ResolvedConfig) (path : string)
    (options : RequestOptions) (w : W) (response : Response) (w' : W)
    (e : BearWatchError) :
  receives config path options w response w' ->
  on_response options response = Threw (ThrownBearWatch e) ->
  executeRequest config path options w = (Threw (ThrownBearWatch e), w').
Proof.
  intros (io & Hfetch & Hsettled) Hresp.
  rewrite (executeRequest_settled config path options w io w' Hfetch).
  now rewrite Hsettled, Hresp.
Qed.

Lemma executeRequest_returned {W} `{Runtime W}
    (config : Config.ResolvedConfig) (path : string)
    (options : RequestOptions) (w : W) (response : Response) (w' : W)
    (payload : JSValue) :
  receives config path options w response w' ->
  on_response options response = Returned payload ->
  executeRequest config path options w = (Returned payload, w').
Proof.
  intros (io & Hfetch & Hsettled) Hresp.
  rewrite (executeRequest_settled config path options w io w' Hfetch).
  now rewrite Hsettled, Hresp.
Qed.

Lemma not_ok_of_server_status (response : Response) :
  500 <= status response -> ok response = false.
Proof.
  intros Hs. unfold ok. apply andb_false_iff. right. apply Z.leb_gt. lia.
Qed.

(** Every response with a status of 500 or more is classified as a
    SERVER_ERROR carrying that status, whatever its body. *)
Lemma on_response_server {W} `{Runtime W}
    (options : RequestOptions) (response : Response) :
  500 <= status response ->
  exists e,
    on_response options response = Threw (ThrownBearWatch e)
    /\ code e = SERVER_ERROR
    /\ statusCode e = Some (status response).
Proof.
  intros Hs. unfold on_response.
  rewrite (not_ok_of_server_status response Hs). simpl negb. cbv iota.
  rewrite (RetryAfterFacts.geb_true _ 500 Hs).
  destruct (Z.eqb_spec (status response) 429) as [H429 | _]; [lia|].
  destruct (isJson response); simpl.
  - destruct (JSON_parse (text response)) as [data|].
    + eexists. split; [reflexivity|]. simpl.
      split; [now apply mapStatus_server | reflexivity].
    + eexists. split; [reflexivity|]. now split.
  - eexists. split; [reflexivity|]. now split.
Qed.

(** C3. A received response with status 500 or more whose body is not
    the declared JSON format (the content type does not announce JSON, or
    the text fails to parse) makes the attempt throw a SERVER_ERROR that
    carries the status; the error is retryable and is not an
    INVALID_RESPONSE. *)
Theorem server_error_without_json {W} `{Runtime W}
    (config : Config.ResolvedConfig) (path : string)
    (options : RequestOptions) (w : W) (response : Response) (w' : W) :
  receives config path options w response w' ->
  500 <= status response ->
  isJson response = false \/ JSON_parse (text response) = None ->
  exists e,
    executeRequest config path options w = (Threw (ThrownBearWatch e), w')
    /\ code e = SERVER_ERROR
    /\ statusCode e = Some (status response)
    /\ isRetryable e = true
    /\ code e <> INVALID_RESPONSE.
Proof.
  intros Hrecv Hs _.
  destruct (on_response_server options response Hs) as (e & He & Hcode & Hst).
  exists e. split; [|split; [|split; [|split]]].
  - exact (executeRequest_typed config path options w response w' e Hrecv He).
  - exact Hcode.
  - exact Hst.
  - apply RetryableFacts.isRetryable_true_iff. right. rewrite Hcode.
    unfold RETRYABLE_ERROR_CODES. simpl. tauto.
  - rewrite Hcode. discriminate.
Qed.

Lemma receives_scripted random dates json (r : Response) :
  @receives _ (Scripted.host random dates json (fun _ => Scripted.reply r))
    config heartbeat post Scripted.start r after_one_call.
Proof. eexists. split; reflexivity. Qed.

Lemma server_error_without_json_witness :
  (@receives _ host_bad_gateway config heartbeat post Scripted.start
     bad_gateway after_one_call
   /\ 500 <= status bad_gateway
   /\ isJson bad_gateway = false)
  /\ exists e,
       @executeRequest _ host_bad_gateway config heartbeat post Scripted.start
       = (Threw (ThrownBearWatch e), after_one_call)
       /\ code e = SERVER_ERROR
       /\ statusCode e = Some 502
       /\ isRetryable e = true
       /\ code e <> INVALID_RESPONSE.
Proof.
  assert (Hrecv : @receives _ host_bad_gateway config heartbeat post
                    Scripted.start bad_gateway after_one_call)
    by (eexists; split; reflexivity).
  assert (Hs : 500 <= status bad_gateway) by (simpl; lia).
  assert (Hj : isJson bad_gateway = false) by reflexivity.
  split; [repeat split; assumption|].
  exact (@server_error_without_json _ host_bad_gateway config heartbeat post
           Scripted.start bad_gateway after_one_call Hrecv Hs (or_introl Hj)).
Defined.

(** The typed error built from a non-OK response whose body is JSON. *)
Lemma on_response_json_failure {W} `{Runtime W}
    (options : RequestOptions) (response : Response) (data : JSValue) :
  ok response = false -> isJson response = true ->
  JSON_parse (text response) = Some data ->
  exists e,
    on_response options response = Threw (ThrownBearWatch e)
    /\ code e = mapStatusToErrorCode (status response) data
    /\ statusCode e = Some (status response).
Proof.
  intros Hok Hjson Hparse. unfold on_response.
  rewrite Hok, Hjson, Hparse. simpl negb. rewrite andb_false_r. cbv iota.
  destruct (Z.eqb_spec (status response) 429) as [H429 | Hnot].
  - eexists. split; [reflexivity|]. simpl. rewrite H429. now split.
  - eexists. split; [reflexivity|]. now split.
Qed.

(** C7. For a non-OK response whose body is the declared JSON format,
    the attempt throws a typed error whose kind is
    [mapStatusToErrorCode status body]: 401 gives INVALID_API_KEY, 404
    JOB_NOT_FOUND, 429 RATE_LIMITED, 500 and above SERVER_ERROR; for any
    other status the body's [error.code] is the kind when it is the
    literal of one of the seven known kinds, SERVER_ERROR otherwise. *)
Theorem json_failure_kind {W} `{Runtime W}
    (config : Config.ResolvedConfig) (path : string)
    (options : RequestOptions) (w : W) (response : Response) (w' : W)
    (data : JSValue) :
  receives config path options w response w' ->
  ok response = false -> isJson response = true ->
  JSON_parse (text response) = Some data ->
  let bodyCode := js_get_opt (js_get_opt data "error") "code" in
  exists e,
    executeRequest config path options w = (Threw (ThrownBearWatch e), w')
    /\ code e = mapStatusToErrorCode (status response) data
    /\ (status response = 401 -> code e = INVALID_API_KEY)
    /\ (status response = 404 -> code e = JOB_NOT_FOUND)
    /\ (status response = 429 -> code e = RATE_LIMITED)
    /\ (500 <= status response -> code e = SERVER_ERROR)
    /\ (status response <> 401 -> status response <> 404 ->
        status response <> 429 -> status response < 500 ->
        (forall c, bodyCode = JString (ErrorCode_literal c) -> code e = c)
        /\ ((forall c, bodyCode <> JString (ErrorCode_literal c)) ->
            code e = SERVER_ERROR)).
Proof.
  intros Hrecv Hok Hjson Hparse bodyCode.
  destruct (on_response_json_failure options response data Hok Hjson Hparse)
    as (e & He & Hcode & _).
  exists e. split.
  { exact (executeRequest_typed config path options w response w' e Hrecv He). }
  split; [exact Hcode|]. rewrite Hcode.
  split; [now intros -> |]. split; [now intros -> |].
  split; [now intros -> |]. split; [apply mapStatus_server |].
  intros H401 H404 H429 Hlt.
  rewrite (mapStatus_other _ data H401 H404 H429 Hlt). fold bodyCode.
  split.
  - intros c Hc. now rewrite Hc, code_of_literal_known.
  - intros Hnone. now rewrite (code_of_literal_unknown bodyCode Hnone).
Qed.

Lemma json_failure_kind_witness :
  (@receives _ host_forbidden config heartbeat post Scripted.start
     forbidden after_one_call
   /\ ok forbidden = false /\ isJson forbidden = true
   /\ @JSON_parse _ host_forbidden (text forbidden) = Some forbidden_json)
  /\ exists e,
       @executeRequest _ host_forbidden config heartbeat post Scripted.start
       = (Threw (ThrownBearWatch e), after_one_call)
       /\ code e = JOB_NOT_FOUND.
Proof.
  assert (Hrecv : @receives _ host_forbidden config heartbeat post
                    Scripted.start forbidden after_one_call)
    by apply receives_scripted.
  assert (Hok : ok forbidden = false) by reflexivity.
  assert (Hjson : isJson forbidden = true) by reflexivity.
  assert (Hparse : @JSON_parse _ host_forbidden (text forbidden)
                   = Some forbidden_json) by reflexivity.
  split; [repeat split; assumption|].
  destruct (@json_failure_kind _ host_forbidden config heartbeat post
              Scripted.start forbidden after_one_call forbidden_json
              Hrecv Hok Hjson Hparse)
    as (e & Hrun & _ & _ & _ & _ & _ & Hother).
  exists e. split; [exact Hrun|].
  refine (proj1 (Hother _ _ _ _) JOB_NOT_FOUND eq_refl); simpl; lia.
Defined.

(** The envelope of an OK response with a JSON content type whose text
    parses to a value other than [null]: unless the value's [success]
    is strictly [false], the attempt returns the value's [data]
    (possibly [undefined]); when [success] is [false] it throws a
    SERVER_ERROR that carries the status and the body's error message,
    [Request failed] when there is none, provided the message converts
    to a string, and a NETWORK_ERROR without status when it does not. *)
Lemma ok_envelope {W} `{Runtime W}
    (config : Config.ResolvedConfig) (path : string)
    (options : RequestOptions) (w : W) (response : Response) (w' : W)
    (data : JSValue) :
  receives config path options w response w' ->
  ok response = true -> isJson response = true ->
  JSON_parse (text response) = Some data ->
  js_nullish data = false ->
  (js_get data "success" <> JBool false ->
   executeRequest config path options w
   = (Returned (js_get data "data"), w'))
  /\ (js_get data "success" = JBool false ->
      let shown := envelope_message data in
      (forall shown_text, ToString shown = Some shown_text ->
         exists e,
           executeRequest config path options w
           = (Threw (ThrownBearWatch e), w')
           /\ code e = SERVER_ERROR
           /\ statusCode e = Some (status response)
           /\ message e = shown_text)
      /\ (ToString shown = None ->
          exists e,
            executeRequest config path options w
            = (Threw (ThrownBearWatch e), w')
            /\ code e = NETWORK_ERROR
            /\ statusCode e = None
            /\ cause e = Some conversion_error)).
Proof.
  intros Hrecv Hok Hjson Hparse Hnull. split.
  - intros Hsuccess.
    apply (executeRequest_returned config path options w response w' _ Hrecv).
    unfold on_response. rewrite Hok, Hjson, Hparse, Hnull. simpl negb. cbv iota.
    destruct (js_get data "success") as [ | |[|]| | | | ];
      try reflexivity. now contradiction Hsuccess.
  - intros Hsuccess shown.
    destruct Hrecv as (io & Hfetch & Hsettled).
    assert (Hon : on_response options response
                  = Threw (construct_BearWatchError shown SERVER_ERROR
                             (Some (status response)) (Some (text response))
                             (context options))).
    { unfold on_response. rewrite Hok, Hjson, Hparse, Hnull, Hsuccess.
      reflexivity. }
    split.
    + intros shown_text Hshown. eexists. split; [|split; [|split]].
      * unfold executeRequest. rewrite Hfetch, Hsettled, Hon.
        unfold construct_BearWatchError. rewrite Hshown. reflexivity.
      * reflexivity.
      * reflexivity.
      * reflexivity.
    + intros Hshown. eexists. split; [|split; [|split]].
      * unfold executeRequest. rewrite Hfetch, Hsettled, Hon.
        unfold construct_BearWatchError. rewrite Hshown. reflexivity.
      * reflexivity.
      * reflexivity.
      * reflexivity.
Qed.

Example ok_envelope_accepted :
  @executeRequest _ host_accepted config heartbeat post Scripted.start
  = (Returned (JNumber 7), after_one_call).
Proof. reflexivity. Qed.

(** C10.  The code breaks the claim on the JSON text [null].  The
    response is OK, announces JSON and its body parses; there is no
    [success] field, let alone a [false] one, so the request is to
    resolve with an undefined payload.  But [apiResponse.success] is
    read without the guard that the path of a failed response has
    ([body?.error?.code], [data !== null]): the read throws a
    [TypeError], which the [catch] block takes for a failure of the
    network.  The attempt ends in a NETWORK_ERROR without status, which
    the retry loop retries. *)
Theorem null_body_is_network_error :
  let run :=
    @executeRequest _ host_null_body config heartbeat post Scripted.start in
  (@receives _ host_null_body config heartbeat post Scripted.start
     null_body after_one_call
   /\ ok null_body = true /\ isJson null_body = true
   /\ @JSON_parse _ host_null_body (text null_body) = Some JNull
   /\ js_get JNull "success" <> JBool false)
  /\ (exists e,
        run = (Threw (ThrownBearWatch e), after_one_call)
        /\ code e = NETWORK_ERROR
        /\ message e = "Network error"
        /\ statusCode e = None
        /\ cause e = Some (property_read_error "success")
        /\ Retry.isRetryable e = true)
  /\ ~ (exists payload w', run = (Returned payload, w')).
Proof.
  cbv zeta. split; [|split].
  - split; [apply receives_scripted|].
    repeat split; try reflexivity. discriminate.
  - eexists. split; [reflexivity|]. repeat split.
  - intros (payload & w' & Hrun). discriminate Hrun.
Qed.

End ClassifierFacts.


(** ** The retry loop *)
Module LoopFacts.
Import Errors Host Retry HttpClient Examples.

Section Loop.
Context {W T : Type} `{Runtime W}.
Variable fn : Async W T.
Variable options : RetryOptions.

(** Enough fuel always yields a result: the loop terminates. *)
Lemma withRetry_loop_total (fuel : nat) :
  forall attempt lastError w,
    (Z.to_nat (maxRetries options + 1 - attempt) < fuel)%nat ->
    exists result, withRetry_loop fn options fuel attempt lastError w = Some result.
Proof.
  induction fuel as [|fuel IH]; intros attempt lastError w Hfuel; [lia|].
  simpl. destruct (Z.leb_spec attempt (maxRetries options)) as [Hle | Hgt].
  - destruct (fn w) as [[v | [e | e | v]] w1]; eauto.
    destruct (negb (isRetryable e) || (attempt >=? maxRetries options)); eauto.
    destruct (retry_delay e attempt options w1) as [delay w2].
    destruct (IH (attempt + 1) (Some e) (sleep delay w2)) as [[[final w3] events] Hrec];
      [lia|].
    rewrite Hrec. eauto.
  - eauto.
Qed.

Lemma withRetry_total (w : W) :
  exists result, withRetry fn options w = Some result.
Proof.
  apply withRetry_loop_total. unfold withRetry_fuel. lia.
Qed.

(** A run that enters the loop body ends with an attempt whose outcome
    is the result; every event before it is a sleep or a retryable typed
    failure; and the attempts fit the remaining budget. *)
Lemma withRetry_loop_shape (fuel : nat) :
  forall attempt lastError w final w' events,
    withRetry_loop fn options fuel attempt lastError w = Some (final, w', events) ->
    attempt <= maxRetries options ->
    (exists retried,
        events = (retried ++ [Attempt final])%list /\ Forall retried_event retried)
    /\ Z.of_nat (attempts events) <= maxRetries options + 1 - attempt.
Proof.
  induction fuel as [|fuel IH]; intros attempt lastError w final w' events Hrun Hle;
    [discriminate|].
  simpl in Hrun.
  destruct (Z.leb_spec attempt (maxRetries options)) as [_ | Hgt]; [|lia].
  assert (Hone : forall outcome : Completion T,
             Some (outcome, snd (fn w), [Attempt outcome]) = Some (final, w', events) ->
             (exists retried,
                 events = (retried ++ [Attempt final])%list /\ Forall retried_event retried)
             /\ Z.of_nat (attempts events) <= maxRetries options + 1 - attempt).
  { intros outcome Heq. injection Heq as <- <- <-. split.
    - exists []. split; [reflexivity | constructor].
    - unfold attempts. simpl. lia. }
  destruct (fn w) as [[v | [e | e | v]] w1] eqn:Hfn; simpl in Hone;
    try exact (Hone _ Hrun).
  destruct (isRetryable e) eqn:Hretry; simpl in Hrun; [|exact (Hone _ Hrun)].
  destruct (Z.geb_spec attempt (maxRetries options)) as [Hge | Hlt];
    [exact (Hone _ Hrun)|].
  destruct (retry_delay e attempt options w1) as [delay w2].
  destruct (withRetry_loop fn options fuel (attempt + 1) (Some e) (sleep delay w2))
    as [[[final' w3] events']|] eqn:Hrec; [|discriminate].
  injection Hrun as <- <- <-.
  destruct (IH _ _ _ _ _ _ Hrec) as [(retried & -> & Hall) Hcount]; [lia|].
  split.
  - exists (Attempt (Threw (ThrownBearWatch e)) :: Sleep delay :: retried).
    split; [reflexivity|].
    constructor; [exists e; now split|]. constructor; [exact I | exact Hall].
  - unfold attempts in *. simpl. lia.
Qed.

(** An iteration whose attempt ends the run: the result is the outcome
    of that attempt, and nothing follows it. *)
Lemma withRetry_loop_stops (fuel : nat) (attempt : Z)
    (lastError : option BearWatchError) (w : W) (outcome : Completion T) (w1 : W) :
  attempt <= maxRetries options ->
  fn w = (outcome, w1) ->
  match outcome with
  | Returned _ => True
  | Threw (ThrownBearWatch e) =>
      isRetryable e = false \/ maxRetries options <= attempt
  | Threw _ => True
  end ->
  withRetry_loop fn options (S fuel) attempt lastError w
  = Some (outcome, w1, [Attempt outcome]).
Proof.
  intros Hle Hfn Hstop. simpl.
  destruct (Z.leb_spec attempt (maxRetries options)) as [_ | Hgt]; [|lia].
  rewrite Hfn. destruct outcome as [v | [e | e | v]]; try reflexivity.
  destruct Hstop as [Hno | Hlast].
  - now rewrite Hno.
  - rewrite (RetryAfterFacts.geb_true _ _ Hlast). now rewrite orb_true_r.
Qed.

(** An iteration whose attempt is retried. *)
Lemma withRetry_loop_retries (fuel : nat) (attempt : Z)
    (lastError : option BearWatchError) (w : W) (e : BearWatchError) (w1 : W) :
  attempt < maxRetries options ->
  fn w = (Threw (ThrownBearWatch e), w1) ->
  isRetryable e = true ->
  withRetry_loop fn options (S fuel) attempt lastError w
  = let '(delay, w2) := retry_delay e attempt options w1 in
    match withRetry_loop fn options fuel (attempt + 1) (Some e) (sleep delay w2) with
    | Some (final, w3, events) =>
        Some (final, w3, Attempt (Threw (ThrownBearWatch e)) :: Sleep delay :: events)
    | None => None
    end.
Proof.
  intros Hlt Hfn Hretry. simpl.
  destruct (Z.leb_spec attempt (maxRetries options)) as [_ | Hgt]; [|lia].
  rewrite Hfn, Hretry, (RetryAfterFacts.geb_false _ _ Hlt). reflexivity.
Qed.

End Loop.

(** The first event of a run that enters the loop body is an attempt. *)
Lemma withRetry_loop_first_event {W T} `{Runtime W}
    (fn : Async W T) (options : RetryOptions) (fuel : nat) (attempt : Z)
    (lastError : option BearWatchError) (w : W)
    (final : Completion T) (w' : W) (events : list (Event T)) :
  withRetry_loop fn options fuel attempt lastError w = Some (final, w', events) ->
  attempt <= maxRetries options ->
  exists outcome rest, events = Attempt outcome :: rest.
Proof.
  intros Hrun Hle.
  destruct (withRetry_loop_shape fn options fuel _ _ _ _ _ _ Hrun Hle)
    as [(retried & -> & Hall) _].
  destruct retried as [|ev retried]; simpl; [eauto|].
  destruct fuel as [|fuel]; [discriminate|]. simpl in Hrun.
  destruct (Z.leb_spec attempt (maxRetries options)) as [_ | Hgt]; [|lia].
  destruct (fn w) as [[v | [e | e | v]] w1];
    try (injection Hrun as _ _ Hev; rewrite <- Hev; eauto).
  destruct (negb (isRetryable e) || (attempt >=? maxRetries options)).
  - injection Hrun as _ _ Hev. rewrite <- Hev. eauto.
  - destruct (retry_delay e attempt options w1) as [delay w2].
    destruct (withRetry_loop fn options fuel (attempt + 1) (Some e) (sleep delay w2))
      as [[[final' w3] events']|]; [|discriminate].
    injection Hrun as _ _ Hev. rewrite <- Hev. eauto.
Qed.

Lemma last_event_unique {A} (before after retried : list A) (x y : A) :
  (before ++ x :: after = retried ++ [y])%list ->
  (after = [] /\ x = y) \/ In x retried.
Proof.
  intros Heq. destruct after as [|a after].
  - left. apply app_inj_tail in Heq. now split.
  - right.
    destruct (@exists_last _ (a :: after)) as (after' & z & Hlast);
      [discriminate|].
    rewrite Hlast in Heq.
    change (x :: after' ++ [z])%list with ((x :: after') ++ [z])%list in Heq.
    rewrite app_assoc in Heq. apply app_inj_tail in Heq. destruct Heq as [<- _].
    apply in_or_app. right. now left.
Qed.

(** C2. With a non-negative [maxRetries], [withRetry] ends after at most
    [maxRetries + 1] invocations of the attempt function; if the first
    attempt fails with a typed error that is not retryable, that error
    is thrown after exactly one attempt, whatever [maxRetries] is; the
    run always ends with an attempt whose outcome is the result, every
    earlier attempt having failed with a retryable typed error, so an
    attempt that fails with a non-retryable typed error is never
    followed by another; and a thrown error, on exhaustion of the budget
    in particular, is the last attempt's. *)
Theorem withRetry_attempt_budget {W T} `{Runtime W}
    (fn : Async W T) (options : RetryOptions) (w : W) :
  0 <= maxRetries options ->
  exists final w' events,
    withRetry fn options w = Some (final, w', events)
    /\ Z.of_nat (attempts events) <= maxRetries options + 1
    /\ (forall e w1,
          fn w = (Threw (ThrownBearWatch e), w1) -> isRetryable e = false ->
          final = Threw (ThrownBearWatch e)
          /\ events = [Attempt final] /\ attempts events = 1%nat)
    /\ (exists retried,
          events = (retried ++ [Attempt final])%list
          /\ Forall retried_event retried)
    /\ (forall before e after,
          events = (before ++ Attempt (Threw (ThrownBearWatch e)) :: after)%list ->
          isRetryable e = false ->
          after = [] /\ final = Threw (ThrownBearWatch e))
    /\ (forall t, final = Threw t ->
          exists before, events = (before ++ [Attempt (Threw t)])%list).
Proof.
  intros Hmax.
  destruct (withRetry_total fn options w) as [[[final w'] events] Hrun].
  exists final, w', events. split; [exact Hrun|].
  destruct (withRetry_loop_shape fn options _ _ _ _ _ _ _ Hrun Hmax)
    as [(retried & Hev & Hall) Hcount].
  split; [lia|]. split; [|split; [|split]].
  - intros e w1 Hfn Hno.
    unfold withRetry, withRetry_fuel in Hrun.
    rewrite (withRetry_loop_stops fn options _ 0 None w _ w1 Hmax Hfn
               (or_introl Hno)) in Hrun.
    injection Hrun as <- _ <-. now repeat split.
  - exists retried. now split.
  - intros before e after Hsplit Hno. rewrite Hev in Hsplit.
    destruct (last_event_unique _ _ _ _ _ (eq_sym Hsplit)) as [[-> Hlast] | Hin].
    + split; [reflexivity|]. now injection Hlast as <-.
    + rewrite Forall_forall in Hall. destruct (Hall _ Hin) as (e' & He' & Hyes).
      injection He' as <-. congruence.
  - intros t ->. exists retried. exact Hev.
Qed.

Lemma withRetry_attempt_budget_witness :
  let fn := @executeRequest _ host_unauthorized config heartbeat post in
  exists e,
    (0 <= maxRetries policy
     /\ fn Scripted.start = (Threw (ThrownBearWatch e), after_one_call)
     /\ isRetryable e = false)
    /\ code e = INVALID_API_KEY
    /\ exists w' events,
         @withRetry _ _ host_unauthorized fn policy Scripted.start
         = Some (Threw (ThrownBearWatch e), w', events)
         /\ attempts events = 1%nat.
Proof.
  intros fn. eexists.
  assert (Hmax : 0 <= maxRetries policy) by (simpl; lia).
  assert (Hfn : fn Scripted.start
                = (Threw (ThrownBearWatch _), after_one_call)) by reflexivity.
  assert (Hno : isRetryable
                  (new_BearWatchError "Request failed with status 401"
                     INVALID_API_KEY (Some 401) (Some "{}") None None)
                = false) by reflexivity.
  split; [split; [exact Hmax | split; [exact Hfn | exact Hno]]|].
  split; [reflexivity|].
  destruct (@withRetry_attempt_budget _ _ host_unauthorized fn policy
              Scripted.start Hmax)
    as (final & w' & events & Hrun & _ & Hfirst & _).
  destruct (Hfirst _ _ Hfn Hno) as (Hfinal & _ & Hone).
  exists w', events. rewrite <- Hfinal. split; [exact Hrun | exact Hone].
Defined.

(** A server that always answers 502 uses the whole budget of
    [maxRetries = 3]: four attempts, three sleeps, and the error thrown
    is the fourth attempt's. *)
Example exhausted_budget :
  let fn := @executeRequest _ host_bad_gateway config heartbeat post in
  exists e d1 d2 d3,
    @withRetry _ _ host_bad_gateway fn policy Scripted.start
    = Some (Threw (ThrownBearWatch e),
            {| Scripted.clock := d1 + d2 + d3; Scripted.calls := 4 |},
            [Attempt (Threw (ThrownBearWatch e)); Sleep d1;
             Attempt (Threw (ThrownBearWatch e)); Sleep d2;
             Attempt (Threw (ThrownBearWatch e)); Sleep d3;
             Attempt (Threw (ThrownBearWatch e))])
    /\ code e = SERVER_ERROR /\ statusCode e = Some 502.
Proof.
  intros fn. eexists. exists 375, 750, 1500.
  split; [vm_compute; reflexivity|]. split; reflexivity.
Qed.

Lemma retry_delay_rate_limited {W} `{Runtime W}
    (e : BearWatchError) (attempt : Z) (options : RetryOptions) (w : W) :
  code e = RATE_LIMITED ->
  retry_delay e attempt options w
  = match parseRetryAfter (retryAfter e) w with
    | Some retryAfterDelay => (retryAfterDelay, w)
    | None => calculateBackoffDelay attempt (baseDelay options) w
    end.
Proof. intros Hcode. unfold retry_delay. now rewrite Hcode. Qed.

Lemma rate_limited_retryable (e : BearWatchError) :
  code e = RATE_LIMITED -> isRetryable e = true.
Proof.
  intros Hcode. apply RetryableFacts.isRetryable_true_iff. right.
  rewrite Hcode. unfold RETRYABLE_ERROR_CODES. simpl. tauto.
Qed.

(** The step of the loop at a rate-limited failure that is retried. *)
Lemma rate_limited_step {W T} `{Runtime W}
    (fn : Async W T) (options : RetryOptions) (fuel : nat) (attempt : Z)
    (lastError : option BearWatchError) (w : W) (e : BearWatchError) (w1 : W) :
  attempt < maxRetries options ->
  fn w = (Threw (ThrownBearWatch e), w1) ->
  code e = RATE_LIMITED ->
  (Z.to_nat (maxRetries options + 1 - attempt) < S fuel)%nat ->
  exists delay w2 final w3 events,
    withRetry_loop fn options (S fuel) attempt lastError w
    = Some (final, w3,
            Attempt (Threw (ThrownBearWatch e)) :: Sleep delay :: events)
    /\ withRetry_loop fn options fuel (attempt + 1) (Some e) (sleep delay w2)
       = Some (final, w3, events)
    /\ (forall hint,
          parseRetryAfter (retryAfter e) w1 = Some hint ->
          delay = hint /\ w2 = w1)
    /\ (parseRetryAfter (retryAfter e) w1 = None ->
        (delay, w2) = calculateBackoffDelay attempt (baseDelay options) w1).
Proof.
  intros Hlt Hfn Hcode Hfuel.
  rewrite (withRetry_loop_retries fn options fuel attempt lastError w e w1
             Hlt Hfn (rate_limited_retryable e Hcode)).
  destruct (retry_delay e attempt options w1) as [delay w2] eqn:Hdelay.
  destruct (withRetry_loop_total fn options fuel (attempt + 1) (Some e)
              (sleep delay w2)) as [[[final w3] events] Hrec]; [lia|].
  exists delay, w2, final, w3, events. rewrite Hrec.
  split; [reflexivity|]. split; [reflexivity|].
  rewrite (retry_delay_rate_limited e attempt options w1 Hcode) in Hdelay.
  split.
  - intros hint Hhint. rewrite Hhint in Hdelay. injection Hdelay as <- <-.
    now split.
  - intros Hnone. now rewrite Hnone in Hdelay.
Qed.

Lemma on_response_429 {W} `{Runtime W}
    (options : RequestOptions) (response : Response) :
  status response = 429 ->
  exists e,
    on_response options response = Threw (ThrownBearWatch e)
    /\ code e = RATE_LIMITED
    /\ statusCode e = Some 429
    /\ retryAfter e = headers_get response "Retry-After".
Proof.
  intros Hs. unfold on_response, ok. rewrite Hs. simpl.
  eexists. split; [reflexivity|]. now repeat split.
Qed.

(** C4. When the loop retries a RATE_LIMITED failure, the delay it
    sleeps before the next attempt is the parsed retry hint whenever
    [parseRetryAfter] yields one (no backoff is computed), and the
    exponential backoff for the current attempt index otherwise; the
    hint of the error thrown for a 429 response is its [Retry-After]
    header.  In particular, after a 429 response with [Retry-After: 1]
    and with at least one retry allowed, the request sleeps 1000 ms
    between its first and second attempts. *)
Theorem rate_limited_delay {W T} `{Runtime W} :
  (forall (fn : Async W T) (options : RetryOptions) (fuel : nat) (attempt : Z)
          (lastError : option BearWatchError) (w : W)
          (e : BearWatchError) (w1 : W),
      attempt < maxRetries options ->
      fn w = (Threw (ThrownBearWatch e), w1) ->
      code e = RATE_LIMITED ->
      (Z.to_nat (maxRetries options + 1 - attempt) < S fuel)%nat ->
      exists delay w2 final w3 events,
        withRetry_loop fn options (S fuel) attempt lastError w
        = Some (final, w3,
                Attempt (Threw (ThrownBearWatch e)) :: Sleep delay :: events)
        /\ withRetry_loop fn options fuel (attempt + 1) (Some e) (sleep delay w2)
           = Some (final, w3, events)
        /\ (forall hint,
              parseRetryAfter (retryAfter e) w1 = Some hint ->
              delay = hint /\ w2 = w1)
        /\ (parseRetryAfter (retryAfter e) w1 = None ->
            (delay, w2) = calculateBackoffDelay attempt (baseDelay options) w1))
  /\ (forall (config : Config.ResolvedConfig) (path : string)
             (options : RequestOptions) (w : W) (response : Response) (w1 : W),
        receives config path options w response w1 ->
        status response = 429 ->
        exists e,
          executeRequest config path options w
          = (Threw (ThrownBearWatch e), w1)
          /\ code e = RATE_LIMITED
          /\ retryAfter e = headers_get response "Retry-After")
  /\ (forall (config : Config.ResolvedConfig) (path : string)
             (options : RequestOptions) (w : W) (response : Response) (w1 : W),
        receives config path options w response w1 ->
        status response = 429 ->
        headers_get response "Retry-After" = Some "1" ->
        1 <= Config.maxRetries config ->
        exists e final w3 second rest,
          withRetry (executeRequest config path options)
            {| maxRetries := Config.maxRetries config;
               baseDelay := Config.retryDelay config |} w
          = Some (final, w3,
                  Attempt (Threw (ThrownBearWatch e)) :: Sleep 1000
                    :: Attempt second :: rest)
          /\ code e = RATE_LIMITED).
Proof.
  split; [|split].
  - intros fn options fuel attempt lastError w e w1.
    apply rate_limited_step.
  - intros config path options w response w1 Hrecv H429.
    destruct (on_response_429 options response H429)
      as (e & He & Hcode & _ & Hafter).
    exists e. split; [|now split].
    exact (ClassifierFacts.executeRequest_typed config path options
             w response w1 e Hrecv He).
  - intros config path options w response w1 Hrecv H429 Hhint Hmax.
    destruct (on_response_429 options response H429)
      as (e & He & Hcode & _ & Hafter).
    pose proof (ClassifierFacts.executeRequest_typed config path options
                  w response w1 e Hrecv He) as Hfn.
    set (policy := {| maxRetries := Config.maxRetries config;
                      baseDelay := Config.retryDelay config |}).
    destruct (rate_limited_step (executeRequest config path options) policy
                (Z.to_nat (maxRetries policy + 1)) 0 None w e w1)
      as (delay & w2 & final & w3 & events & Hrun & Hrest & Hhinted & _);
      [simpl; lia | exact Hfn | exact Hcode | simpl; lia |].
    assert (Hparse : parseRetryAfter (retryAfter e) w1 = Some 1000)
      by (rewrite Hafter, Hhint; reflexivity).
    destruct (Hhinted 1000 Hparse) as [-> ->].
    destruct (withRetry_loop_first_event _ _ _ _ _ _ _ _ _ Hrest)
      as (second & rest & ->); [simpl; lia|].
    exists e, final, w3, second, rest. split; [exact Hrun | exact Hcode].
Qed.

Lemma rate_limited_delay_witness :
  let fn := @executeRequest _ host_rate_limited config heartbeat post in
  let run := @withRetry _ _ host_rate_limited fn policy Scripted.start in
  exists e,
    ((0 < maxRetries policy
      /\ fn Scripted.start = (Threw (ThrownBearWatch e), after_one_call)
      /\ code e = RATE_LIMITED
      /\ (Z.to_nat (maxRetries policy + 1 - 0) < withRetry_fuel policy)%nat
      /\ @parseRetryAfter _ host_rate_limited (retryAfter e) after_one_call
         = Some 1000)
     /\ exists final w3 events, run = Some (final, w3, events)
          /\ exists rest, events = Attempt (Threw (ThrownBearWatch e))
                                     :: Sleep 1000 :: rest)
    /\ ((@receives _ host_rate_limited config heartbeat post Scripted.start
           rate_limited after_one_call
         /\ status rate_limited = 429
         /\ headers_get rate_limited "Retry-After" = Some "1"
         /\ 1 <= Config.maxRetries config)
        /\ exists e' final w3 second rest,
             run = Some (final, w3,
                         Attempt (Threw (ThrownBearWatch e')) :: Sleep 1000
                           :: Attempt second :: rest)
             /\ code e' = RATE_LIMITED).
Proof.
  intros fn run. eexists.
  assert (Hlt : 0 < maxRetries policy) by (simpl; lia).
  assert (Hfn : fn Scripted.start
                = (Threw (ThrownBearWatch _), after_one_call)) by reflexivity.
  assert (Hcode : code (with_retryAfter
                          (new_BearWatchError "Rate limit exceeded" RATE_LIMITED
                             (Some 429) (Some "{}") None None) (Some "1"))
                  = RATE_LIMITED) by reflexivity.
  assert (Hfuel : (Z.to_nat (maxRetries policy + 1 - 0) < withRetry_fuel policy)%nat)
    by (vm_compute; lia).
  assert (Hparse : @parseRetryAfter _ host_rate_limited
                     (retryAfter (with_retryAfter
                        (new_BearWatchError "Rate limit exceeded" RATE_LIMITED
                           (Some 429) (Some "{}") None None) (Some "1")))
                     after_one_call = Some 1000) by reflexivity.
  assert (Hrecv : @receives _ host_rate_limited config heartbeat post
                    Scripted.start rate_limited after_one_call)
    by (eexists; split; reflexivity).
  assert (H429 : status rate_limited = 429) by reflexivity.
  assert (Hhint : headers_get rate_limited "Retry-After" = Some "1")
    by reflexivity.
  assert (Hmax : 1 <= Config.maxRetries config) by (simpl; lia).
  split; [split|split].
  - split; [exact Hlt|]. split; [exact Hfn|]. split; [exact Hcode|].
    split; [exact Hfuel | exact Hparse].
  - destruct (proj1 (@rate_limited_delay _ JSValue host_rate_limited)
                fn policy _ 0 None Scripted.start _ after_one_call
                Hlt Hfn Hcode Hfuel)
      as (delay & w2 & final & w3 & events & Hrun & _ & Hhinted & _).
    destruct (Hhinted 1000 Hparse) as [-> _].
    exists final, w3. eexists. split; [exact Hrun|]. exists events. reflexivity.
  - split; [exact Hrecv|]. split; [exact H429|]. split; [exact Hhint | exact Hmax].
  - exact (proj2 (proj2 (@rate_limited_delay _ JSValue host_rate_limited))
             config heartbeat post Scripted.start rate_limited after_one_call
             Hrecv H429 Hhint Hmax).
Defined.

(** The same run, evaluated: the failed attempt, a sleep of 1000 ms,
    and the second attempt, which succeeds. *)
Example rate_limited_then_accepted :
  option_map
    (fun '(final, w, events) =>
       (final, Scripted.clock w,
        map (fun ev => match ev with
                       | Attempt (Returned _) => "returned"
                       | Attempt (Threw _) => "threw"
                       | Sleep 1000 => "slept 1000"
                       | Sleep _ => "slept"
                       end) events))
    (@withRetry _ _ host_rate_limited
       (@executeRequest _ host_rate_limited config heartbeat post)
       policy Scripted.start)
  = Some (Returned (JNumber 7), 1000, ["threw"; "slept 1000"; "returned"]).
Proof. vm_compute. reflexivity. Qed.

(** ** Errors that are not the SDK's *)

Lemma executeRequest_rejected {W} `{Runtime W}
    (config : Config.ResolvedConfig) (path : string)
    (options : RequestOptions) (w : W) (error : Thrown)
    (reason : option string) (w' : W) :
  rejects config path options w error reason w' ->
  executeRequest config path options w
  = (Threw (on_catch config options reason error), w').
Proof.
  intros (io & Hfetch & Hsettled & Hreason).
  rewrite (ClassifierFacts.executeRequest_settled config path options w io w'
             Hfetch).
  now rewrite Hsettled, Hreason.
Qed.

Lemma timeout_reason_false (reason : option string) :
  reason <> Some "timeout" ->
  match reason with
  | Some r => String.eqb r "timeout"
  | None => false
  end = false.
Proof.
  intros Hne. destruct reason as [r|]; [|reflexivity].
  destruct (String.eqb_spec r "timeout") as [-> | _];
    [now contradiction Hne | reflexivity].
Qed.

(** A cancellation that is not the attempt's own timeout passes through
    the [catch] block as it is. *)
Lemma on_catch_user_abort (config : Config.ResolvedConfig)
    (options : RequestOptions) (reason : option string) (e : NativeError) :
  err_name e = "AbortError" -> reason <> Some "timeout" ->
  on_catch config options reason (ThrownError e) = ThrownError e.
Proof.
  intros Hname Hreason. unfold on_catch.
  now rewrite Hname, (timeout_reason_false reason Hreason).
Qed.

(** The [catch] block builds a TIMEOUT error exactly for an [AbortError]
    raised while the signal's reason is the timeout marker. *)
Lemma on_catch_timeout_iff (config : Config.ResolvedConfig)
    (options : RequestOptions) (reason : option string) (error : Thrown) :
  instanceof_BearWatchError error = false ->
  (exists b, on_catch config options reason error = ThrownBearWatch b
             /\ code b = TIMEOUT)
  <-> (exists e, error = ThrownError e /\ err_name e = "AbortError"
                 /\ reason = Some "timeout").
Proof.
  intros Hforeign. destruct error as [b0 | e | v]; [discriminate| |].
  - unfold on_catch.
    destruct (String.eqb_spec (err_name e) "AbortError") as [Hname | Hname].
    + destruct reason as [r|].
      * destruct (String.eqb_spec r "timeout") as [-> | Hr].
        -- split; [intros _; now exists e|].
           intros _. eexists. split; reflexivity.
        -- split; [intros (b & Hb & _); discriminate|].
           intros (e' & _ & _ & Hr'). congruence.
      * split; [intros (b & Hb & _); discriminate|].
        intros (e' & _ & _ & Hr'). discriminate.
    + split.
      * intros (b & Hb & Hcode). destruct (err_isTypeError e);
          injection Hb as <-; discriminate.
      * intros (e' & He' & Hname' & _). congruence.
  - split.
    + intros (b & Hb & Hcode). simpl in Hb. injection Hb as <-. discriminate.
    + intros (e' & He' & _). discriminate.
Qed.

(** C8. An error raised by an attempt that is not a [BearWatchError] is
    rethrown by [withRetry] as it is, at whatever iteration and under
    whatever policy it occurs: that attempt is the last event of the run,
    with no sleep and no attempt after it.  In [executeRequest], a
    cancellation other than the attempt's own timeout is passed on
    unchanged, and a TIMEOUT error is built only for an [AbortError]
    raised while the signal's reason is the timeout marker. *)
Theorem foreign_error_rethrown {W T} `{Runtime W} :
  (forall (fn : Async W T) (options : RetryOptions) (fuel : nat) (attempt : Z)
          (lastError : option BearWatchError) (w : W) (error : Thrown) (w1 : W),
      attempt <= maxRetries options ->
      fn w = (Threw error, w1) ->
      instanceof_BearWatchError error = false ->
      withRetry_loop fn options (S fuel) attempt lastError w
      = Some (Threw error, w1, [Attempt (Threw error)]))
  /\ (forall (fn : Async W T) (options : RetryOptions) (w : W)
             (final : Completion T) (w' : W) (events before after : list (Event T))
             (error : Thrown),
        withRetry fn options w = Some (final, w', events) ->
        events = (before ++ Attempt (Threw error) :: after)%list ->
        instanceof_BearWatchError error = false ->
        after = [] /\ final = Threw error)
  /\ (forall (config : Config.ResolvedConfig) (path : string)
             (options : RequestOptions) (w : W) (error : Thrown)
             (reason : option string) (w' : W),
        rejects config path options w error reason w' ->
        instanceof_BearWatchError error = false ->
        (forall e, error = ThrownError e -> err_name e = "AbortError" ->
                   reason <> Some "timeout" ->
                   executeRequest config path options w = (Threw error, w'))
        /\ ((exists b,
               executeRequest config path options w
               = (Threw (ThrownBearWatch b), w')
               /\ code b = TIMEOUT)
            <-> (exists e, error = ThrownError e /\ err_name e = "AbortError"
                           /\ reason = Some "timeout"))).
Proof.
  split; [|split].
  - intros fn options fuel attempt lastError w error w1 Hle Hfn Hforeign.
    apply withRetry_loop_stops; [exact Hle | exact Hfn |].
    destruct error; [discriminate | exact I | exact I].
  - intros fn options w final w' events before after error Hrun Hev Hforeign.
    destruct (Z.leb_spec 0 (maxRetries options)) as [Hmax | Hneg].
    + destruct (withRetry_loop_shape fn options _ _ _ _ _ _ _ Hrun Hmax)
        as [(retried & Hshape & Hall) _].
      rewrite Hev in Hshape.
      destruct (last_event_unique _ _ _ _ _ Hshape) as [[-> Hlast] | Hin].
      * split; [reflexivity|]. now injection Hlast as <-.
      * rewrite Forall_forall in Hall. destruct (Hall _ Hin) as (e & He & _).
        injection He as ->. discriminate.
    + unfold withRetry in Hrun. simpl in Hrun.
      destruct (Z.leb_spec 0 (maxRetries options)) as [Hmax | _]; [lia|].
      injection Hrun as _ _ <-. now destruct before.
  - intros config path options w error reason w' Hrej Hforeign.
    rewrite (executeRequest_rejected config path options w error reason w' Hrej).
    split.
    + intros e -> Hname Hreason.
      now rewrite (on_catch_user_abort config options reason e Hname Hreason).
    + rewrite <- (on_catch_timeout_iff config options reason error Hforeign).
      split; intros (b & Hb & Hcode); exists b; split; try assumption.
      * now injection Hb.
      * now rewrite Hb.
Qed.

Lemma foreign_error_rethrown_witness :
  let cancelled := ThrownError abort_error in
  let fn := @executeRequest _ host_cancelled config heartbeat post in
  let timed := @executeRequest _ host_timed_out config heartbeat post in
  ((0 <= maxRetries policy
    /\ fn Scripted.start = (Threw cancelled, after_one_call)
    /\ instanceof_BearWatchError cancelled = false)
   /\ @withRetry _ _ host_cancelled fn policy Scripted.start
      = Some (Threw cancelled, after_one_call, [Attempt (Threw cancelled)]))
  /\ ((@rejects _ host_cancelled config heartbeat post Scripted.start
         cancelled None after_one_call
       /\ err_name abort_error = "AbortError"
       /\ None <> Some "timeout")
      /\ fn Scripted.start = (Threw cancelled, after_one_call))
  /\ ((@rejects _ host_timed_out config heartbeat post Scripted.start
         cancelled (Some "timeout") after_one_call)
      /\ exists b, timed Scripted.start
                   = (Threw (ThrownBearWatch b), after_one_call)
                   /\ code b = TIMEOUT).
Proof.
  intros cancelled fn timed.
  assert (Hmax : 0 <= maxRetries policy) by (simpl; lia).
  assert (Hfn : fn Scripted.start = (Threw cancelled, after_one_call))
    by reflexivity.
  assert (Hforeign : instanceof_BearWatchError cancelled = false)
    by reflexivity.
  assert (Hrej : @rejects _ host_cancelled config heartbeat post Scripted.start
                   cancelled None after_one_call)
    by (eexists; repeat split; reflexivity).
  assert (Hname : err_name abort_error = "AbortError") by reflexivity.
  assert (Hreason : @None string <> Some "timeout") by discriminate.
  assert (Htimed : @rejects _ host_timed_out config heartbeat post
                     Scripted.start cancelled (Some "timeout") after_one_call)
    by (eexists; repeat split; reflexivity).
  split; [split|split; split].
  - split; [exact Hmax|]. split; [exact Hfn | exact Hforeign].
  - exact (proj1 (@foreign_error_rethrown _ JSValue host_cancelled)
             fn policy _ 0 None Scripted.start cancelled after_one_call
             Hmax Hfn Hforeign).
  - split; [exact Hrej|]. split; [exact Hname | exact Hreason].
  - exact (proj1 (proj2 (proj2 (@foreign_error_rethrown _ JSValue host_cancelled))
                    config heartbeat post Scripted.start cancelled None
                    after_one_call Hrej Hforeign)
             abort_error eq_refl Hname Hreason).
  - exact Htimed.
  - exact (proj2 (proj2 (proj2 (proj2
             (@foreign_error_rethrown _ JSValue host_timed_out))
             config heartbeat post Scripted.start cancelled (Some "timeout")
             after_one_call Htimed Hforeign))
             (ex_intro _ abort_error (conj eq_refl (conj Hname eq_refl)))).
Defined.

End LoopFacts.


(** ** The wrapped job *)
Module WrapFacts.
Import Errors Host Examples.

Lemma request_total {W} `{Runtime W}
    (config : Config.ResolvedConfig) (path : string)
    (options : HttpClient.RequestOptions) (w : W) :
  exists ended, HttpClient.request config path options w = Some ended.
Proof.
  unfold HttpClient.request.
  destruct (HttpClient.retry options) as [[|]|]; eauto;
    match goal with
    | |- context [Retry.withRetry ?fn ?policy w] =>
        destruct (LoopFacts.withRetry_total fn policy w)
          as [[[final w'] events] Hrun];
        rewrite Hrun; eauto
    end.
Qed.

(** C9. If the function passed to [wrap] throws [E], [wrap] throws
    exactly [E], whatever the FAILED report does: the report is made (the
    world moves on as it leaves it) and its outcome, error or not, is
    dropped. *)
Theorem wrap_rethrows_original {W T} `{Runtime W}
    (http : BearWatch.HttpClient W) (jobId : string) (fn : Async W T)
    (options : option BearWatch.WrapOptions) (w : W) (E : Thrown) (w1 : W) :
  fn w = (Threw E, w1) ->
  forall reported w2,
    BearWatch.report_failure http jobId options (Date_now w) E w1
    = (reported, w2) ->
    BearWatch.wrap http jobId fn options w = (Threw E, w2).
Proof.
  intros Hfn reported w2 Hreport. unfold BearWatch.wrap.
  now rewrite Hfn, Hreport.
Qed.

Lemma wrap_rethrows_original_witness :
  let http := @BearWatch.createHttpClient _ host_offline config_no_retry in
  exists b,
    (failing_job Scripted.start = (Threw business_error, Scripted.start)
     /\ @BearWatch.report_failure _ host_offline http "my-job" None
          (@Date_now _ host_offline Scripted.start) business_error
          Scripted.start
        = (Threw (ThrownBearWatch b), after_one_call))
    /\ code b = NETWORK_ERROR
    /\ @BearWatch.wrap _ _ host_offline http "my-job" failing_job None
         Scripted.start
       = (Threw business_error, after_one_call).
Proof.
  intros http. eexists.
  assert (Hfn : failing_job Scripted.start
                = (Threw business_error, Scripted.start)) by reflexivity.
  assert (Hreport : @BearWatch.report_failure _ host_offline http "my-job" None
                      (@Date_now _ host_offline Scripted.start) business_error
                      Scripted.start
                    = (Threw (ThrownBearWatch _), after_one_call))
    by (vm_compute; reflexivity).
  split; [split; [exact Hfn | exact Hreport]|].
  split; [reflexivity|].
  exact (@wrap_rethrows_original _ _ host_offline http "my-job" failing_job
           None Scripted.start business_error Scripted.start Hfn _ _ Hreport).
Defined.

End WrapFacts.


(** * Further properties of the code *)

(** ** More on the retry loop *)
Module LoopExtras.
Import Errors Host Retry HttpClient Examples.

Section Invariants.
Context {W T : Type} `{Runtime W}.
Variable fn : Async W T.
Variable options : RetryOptions.

(** A property of the events of a run holds as soon as it holds of a
    run of one attempt and is kept by putting a retried failure and its
    sleep in front. *)
Lemma withRetry_loop_events (P : Z -> list (Event T) -> Prop) :
  (forall attempt outcome,
      attempt <= maxRetries options -> P attempt [Attempt outcome]) ->
  (forall attempt w e w1 delay w2 events,
      attempt < maxRetries options ->
      fn w = (Threw (ThrownBearWatch e), w1) ->
      isRetryable e = true ->
      retry_delay e attempt options w1 = (delay, w2) ->
      P (attempt + 1) events ->
      P attempt (Attempt (Threw (ThrownBearWatch e)) :: Sleep delay :: events)) ->
  forall fuel attempt lastError w final w' events,
    withRetry_loop fn options fuel attempt lastError w = Some (final, w', events) ->
    attempt <= maxRetries options ->
    P attempt events.
Proof.
  intros Hone Hstep.
  induction fuel as [|fuel IH]; intros attempt lastError w final w' events Hrun Hle;
    [discriminate|].
  simpl in Hrun.
  destruct (Z.leb_spec attempt (maxRetries options)) as [_ | Hgt]; [|lia].
  destruct (fn w) as [[v | [e | e | v]] w1] eqn:Hfn;
    try (injection Hrun as _ _ <-; now apply Hone).
  destruct (isRetryable e) eqn:Hretry; simpl in Hrun;
    [|injection Hrun as _ _ <-; now apply Hone].
  destruct (Z.geb_spec attempt (maxRetries options)) as [Hge | Hlt];
    [injection Hrun as _ _ <-; now apply Hone|].
  destruct (retry_delay e attempt options w1) as [delay w2] eqn:Hdelay.
  destruct (withRetry_loop fn options fuel (attempt + 1) (Some e) (sleep delay w2))
    as [[[final' w3] events']|] eqn:Hrec; [|discriminate].
  injection Hrun as _ _ <-.
  apply (Hstep attempt w e w1 delay w2 events' Hlt Hfn Hretry Hdelay).
  apply (IH _ _ _ _ _ _ Hrec). lia.
Qed.

End Invariants.

Lemma withRetry_skipped {W T} `{Runtime W}
    (fn : Async W T) (options : RetryOptions) (w : W) :
  maxRetries options < 0 ->
  withRetry fn options w = Some (Threw (ThrownValue JUndefined), w, []).
Proof.
  intros Hneg. unfold withRetry, withRetry_fuel. simpl.
  destruct (Z.leb_spec 0 (maxRetries options)) as [Hle | _]; [lia | reflexivity].
Qed.

(** A retry budget below zero: the loop body never runs, the attempt
    function is not called, and the [throw lastError] after the loop
    throws [undefined]; a request with retries enabled then fails
    without contacting the server. *)
Theorem withRetry_negative_budget {W} `{Runtime W}
    (config : Config.ResolvedConfig) (path : string)
    (options : RequestOptions) (w : W) :
  Config.maxRetries config < 0 ->
  retry options <> Some false ->
  withRetry (executeRequest config path options)
    {| maxRetries := Config.maxRetries config;
       baseDelay := Config.retryDelay config |} w
  = Some (Threw (ThrownValue JUndefined), w, [])
  /\ request config path options w = Some (Threw (ThrownValue JUndefined), w).
Proof.
  intros Hneg Hretry.
  assert (Hrun := withRetry_skipped (executeRequest config path options)
                    {| maxRetries := Config.maxRetries config;
                       baseDelay := Config.retryDelay config |} w Hneg).
  split; [exact Hrun|].
  unfold request. rewrite Hrun.
  destruct (retry options) as [[|]|]; try reflexivity. now contradiction Hretry.
Qed.

Lemma withRetry_negative_budget_witness :
  let broken := {| Config.apiKey := "test-key";
                   Config.baseUrl := "https://api.bearwatch.dev";
                   Config.timeout := 30000;
                   Config.maxRetries := -1;
                   Config.retryDelay := 500 |} in
  (Config.maxRetries broken < 0 /\ retry post <> Some false)
  /\ @request _ host_accepted broken heartbeat post Scripted.start
     = Some (Threw (ThrownValue JUndefined), Scripted.start).
Proof.
  intros broken.
  assert (Hneg : Config.maxRetries broken < 0) by (simpl; lia).
  assert (Hretry : retry post <> Some false) by discriminate.
  split; [split; assumption|].
  exact (proj2 (@withRetry_negative_budget _ host_accepted broken heartbeat post
                  Scripted.start Hneg Hretry)).
Defined.

(** With a non-negative budget the events of a run are paced: an
    attempt, then sleep and attempt in turn; so there is exactly one
    sleep between two attempts and none after the last. *)
Theorem withRetry_well_paced {W T} `{Runtime W}
    (fn : Async W T) (options : RetryOptions) (w : W) :
  0 <= maxRetries options ->
  exists final w' events,
    withRetry fn options w = Some (final, w', events)
    /\ well_paced events = true
    /\ attempts events = S (sleeps events).
Proof.
  intros Hmax.
  destruct (LoopFacts.withRetry_total fn options w) as [[[final w'] events] Hrun].
  exists final, w', events. split; [exact Hrun|].
  refine (withRetry_loop_events fn options
            (fun _ evs => well_paced evs = true /\ attempts evs = S (sleeps evs))
            _ _ _ _ _ _ _ _ _ Hrun Hmax).
  - intros attempt outcome _. now split.
  - intros attempt w0 e w1 delay w2 evs _ _ _ _ [Hpaced Hcount].
    split; [exact Hpaced|].
    unfold attempts, sleeps in *. simpl. now rewrite Hcount.
Qed.

Lemma withRetry_well_paced_witness :
  let fn := @executeRequest _ host_bad_gateway config heartbeat post in
  0 <= maxRetries policy
  /\ exists final w' events,
       @withRetry _ _ host_bad_gateway fn policy Scripted.start
       = Some (final, w', events)
       /\ well_paced events = true
       /\ attempts events = S (sleeps events).
Proof.
  intros fn.
  assert (Hmax : 0 <= maxRetries policy) by (simpl; lia).
  split; [exact Hmax|].
  exact (@withRetry_well_paced _ _ host_bad_gateway fn policy Scripted.start Hmax).
Defined.

(** *** How long the loop sleeps *)

Lemma parseRetryAfter_nonneg {W} `{Runtime W}
    (retryAfter : option string) (w : W) (ms : Z) :
  parseRetryAfter retryAfter w = Some ms -> 0 <= ms.
Proof.
  destruct retryAfter as [[|c rest]|]; try discriminate.
  unfold parseRetryAfter.
  destruct (parseInt10 (String c rest)) as [seconds|];
    [destruct (Z.geb_spec seconds 0)|];
    try (destruct (Date_parse (String c rest)); [|discriminate]);
    intros Heq; injection Heq as <-; try lia.
  apply RetryAfterFacts.of_Z_nonneg. lia.
Qed.

Lemma jittered_nonneg (attempt baseDelay : Z) (jitter : Q) :
  0 <= baseDelay -> (0 <= jitter)%Q -> 0 <= jittered attempt baseDelay jitter.
Proof.
  intros Hb Hj. unfold jittered. rewrite <- (Qfloor_Z 0).
  apply Qfloor_resp_le, DoubleFacts.nearest_nonneg.
  apply Qmult_le_0_compat; [| exact Hj].
  apply DoubleFacts.nearest_nonneg. apply Qmult_le_0_compat.
  - change 0%Q with (inject_Z 0). now rewrite <- Zle_Qle.
  - apply Qpower_0_le. discriminate.
Qed.

Lemma nearest_one_half : (Double.nearest (1 # 2) == 1 # 2)%Q.
Proof. vm_compute. reflexivity. Qed.

Lemma nearest_one : (Double.nearest 1 == 1)%Q.
Proof. vm_compute. reflexivity. Qed.

(** Half of a draw from [[0, 1]], rounded, lies in [[0, 1/2]]. *)
Lemma half_draw_range (r : Q) :
  (0 <= r)%Q -> (r <= 1)%Q ->
  (0 <= Double.nearest (r * (1 # 2)))%Q
  /\ (Double.nearest (r * (1 # 2)) <= 1 # 2)%Q.
Proof.
  intros H0 H1. split.
  - apply DoubleFacts.nearest_nonneg.
    apply Qmult_le_0_compat; [exact H0 | discriminate].
  - apply Qle_trans with (Double.nearest (1 # 2));
      [| apply DoubleFacts.Qeq_le, nearest_one_half].
    apply DoubleFacts.nearest_le.
    apply (Qle_trans _ (1 * (1 # 2))); [| apply Qle_refl].
    apply Qmult_le_compat_r; [exact H1 | discriminate].
Qed.

Lemma jitter_of_range (r : Q) :
  (0 <= r)%Q -> (r <= 1)%Q -> (1 # 2 <= jitter_of r)%Q /\ (jitter_of r <= 1)%Q.
Proof.
  intros H0 H1. unfold jitter_of.
  destruct (half_draw_range r H0 H1) as [Hlo Hhi]. split.
  - apply Qle_trans with (Double.nearest (1 # 2));
      [apply DoubleFacts.Qeq_le; symmetry; apply nearest_one_half |].
    apply DoubleFacts.nearest_le.
    apply (Qle_trans _ ((1 # 2) + 0)); [discriminate |].
    apply Qplus_le_r. exact Hlo.
  - apply Qle_trans with (Double.nearest 1);
      [| apply DoubleFacts.Qeq_le, nearest_one].
    apply DoubleFacts.nearest_le.
    apply (Qle_trans _ ((1 # 2) + (1 # 2))); [| vm_compute; discriminate].
    apply Qplus_le_r. exact Hhi.
Qed.

Lemma jitter_of_nonneg (r : Q) : (0 <= r)%Q -> (0 <= jitter_of r)%Q.
Proof.
  intros H0. unfold jitter_of. apply DoubleFacts.nearest_nonneg.
  apply (Qle_trans _ ((1 # 2) + 0)); [discriminate |].
  apply Qplus_le_r. apply DoubleFacts.nearest_nonneg.
  apply Qmult_le_0_compat; [exact H0 | discriminate].
Qed.

Lemma retry_delay_other {W} `{Runtime W}
    (e : BearWatchError) (attempt : Z) (options : RetryOptions) (w : W) :
  code e <> RATE_LIMITED ->
  retry_delay e attempt options w
  = calculateBackoffDelay attempt (baseDelay options) w.
Proof.
  intros Hcode. unfold retry_delay, ErrorCode_eqb.
  destruct (ErrorCode_eq_dec (code e) RATE_LIMITED); [contradiction | reflexivity].
Qed.

Lemma retry_delay_nonneg {W} `{Runtime W}
    (e : BearWatchError) (attempt : Z) (options : RetryOptions)
    (w : W) (delay : Z) (w2 : W) :
  0 <= baseDelay options ->
  (forall w0, (0 <= fst (Math_random w0))%Q) ->
  retry_delay e attempt options w = (delay, w2) ->
  0 <= delay.
Proof.
  intros Hbase Hrandom.
  assert (Hbackoff : forall d w', calculateBackoffDelay attempt (baseDelay options) w
                                  = (d, w') -> 0 <= d).
  { unfold calculateBackoffDelay. intros d w'.
    pose proof (Hrandom w) as Hr. destruct (Math_random w) as [r w0].
    intros Heq. injection Heq as <- _. apply jittered_nonneg; [exact Hbase|].
    simpl in Hr. apply jitter_of_nonneg. exact Hr. }
  unfold retry_delay. destruct (ErrorCode_eqb (code e) RATE_LIMITED).
  - destruct (parseRetryAfter (retryAfter e) w) as [hint|] eqn:Hhint.
    + intros Heq. injection Heq as <- _.
      exact (parseRetryAfter_nonneg _ _ _ Hhint).
    + apply Hbackoff.
  - apply Hbackoff.
Qed.

(** The loop never sleeps a negative time: a retry hint in the past
    counts as zero, and the backoff of a non-negative [baseDelay] is
    non-negative. *)
Theorem sleeps_never_negative {W T} `{Runtime W}
    (fn : Async W T) (options : RetryOptions) (w : W)
    (final : Completion T) (w' : W) (events : list (Event T)) :
  0 <= baseDelay options ->
  (forall w0, (0 <= fst (Math_random w0))%Q) ->
  withRetry fn options w = Some (final, w', events) ->
  Forall (fun ev => match ev with
                    | Sleep ms => 0 <= ms
                    | Attempt _ => True
                    end) events.
Proof.
  intros Hbase Hrandom Hrun.
  set (nonneg := fun ev : Event T => match ev with
                                     | Sleep ms => 0 <= ms
                                     | Attempt _ => True
                                     end).
  destruct (Z.leb_spec 0 (maxRetries options)) as [Hmax | Hneg].
  - refine (withRetry_loop_events fn options (fun _ evs => Forall nonneg evs)
              _ _ _ _ _ _ _ _ _ Hrun Hmax).
    + intros attempt outcome _. now repeat constructor.
    + intros attempt w0 e w1 delay w2 evs _ _ _ Hdelay Hall.
      constructor; [exact I|]. constructor; [|exact Hall].
      exact (retry_delay_nonneg e attempt options w1 delay w2 Hbase Hrandom Hdelay).
  - rewrite (withRetry_skipped fn options w Hneg) in Hrun.
    injection Hrun as _ _ <-. constructor.
Qed.

Lemma sleeps_never_negative_witness :
  let fn := @executeRequest _ host_rate_limited config heartbeat post in
  (0 <= baseDelay policy
   /\ forall w0, (0 <= fst (@Math_random _ host_rate_limited w0))%Q)
  /\ exists final w' events,
       @withRetry _ _ host_rate_limited fn policy Scripted.start
       = Some (final, w', events)
       /\ Forall (fun ev => match ev with
                            | Sleep ms => 0 <= ms
                            | Attempt _ => True
                            end) events.
Proof.
  intros fn.
  assert (Hbase : 0 <= baseDelay policy) by (simpl; lia).
  assert (Hrandom : forall w0, (0 <= fst (@Math_random _ host_rate_limited w0))%Q)
    by (intros w0; simpl; discriminate).
  split; [split; assumption|].
  destruct (@LoopFacts.withRetry_total _ _ host_rate_limited fn policy
              Scripted.start) as [[[final w'] events] Hrun].
  exists final, w', events. split; [exact Hrun|].
  exact (@sleeps_never_negative _ _ host_rate_limited fn policy Scripted.start
           final w' events Hbase Hrandom Hrun).
Defined.

Lemma calculateBackoffDelay_upper {W} `{Runtime W}
    (attempt baseDelay : Z) (w : W) (delay : Z) (w' : W) :
  0 <= attempt -> 0 < baseDelay -> Double.exact baseDelay ->
  (forall w0, (0 <= fst (Math_random w0))%Q /\ (fst (Math_random w0) <= 1)%Q) ->
  calculateBackoffDelay attempt baseDelay w = (delay, w') ->
  delay <= baseDelay * 2 ^ attempt.
Proof.
  intros Ha Hb Hexact Hrandom. unfold calculateBackoffDelay.
  pose proof (Hrandom w) as [Hr0 Hr1]. destruct (Math_random w) as [r w0].
  simpl in Hr0, Hr1. intros Heq. injection Heq as <- _.
  destruct (jitter_of_range r Hr0 Hr1) as [Hlo Hhi].
  exact (proj2 (BackoffFacts.jittered_bounds attempt baseDelay (jitter_of r)
                  Ha Hb Hexact Hlo Hhi)).
Qed.

(** From index [attempt] on, the backoff sleeps add up to at most
    [baseDelay * (2^maxRetries - 2^attempt)]. *)
Lemma total_sleep_from {W T} `{Runtime W}
    (fn : Async W T) (options : RetryOptions) (fuel : nat) (attempt : Z)
    (lastError : option BearWatchError) (w : W)
    (final : Completion T) (w' : W) (events : list (Event T)) :
  0 <= attempt <= maxRetries options -> 0 < baseDelay options ->
  Double.exact (baseDelay options) ->
  (forall w0, (0 <= fst (Math_random w0))%Q /\ (fst (Math_random w0) <= 1)%Q) ->
  (forall w0 e w1, fn w0 = (Threw (ThrownBearWatch e), w1) ->
                   code e <> RATE_LIMITED) ->
  withRetry_loop fn options fuel attempt lastError w = Some (final, w', events) ->
  total_sleep events
  <= baseDelay options * (2 ^ maxRetries options - 2 ^ attempt).
Proof.
  intros [Ha Hle] Hbase Hexact Hrandom Hnever Hrun. revert Ha.
  refine (withRetry_loop_events fn options
            (fun attempt evs =>
               0 <= attempt ->
               total_sleep evs
               <= baseDelay options * (2 ^ maxRetries options - 2 ^ attempt))
            _ _ _ _ _ _ _ _ _ Hrun Hle).
  - intros a outcome Hmax Ha. simpl.
    pose proof (Z.pow_le_mono_r 2 a (maxRetries options)). nia.
  - intros a w0 e w1 delay w2 evs Hlt Hfn _ Hdelay IH Ha. simpl.
    rewrite (retry_delay_other e a options w1 (Hnever w0 e w1 Hfn))
      in Hdelay.
    pose proof (calculateBackoffDelay_upper a (baseDelay options) w1
                  delay w2 Ha Hbase Hexact Hrandom Hdelay) as Hupper.
    specialize (IH ltac:(lia)).
    rewrite Z.pow_add_r in IH by lia. change (2 ^ 1) with 2 in IH. nia.
Qed.

(** As long as no attempt fails with RATE_LIMITED, the sleeps of a run
    add up to at most [baseDelay * (2^maxRetries - 1)]: the server can
    lengthen the waiting only through a rate-limit hint.  [baseDelay]
    is an integer that is a double, as every number of the code is (one
    that is not would be rounded when it is read, possibly upwards),
    and the largest exponential delay, [baseDelay * 2^maxRetries], is
    below [2^1024], so that every delay of the run is finite. *)
Theorem total_sleep_bounded {W T} `{Runtime W}
    (fn : Async W T) (options : RetryOptions) (w : W)
    (final : Completion T) (w' : W) (events : list (Event T)) :
  0 <= maxRetries options -> 0 < baseDelay options ->
  Double.exact (baseDelay options) ->
  baseDelay options * 2 ^ maxRetries options < 2 ^ 1024 ->
  (forall w0, (0 <= fst (Math_random w0))%Q /\ (fst (Math_random w0) <= 1)%Q) ->
  (forall w0 e w1, fn w0 = (Threw (ThrownBearWatch e), w1) ->
                   code e <> RATE_LIMITED) ->
  withRetry fn options w = Some (final, w', events) ->
  total_sleep events <= baseDelay options * (2 ^ maxRetries options - 1).
Proof.
  intros Hmax Hbase Hexact Hfinite Hrandom Hnever Hrun. unfold withRetry in Hrun.
  assert (Hstart : 0 <= 0 <= maxRetries options) by lia.
  pose proof (total_sleep_from fn options _ 0 None w final w' events
                Hstart Hbase Hexact Hrandom Hnever Hrun) as Hbound.
  now change (2 ^ 0) with 1 in Hbound.
Qed.

Lemma total_sleep_bounded_witness :
  let fn := @executeRequest _ host_bad_gateway config heartbeat post in
  (0 <= maxRetries policy /\ 0 < baseDelay policy
   /\ Double.exact (baseDelay policy)
   /\ baseDelay policy * 2 ^ maxRetries policy < 2 ^ 1024
   /\ (forall w0, (0 <= fst (@Math_random _ host_bad_gateway w0))%Q
                  /\ (fst (@Math_random _ host_bad_gateway w0) <= 1)%Q)
   /\ (forall w0 e w1, fn w0 = (Threw (ThrownBearWatch e), w1) ->
                       code e <> RATE_LIMITED))
  /\ exists final w' events,
       @withRetry _ _ host_bad_gateway fn policy Scripted.start
       = Some (final, w', events)
       /\ total_sleep events <= 500 * (2 ^ 3 - 1).
Proof.
  intros fn.
  assert (Hmax : 0 <= maxRetries policy) by (simpl; lia).
  assert (Hbase : 0 < baseDelay policy) by (simpl; lia).
  assert (Hexact : Double.exact (baseDelay policy)) by (vm_compute; reflexivity).
  assert (Hfinite : baseDelay policy * 2 ^ maxRetries policy < 2 ^ 1024)
    by (vm_compute; reflexivity).
  assert (Hrandom : forall w0,
             (0 <= fst (@Math_random _ host_bad_gateway w0))%Q
             /\ (fst (@Math_random _ host_bad_gateway w0) <= 1)%Q)
    by (intros w0; split; simpl; discriminate).
  assert (Hnever : forall w0 e w1,
             fn w0 = (Threw (ThrownBearWatch e), w1) -> code e <> RATE_LIMITED).
  { intros [c n] e w1 Heq. vm_compute in Heq. injection Heq as <- _.
    discriminate. }
  split; [repeat split; try assumption; apply Hrandom|].
  destruct (@LoopFacts.withRetry_total _ _ host_bad_gateway fn policy
              Scripted.start) as [[[final w'] events] Hrun].
  exists final, w', events. split; [exact Hrun|].
  exact (@total_sleep_bounded _ _ host_bad_gateway fn policy Scripted.start
           final w' events Hmax Hbase Hexact Hfinite Hrandom Hnever Hrun).
Defined.

End LoopExtras.


(** ** More on the classification of one attempt *)
Module ClassifierExtras.
Import Errors Host Retry HttpClient Examples.

(** Case analysis along the tests of [on_response]. *)
Ltac on_response_cases response :=
  unfold on_response;
  destruct (ok response) eqn:Hok; simpl negb; cbv iota;
  [ destruct (isJson response) eqn:Hjson; simpl negb; cbv iota;
    [ destruct (JSON_parse (text response)) as [data|] eqn:Hparse;
      [ destruct (js_nullish data) eqn:Hnull;
        [ | destruct (js_get data "success") as [ | |[|]| | | | ] eqn:Hsuccess ]
      | ]
    | ]
  | destruct (status response >=? 500) eqn:Hserver;
    destruct (isJson response) eqn:Hjson; simpl negb; simpl andb; cbv iota;
    try destruct (Z.eqb_spec (status response) 429) as [H429 | H429];
    try destruct (JSON_parse (text response)) as [data|] eqn:Hparse ];
  unfold construct_BearWatchError;
  try match goal with
      | |- context [ToString (envelope_message ?d)] =>
          destruct (ToString (envelope_message d)) as [shown|] eqn:Hshown
      end.

Lemma ok_not_429 (response : Response) :
  ok response = true -> (status response =? 429) = false.
Proof.
  unfold ok. intros Hok. apply andb_true_iff in Hok. destruct Hok as [_ Hhi].
  apply Z.leb_le in Hhi. apply Z.eqb_neq. lia.
Qed.

(** What every typed error built from a response carries: the status,
    the raw body, the caller's context, and no cause. *)
Lemma on_response_typed {W} `{Runtime W}
    (options : RequestOptions) (response : Response) (e : BearWatchError) :
  on_response options response = Threw (ThrownBearWatch e) ->
  statusCode e = Some (status response)
  /\ responseBody e = Some (text response)
  /\ Errors.context e = context options
  /\ cause e = None
  /\ retryAfter e
     = (if status response =? 429 then headers_get response "Retry-After"
        else None).
Proof.
  on_response_cases response; intros Heq;
    try discriminate; injection Heq as <-; simpl;
    try rewrite (ok_not_429 response Hok);
    try (exfalso; rewrite H429 in Hserver; discriminate);
    try rewrite H429; try rewrite Z.eqb_refl;
    try (destruct (Z.eqb_spec (status response) 429); [contradiction|]);
    repeat split; reflexivity.
Qed.

(** The only values other than a typed error that handling a response
    can raise, both of them on an OK response whose JSON body parses:
    the [TypeError] of reading [success] off [null], and the
    [TypeError] of a failure message that does not convert to a
    string. *)
Lemma on_response_untyped {W} `{Runtime W}
    (options : RequestOptions) (response : Response) (t : Thrown) :
  on_response options response = Threw t ->
  instanceof_BearWatchError t = false ->
  ok response = true /\ isJson response = true
  /\ exists data,
       JSON_parse (text response) = Some data
       /\ ((js_nullish data = true
            /\ t = ThrownError (property_read_error "success"))
           \/ (js_nullish data = false
               /\ js_get data "success" = JBool false
               /\ ToString (envelope_message data) = None
               /\ t = ThrownError conversion_error)).
Proof.
  on_response_cases response; intros Heq Hforeign;
    try discriminate; injection Heq as <-; try discriminate Hforeign.
  - repeat split. exists data. split; [reflexivity |]. left. now split.
  - repeat split. exists data. split; [reflexivity |]. right. now repeat split.
Qed.

Lemma on_catch_null_read (config : Config.ResolvedConfig)
    (options : RequestOptions) (reason : option string) :
  on_catch config options reason (ThrownError (property_read_error "success"))
  = ThrownBearWatch
      (new_BearWatchError "Network error" NETWORK_ERROR None None
         (context options) (Some (property_read_error "success"))).
Proof. reflexivity. Qed.

Lemma on_catch_conversion (config : Config.ResolvedConfig)
    (options : RequestOptions) (reason : option string) :
  on_catch config options reason (ThrownError conversion_error)
  = ThrownBearWatch
      (new_BearWatchError "Network error" NETWORK_ERROR None None
         (context options) (Some conversion_error)).
Proof. reflexivity. Qed.

(** Both are reported by the [catch] block as a failure of the
    network. *)
Lemma on_catch_untyped {W} `{Runtime W}
    (config : Config.ResolvedConfig) (options : RequestOptions)
    (response : Response) (reason : option string) (t : Thrown) :
  on_response options response = Threw t ->
  instanceof_BearWatchError t = false ->
  exists native,
    t = ThrownError native
    /\ on_catch config options reason t
       = ThrownBearWatch
           (new_BearWatchError "Network error" NETWORK_ERROR None None
              (context options) (Some native)).
Proof.
  intros Hresp Hforeign.
  destruct (on_response_untyped options response t Hresp Hforeign)
    as (_ & _ & data & _ & [[_ ->] | (_ & _ & _ & ->)]).
  - eexists. split; [reflexivity | apply on_catch_null_read].
  - eexists. split; [reflexivity | apply on_catch_conversion].
Qed.

(** [executeRequest] throws nothing but typed errors, with one
    exception: an [AbortError] that [fetch] rejected with while the
    signal's reason was not the timeout marker, which it throws as it
    is. *)
Theorem executeRequest_throws_typed {W} `{Runtime W}
    (config : Config.ResolvedConfig) (path : string)
    (options : RequestOptions) (w : W) (t : Thrown) (w' : W) :
  executeRequest config path options w = (Threw t, w') ->
  instanceof_BearWatchError t = true
  \/ exists e reason,
       rejects config path options w (ThrownError e) reason w'
       /\ t = ThrownError e
       /\ err_name e = "AbortError"
       /\ reason <> Some "timeout".
Proof.
  destruct (fetch (Config.baseUrl config ++ path) (request_init config options) w)
    as [io w1] eqn:Hfetch.
  rewrite (ClassifierFacts.executeRequest_settled config path options w io w1
             Hfetch).
  destruct (settled io) as [response | t0] eqn:Hsettled.
  - destruct (on_response options response) as [v | t0] eqn:Hresp;
      [discriminate|].
    intros Heq. injection Heq as <- <-. left.
    destruct (instanceof_BearWatchError t0) eqn:Htyped.
    + destruct t0; [reflexivity | discriminate | discriminate].
    + destruct (on_catch_untyped config options response (signal_reason io)
                  t0 Hresp Htyped) as (native & _ & ->).
      reflexivity.
  - intros Heq. injection Heq as <- <-.
    destruct t0 as [b | e | v]; [now left | | now left].
    unfold on_catch.
    destruct (String.eqb_spec (err_name e) "AbortError") as [Hname | _].
    + destruct (signal_reason io) as [r|] eqn:Hreason.
      * destruct (String.eqb_spec r "timeout") as [-> | Hr]; [now left|].
        right. exists e, (Some r). split; [|repeat split; congruence].
        exists io. now repeat split.
      * right. exists e, None. split; [|repeat split; congruence].
        exists io. now repeat split.
    + destruct (err_isTypeError e); now left.
Qed.

Lemma executeRequest_throws_typed_witness :
  (@executeRequest _ host_cancelled config heartbeat post Scripted.start
   = (Threw (ThrownError abort_error), after_one_call))
  /\ (instanceof_BearWatchError (ThrownError abort_error) = true
      \/ exists e reason,
           @rejects _ host_cancelled config heartbeat post Scripted.start
             (ThrownError e) reason after_one_call
           /\ ThrownError abort_error = ThrownError e
           /\ err_name e = "AbortError"
           /\ reason <> Some "timeout").
Proof.
  assert (Hrun : @executeRequest _ host_cancelled config heartbeat post
                   Scripted.start
                 = (Threw (ThrownError abort_error), after_one_call))
    by reflexivity.
  split; [exact Hrun|].
  exact (@executeRequest_throws_typed _ host_cancelled config heartbeat post
           Scripted.start _ after_one_call Hrun).
Defined.

(** Where the typed error of an attempt that got a response comes
    from: the handling of the response, or the [catch] block's report of
    a [TypeError] that the handling raised. *)
Lemma executeRequest_response_error {W} `{Runtime W}
    (config : Config.ResolvedConfig) (path : string)
    (options : RequestOptions) (w : W) (response : Response) (w' : W)
    (e : BearWatchError) :
  receives config path options w response w' ->
  executeRequest config path options w = (Threw (ThrownBearWatch e), w') ->
  on_response options response = Threw (ThrownBearWatch e)
  \/ (exists native,
        on_response options response = Threw (ThrownError native)
        /\ e = new_BearWatchError "Network error" NETWORK_ERROR None None
                 (context options) (Some native)).
Proof.
  intros (io & Hfetch & Hsettled).
  rewrite (ClassifierFacts.executeRequest_settled config path options w io w'
             Hfetch), Hsettled.
  destruct (on_response options response) as [v | t] eqn:Hresp; [discriminate|].
  intros Heq. injection Heq as Heq.
  destruct (instanceof_BearWatchError t) eqn:Htyped.
  - destruct t as [b | |]; try discriminate. simpl in Heq.
    injection Heq as ->. now left.
  - destruct (on_catch_untyped config options response (signal_reason io)
                t Hresp Htyped) as (native & -> & Hcatch).
    rewrite Hcatch in Heq. injection Heq as <-. right. now exists native.
Qed.

(** A typed error thrown after the response and its text were read
    carries the response's status and raw body and the caller's
    context, and a retry hint exactly when the status is 429.  There
    are two exceptions, both on an OK response whose JSON body parses,
    and both a NETWORK_ERROR that carries neither status nor body: the
    body is [null], or it says [success: false] with an error message
    that does not convert to a string. *)
Theorem response_error_carries_status {W} `{Runtime W}
    (config : Config.ResolvedConfig) (path : string)
    (options : RequestOptions) (w : W) (response : Response) (w' : W)
    (e : BearWatchError) :
  receives config path options w response w' ->
  executeRequest config path options w = (Threw (ThrownBearWatch e), w') ->
  (statusCode e = Some (status response)
   /\ responseBody e = Some (text response)
   /\ Errors.context e = context options
   /\ retryAfter e
      = (if status response =? 429 then headers_get response "Retry-After"
         else None))
  \/ (ok response = true /\ isJson response = true
      /\ (exists data,
            JSON_parse (text response) = Some data
            /\ (js_nullish data = true
                \/ (js_get data "success" = JBool false
                    /\ ToString (envelope_message data) = None)))
      /\ code e = NETWORK_ERROR
      /\ statusCode e = None /\ responseBody e = None
      /\ Errors.context e = context options).
Proof.
  intros Hrecv Hrun.
  destruct (executeRequest_response_error config path options w response w' e
              Hrecv Hrun) as [Hresp | (native & Hresp & ->)].
  - left.
    destruct (on_response_typed options response e Hresp)
      as (Hs & Hb & Hc & _ & Hr).
    now repeat split.
  - right.
    destruct (on_response_untyped options response _ Hresp eq_refl)
      as (Hok & Hjson & data & Hparse & Hwhy).
    split; [exact Hok |]. split; [exact Hjson |]. split; [| now repeat split].
    exists data. split; [exact Hparse |].
    destruct Hwhy as [[Hnull _] | (_ & Hsuccess & Hshown & _)];
      [now left | now right].
Qed.

Lemma response_error_carries_status_witness :
  (@receives _ host_rate_limited config heartbeat post Scripted.start
     rate_limited after_one_call)
  /\ exists e,
       @executeRequest _ host_rate_limited config heartbeat post Scripted.start
       = (Threw (ThrownBearWatch e), after_one_call)
       /\ statusCode e = Some 429
       /\ responseBody e = Some "{}"
       /\ retryAfter e = Some "1".
Proof.
  assert (Hrecv : @receives _ host_rate_limited config heartbeat post
                    Scripted.start rate_limited after_one_call)
    by (eexists; split; reflexivity).
  split; [exact Hrecv|]. eexists.
  assert (Hrun : @executeRequest _ host_rate_limited config heartbeat post
                   Scripted.start
                 = (Threw (ThrownBearWatch _), after_one_call)) by reflexivity.
  split; [exact Hrun|].
  destruct (@response_error_carries_status _ host_rate_limited config heartbeat
              post Scripted.start rate_limited after_one_call _ Hrecv Hrun)
    as [(Hs & Hb & _ & Hr) | (_ & _ & _ & Hcode & _)];
    [|discriminate Hcode].
  split; [exact Hs|]. split; [exact Hb | exact Hr].
Defined.

(** The second exception at work: a 200 whose body is
    [{ success: false, error: { message: { toString: 1 } } }].  The
    message is an object with a key [toString] of its own, the
    constructor of the error throws, and the attempt ends in a
    NETWORK_ERROR without status instead of the SERVER_ERROR. *)
Example unprintable_message_is_network_error :
  @ToString _ host_unprintable (envelope_message unprintable_json) = None
  /\ exists e,
       @executeRequest _ host_unprintable config heartbeat post Scripted.start
       = (Threw (ThrownBearWatch e), after_one_call)
       /\ code e = NETWORK_ERROR
       /\ statusCode e = None
       /\ cause e = Some conversion_error.
Proof. split; [reflexivity |]. eexists. split; [reflexivity |]. now repeat split. Qed.

(** A [Retry-After] header is honoured on a 429 only: after any other
    response that fails, the delay before a retry is the exponential
    backoff, whatever headers the response had. *)
Theorem retry_hint_only_on_429 {W} `{Runtime W}
    (config : Config.ResolvedConfig) (path : string)
    (options : RequestOptions) (w : W) (response : Response) (w' : W)
    (e : BearWatchError) (attempt : Z) (policy : RetryOptions) :
  receives config path options w response w' ->
  executeRequest config path options w = (Threw (ThrownBearWatch e), w') ->
  status response <> 429 ->
  retryAfter e = None
  /\ retry_delay e attempt policy w'
     = calculateBackoffDelay attempt (baseDelay policy) w'.
Proof.
  intros Hrecv Hrun Hnot.
  assert (Hnone : retryAfter e = None).
  { destruct (executeRequest_response_error config path options w response w' e
                Hrecv Hrun) as [Hresp | (native & _ & ->)]; [|reflexivity].
    destruct (on_response_typed options response e Hresp) as (_ & _ & _ & _ & Hr).
    rewrite Hr. now destruct (Z.eqb_spec (status response) 429). }
  split; [exact Hnone|].
  unfold retry_delay. rewrite Hnone.
  now destruct (ErrorCode_eqb (code e) RATE_LIMITED).
Qed.

Lemma retry_hint_only_on_429_witness :
  (@receives _ host_unavailable config heartbeat post Scripted.start
     unavailable after_one_call
   /\ status unavailable <> 429
   /\ headers_get unavailable "Retry-After" = Some "120")
  /\ exists e,
       @executeRequest _ host_unavailable config heartbeat post Scripted.start
       = (Threw (ThrownBearWatch e), after_one_call)
       /\ retryAfter e = None
       /\ @retry_delay _ host_unavailable e 0 policy after_one_call
          = (375, after_one_call).
Proof.
  assert (Hrecv : @receives _ host_unavailable config heartbeat post
                    Scripted.start unavailable after_one_call)
    by (eexists; split; reflexivity).
  assert (Hnot : status unavailable <> 429) by (simpl; lia).
  split; [split; [exact Hrecv | split; [exact Hnot | reflexivity]]|].
  eexists.
  assert (Hrun : @executeRequest _ host_unavailable config heartbeat post
                   Scripted.start
                 = (Threw (ThrownBearWatch _), after_one_call)) by reflexivity.
  split; [exact Hrun|].
  destruct (@retry_hint_only_on_429 _ host_unavailable config heartbeat post
              Scripted.start unavailable after_one_call _ 0 policy
              Hrecv Hrun Hnot) as [Hnone Hdelay].
  split; [exact Hnone|]. rewrite Hdelay. reflexivity.
Defined.

(** *** Which errors of an attempt are retried *)

Lemma response_error_code {W} `{Runtime W}
    (options : RequestOptions) (response : Response) (e : BearWatchError) :
  on_response options response = Threw (ThrownBearWatch e) ->
  (status response = 429 -> code e = RATE_LIMITED)
  /\ (500 <= status response -> code e = SERVER_ERROR).
Proof.
  intros Hresp. split.
  - intros H429.
    destruct (LoopFacts.on_response_429 options response H429)
      as (e' & He' & Hcode & _).
    rewrite Hresp in He'. injection He' as <-. exact Hcode.
  - intros Hs.
    destruct (ClassifierFacts.on_response_server options response Hs)
      as (e' & He' & Hcode & _).
    rewrite Hresp in He'. injection He' as <-. exact Hcode.
Qed.

(** For the errors of an attempt that got a response, the verdict
    depends on the code alone: the status list of [isRetryable] never
    makes retryable an error whose code is not. *)
Theorem verdict_by_code {W} `{Runtime W}
    (config : Config.ResolvedConfig) (path : string)
    (options : RequestOptions) (w : W) (response : Response) (w' : W)
    (e : BearWatchError) :
  receives config path options w response w' ->
  executeRequest config path options w = (Threw (ThrownBearWatch e), w') ->
  (isRetryable e = true
   <-> In (code e) [NETWORK_ERROR; TIMEOUT; RATE_LIMITED; SERVER_ERROR]).
Proof.
  intros Hrecv Hrun.
  rewrite RetryableFacts.isRetryable_true_iff. split; [|now right].
  intros [Hlisted | Hcode]; [|exact Hcode].
  apply RetryableFacts.status_listed_In in Hlisted.
  destruct Hlisted as (s & Hs & Hin).
  destruct (executeRequest_response_error config path options w response w' e
              Hrecv Hrun) as [Hresp | (native & _ & ->)]; [|discriminate Hs].
  destruct (on_response_typed options response e Hresp) as (Hstatus & _).
  rewrite Hstatus in Hs. injection Hs as <-.
  destruct (response_error_code options response e Hresp) as [H429 H5xx].
  unfold RETRYABLE_STATUS_CODES in Hin. simpl in Hin.
  destruct Hin as [Hin | Hin].
  - rewrite (H429 (eq_sym Hin)). simpl. tauto.
  - rewrite H5xx by lia. simpl. tauto.
Qed.

Lemma verdict_by_code_witness :
  (@receives _ host_bad_gateway config heartbeat post Scripted.start
     bad_gateway after_one_call)
  /\ exists e,
       @executeRequest _ host_bad_gateway config heartbeat post Scripted.start
       = (Threw (ThrownBearWatch e), after_one_call)
       /\ isRetryable e = true
       /\ In (code e) [NETWORK_ERROR; TIMEOUT; RATE_LIMITED; SERVER_ERROR].
Proof.
  assert (Hrecv : @receives _ host_bad_gateway config heartbeat post
                    Scripted.start bad_gateway after_one_call)
    by (eexists; split; reflexivity).
  split; [exact Hrecv|]. eexists.
  assert (Hrun : @executeRequest _ host_bad_gateway config heartbeat post
                   Scripted.start
                 = (Threw (ThrownBearWatch _), after_one_call)) by reflexivity.
  split; [exact Hrun|]. split; [reflexivity|].
  exact (proj1 (@verdict_by_code _ host_bad_gateway config heartbeat post
                  Scripted.start bad_gateway after_one_call _ Hrecv Hrun)
           eq_refl).
Defined.

Lemma on_response_401_404 {W} `{Runtime W}
    (options : RequestOptions) (response : Response) :
  status response = 401 \/ status response = 404 ->
  exists e,
    on_response options response = Threw (ThrownBearWatch e)
    /\ isRetryable e = false
    /\ In (code e) [INVALID_API_KEY; JOB_NOT_FOUND; INVALID_RESPONSE].
Proof.
  intros [Hs | Hs]; unfold on_response, ok; rewrite Hs; simpl;
    destruct (isJson response); simpl;
    try destruct (JSON_parse (text response));
    eexists; (split; [reflexivity|]); split; try reflexivity; simpl; tauto.
Qed.

(** A 401 or a 404 is never retried, whatever its body and whatever the
    policy: the request makes one attempt and throws an error that is
    not retryable. *)
Theorem unauthorized_or_missing_never_retried {W} `{Runtime W}
    (config : Config.ResolvedConfig) (path : string)
    (options : RequestOptions) (w : W) (response : Response) (w' : W)
    (policy : RetryOptions) :
  receives config path options w response w' ->
  status response = 401 \/ status response = 404 ->
  0 <= maxRetries policy ->
  exists e,
    executeRequest config path options w = (Threw (ThrownBearWatch e), w')
    /\ isRetryable e = false
    /\ In (code e) [INVALID_API_KEY; JOB_NOT_FOUND; INVALID_RESPONSE]
    /\ withRetry (executeRequest config path options) policy w
       = Some (Threw (ThrownBearWatch e), w', [Attempt (Threw (ThrownBearWatch e))]).
Proof.
  intros Hrecv Hs Hmax.
  destruct (on_response_401_404 options response Hs) as (e & Hresp & Hno & Hcode).
  pose proof (ClassifierFacts.executeRequest_typed config path options
                w response w' e Hrecv Hresp) as Hrun.
  exists e. split; [exact Hrun|]. split; [exact Hno|]. split; [exact Hcode|].
  unfold withRetry, withRetry_fuel.
  exact (LoopFacts.withRetry_loop_stops _ policy _ 0 None w _ w' Hmax Hrun
           (or_introl Hno)).
Qed.

Lemma unauthorized_or_missing_never_retried_witness :
  (@receives _ host_not_found_page config heartbeat post Scripted.start
     not_found_page after_one_call
   /\ (status not_found_page = 401 \/ status not_found_page = 404)
   /\ 0 <= maxRetries policy)
  /\ exists e,
       @withRetry _ _ host_not_found_page
         (@executeRequest _ host_not_found_page config heartbeat post)
         policy Scripted.start
       = Some (Threw (ThrownBearWatch e), after_one_call,
               [Attempt (Threw (ThrownBearWatch e))])
       /\ isRetryable e = false.
Proof.
  assert (Hrecv : @receives _ host_not_found_page config heartbeat post
                    Scripted.start not_found_page after_one_call)
    by (eexists; split; reflexivity).
  assert (Hs : status not_found_page = 401 \/ status not_found_page = 404)
    by (right; reflexivity).
  assert (Hmax : 0 <= maxRetries policy) by (simpl; lia).
  split; [split; [exact Hrecv | split; [exact Hs | exact Hmax]]|].
  destruct (@unauthorized_or_missing_never_retried _ host_not_found_page
              config heartbeat post Scripted.start not_found_page
              after_one_call policy Hrecv Hs Hmax)
    as (e & _ & Hno & _ & Hrun).
  exists e. split; [exact Hrun | exact Hno].
Defined.

Lemma code_of_literal_sound (v : JSValue) (c : ErrorCode) :
  code_of_literal v all_codes = Some c -> v = JString (ErrorCode_literal c).
Proof.
  destruct v; try discriminate. simpl.
  repeat match goal with
         | |- context [String.eqb s ?lit] =>
             destruct (String.eqb_spec s lit) as [-> | _];
             [intros Heq; injection Heq as <-; reflexivity|]
         end.
  discriminate.
Qed.

(** Any other client error (not 401, 404 or 429, below 500) with a JSON
    body is retried unless the body's [error.code] names one of the three
    fatal kinds: without a recognised code it counts as SERVER_ERROR. *)
Theorem client_error_verdict {W} `{Runtime W}
    (config : Config.ResolvedConfig) (path : string)
    (options : RequestOptions) (w : W) (response : Response) (w' : W)
    (data : JSValue) :
  receives config path options w response w' ->
  ok response = false -> isJson response = true ->
  JSON_parse (text response) = Some data ->
  status response <> 401 -> status response <> 404 ->
  status response <> 429 -> status response < 500 ->
  let bodyCode := js_get_opt (js_get_opt data "error") "code" in
  exists e,
    executeRequest config path options w = (Threw (ThrownBearWatch e), w')
    /\ (isRetryable e = false
        <-> exists c, In c [INVALID_API_KEY; JOB_NOT_FOUND; INVALID_RESPONSE]
                      /\ bodyCode = JString (ErrorCode_literal c)).
Proof.
  intros Hrecv Hok Hjson Hparse H401 H404 H429 Hlt bodyCode.
  destruct (ClassifierFacts.on_response_json_failure options response data
              Hok Hjson Hparse) as (e & Hresp & Hcode & Hstatus).
  exists e. split.
  { exact (ClassifierFacts.executeRequest_typed config path options
             w response w' e Hrecv Hresp). }
  rewrite (ClassifierFacts.mapStatus_other _ data H401 H404 H429 Hlt) in Hcode.
  fold bodyCode in Hcode.
  assert (Hverdict : isRetryable e = true
                     <-> In (code e) RETRYABLE_ERROR_CODES).
  { rewrite RetryableFacts.isRetryable_true_iff. split; [|now right].
    intros [Hlisted | Hin]; [|exact Hin].
    apply RetryableFacts.status_listed_In in Hlisted.
    destruct Hlisted as (s & Hs & Hin). rewrite Hstatus in Hs.
    injection Hs as <-. unfold RETRYABLE_STATUS_CODES in Hin. simpl in Hin. lia. }
  destruct (code_of_literal bodyCode all_codes) as [c|] eqn:Hlit.
  - apply code_of_literal_sound in Hlit. split.
    + intros Hno. exists c. split; [|exact Hlit].
      destruct (isRetryable e) eqn:Hyes; [discriminate|].
      rewrite <- Hcode. unfold RETRYABLE_ERROR_CODES in Hverdict.
      simpl in Hverdict |- *.
      destruct (code e); try tauto;
        exfalso; assert (false = true) by (apply Hverdict; tauto); discriminate.
    + intros (c' & Hin & Hc'). rewrite Hlit in Hc'. injection Hc' as Heq.
      assert (c = c') by (destruct c, c'; try reflexivity; discriminate Heq).
      subst c'. destruct (isRetryable e) eqn:Hyes; [|reflexivity].
      pose proof (proj1 Hverdict eq_refl) as Hlisted. rewrite Hcode in Hlisted.
      unfold RETRYABLE_ERROR_CODES in Hlisted. simpl in Hin, Hlisted.
      destruct c; intuition discriminate.
  - split.
    + intros Hno. exfalso.
      assert (Hyes : isRetryable e = true).
      { apply Hverdict. rewrite Hcode. unfold RETRYABLE_ERROR_CODES. simpl. tauto. }
      congruence.
    + intros (c' & _ & Hc'). rewrite Hc' in Hlit.
      rewrite ClassifierFacts.code_of_literal_known in Hlit. discriminate.
Qed.

Lemma client_error_verdict_witness :
  (@receives _ host_bad_request config heartbeat post Scripted.start
     bad_request after_one_call
   /\ ok bad_request = false /\ isJson bad_request = true
   /\ @JSON_parse _ host_bad_request (text bad_request) = Some bad_request_json
   /\ status bad_request <> 401 /\ status bad_request <> 404
   /\ status bad_request <> 429 /\ status bad_request < 500)
  /\ exists e,
       @executeRequest _ host_bad_request config heartbeat post Scripted.start
       = (Threw (ThrownBearWatch e), after_one_call)
       /\ (isRetryable e = false
           <-> exists c, In c [INVALID_API_KEY; JOB_NOT_FOUND; INVALID_RESPONSE]
                         /\ js_get_opt (js_get_opt bad_request_json "error") "code"
                            = JString (ErrorCode_literal c)).
Proof.
  assert (Hrecv : @receives _ host_bad_request config heartbeat post
                    Scripted.start bad_request after_one_call)
    by (eexists; split; reflexivity).
  assert (Hok : ok bad_request = false) by reflexivity.
  assert (Hjson : isJson bad_request = true) by reflexivity.
  assert (Hparse : @JSON_parse _ host_bad_request (text bad_request)
                   = Some bad_request_json) by reflexivity.
  assert (H401 : status bad_request <> 401) by (simpl; lia).
  assert (H404 : status bad_request <> 404) by (simpl; lia).
  assert (H429 : status bad_request <> 429) by (simpl; lia).
  assert (Hlt : status bad_request < 500) by (simpl; lia).
  split; [repeat split; assumption|].
  exact (@client_error_verdict _ host_bad_request config heartbeat post
           Scripted.start bad_request after_one_call bad_request_json
           Hrecv Hok Hjson Hparse H401 H404 H429 Hlt).
Defined.

(** A 400 with an ordinary JSON error body uses the whole retry budget:
    four attempts under the default policy. *)
Example bad_request_is_retried :
  option_map
    (fun '(final, _, events) =>
       (match final with
        | Threw (ThrownBearWatch e) => Some (code e, message e)
        | _ => None
        end, attempts events))
    (@withRetry _ _ host_bad_request
       (@executeRequest _ host_bad_request config heartbeat post)
       policy Scripted.start)
  = Some (Some (SERVER_ERROR, "startedAt is required"), 4%nat).
Proof. vm_compute. reflexivity. Qed.

(** A response below 500, other than a 429, that is not the declared
    JSON format (no JSON content type, or a text that does not parse) is
    an INVALID_RESPONSE carrying the status, whether the status is OK or
    not; it is not retried. *)
Theorem invalid_response_not_retried {W} `{Runtime W}
    (config : Config.ResolvedConfig) (path : string)
    (options : RequestOptions) (w : W) (response : Response) (w' : W) :
  receives config path options w response w' ->
  status response < 500 -> status response <> 429 ->
  isJson response = false \/ JSON_parse (text response) = None ->
  exists e,
    executeRequest config path options w = (Threw (ThrownBearWatch e), w')
    /\ code e = INVALID_RESPONSE
    /\ statusCode e = Some (status response)
    /\ isRetryable e = false.
Proof.
  intros Hrecv Hlt H429 Hformat.
  assert (Hresp : exists e,
             on_response options response = Threw (ThrownBearWatch e)
             /\ code e = INVALID_RESPONSE
             /\ statusCode e = Some (status response)).
  { unfold on_response.
    rewrite (RetryAfterFacts.geb_false _ 500 Hlt).
    destruct (Z.eqb_spec (status response) 429) as [|_]; [contradiction|].
    destruct (ok response); simpl;
      destruct Hformat as [Hjson | Hparse];
      try rewrite Hjson; simpl;
      try (destruct (isJson response); simpl);
      try rewrite Hparse;
      eexists; split; try reflexivity; now split. }
  destruct Hresp as (e & Hresp & Hcode & Hstatus).
  exists e. split.
  { exact (ClassifierFacts.executeRequest_typed config path options
             w response w' e Hrecv Hresp). }
  split; [exact Hcode|]. split; [exact Hstatus|].
  destruct (isRetryable e) eqn:Hyes; [exfalso | reflexivity].
  apply RetryableFacts.isRetryable_true_iff in Hyes.
  destruct Hyes as [Hlisted | Hin].
  - apply RetryableFacts.status_listed_In in Hlisted.
    destruct Hlisted as (s & Hs & Hin). rewrite Hstatus in Hs.
    injection Hs as <-. unfold RETRYABLE_STATUS_CODES in Hin. simpl in Hin. lia.
  - rewrite Hcode in Hin. unfold RETRYABLE_ERROR_CODES in Hin. simpl in Hin.
    intuition discriminate.
Qed.

Lemma invalid_response_not_retried_witness :
  (@receives _ host_not_found_page config heartbeat post Scripted.start
     not_found_page after_one_call
   /\ status not_found_page < 500 /\ status not_found_page <> 429
   /\ isJson not_found_page = false)
  /\ exists e,
       @executeRequest _ host_not_found_page config heartbeat post
         Scripted.start
       = (Threw (ThrownBearWatch e), after_one_call)
       /\ code e = INVALID_RESPONSE
       /\ statusCode e = Some 404
       /\ isRetryable e = false.
Proof.
  assert (Hrecv : @receives _ host_not_found_page config heartbeat post
                    Scripted.start not_found_page after_one_call)
    by (eexists; split; reflexivity).
  assert (Hlt : status not_found_page < 500) by (simpl; lia).
  assert (H429 : status not_found_page <> 429) by (simpl; lia).
  assert (Hjson : isJson not_found_page = false) by reflexivity.
  split; [repeat split; assumption|].
  exact (@invalid_response_not_retried _ host_not_found_page config heartbeat
           post Scripted.start not_found_page after_one_call
           Hrecv Hlt H429 (or_introl Hjson)).
Defined.

(** A rejection of [fetch] that is neither a typed error nor an
    [AbortError] becomes a NETWORK_ERROR without status or body, with the
    rejection as its cause when that is an [Error]; it is retryable. *)
Theorem transport_failure_is_network_error {W} `{Runtime W}
    (config : Config.ResolvedConfig) (path : string)
    (options : RequestOptions) (w : W) (error : Thrown)
    (reason : option string) (w' : W) :
  rejects config path options w error reason w' ->
  instanceof_BearWatchError error = false ->
  (forall e, error = ThrownError e -> err_name e <> "AbortError") ->
  exists b,
    executeRequest config path options w = (Threw (ThrownBearWatch b), w')
    /\ code b = NETWORK_ERROR
    /\ statusCode b = None /\ responseBody b = None
    /\ cause b = match error with
                 | ThrownError e => Some e
                 | _ => None
                 end
    /\ message b = match error with
                   | ThrownError e =>
                       if err_isTypeError e then "Network error"
                       else "Unknown error occurred"
                   | _ => "Unknown error occurred"
                   end
    /\ isRetryable b = true.
Proof.
  intros Hrej Hforeign Hnot.
  rewrite (LoopFacts.executeRequest_rejected config path options w error reason
             w' Hrej).
  destruct error as [b0 | e | v]; [discriminate| |].
  - unfold on_catch.
    destruct (String.eqb_spec (err_name e) "AbortError") as [Hname | _];
      [now contradiction (Hnot e eq_refl)|].
    destruct (err_isTypeError e); eexists; (split; [reflexivity|]);
      now repeat split.
  - eexists. split; [reflexivity|]. now repeat split.
Qed.

Lemma transport_failure_is_network_error_witness :
  (@rejects _ host_offline config heartbeat post Scripted.start
     (ThrownError fetch_failed) None after_one_call
   /\ instanceof_BearWatchError (ThrownError fetch_failed) = false
   /\ (forall e, ThrownError fetch_failed = ThrownError e ->
                 err_name e <> "AbortError"))
  /\ exists b,
       @executeRequest _ host_offline config heartbeat post Scripted.start
       = (Threw (ThrownBearWatch b), after_one_call)
       /\ code b = NETWORK_ERROR
       /\ cause b = Some fetch_failed
       /\ message b = "Network error"
       /\ isRetryable b = true.
Proof.
  assert (Hrej : @rejects _ host_offline config heartbeat post Scripted.start
                   (ThrownError fetch_failed) None after_one_call)
    by (eexists; repeat split; reflexivity).
  assert (Hforeign : instanceof_BearWatchError (ThrownError fetch_failed) = false)
    by reflexivity.
  assert (Hnot : forall e, ThrownError fetch_failed = ThrownError e ->
                           err_name e <> "AbortError")
    by (intros e Heq; injection Heq as <-; discriminate).
  split; [split; [exact Hrej | split; [exact Hforeign | exact Hnot]]|].
  destruct (@transport_failure_is_network_error _ host_offline config heartbeat
              post Scripted.start (ThrownError fetch_failed) None
              after_one_call Hrej Hforeign Hnot)
    as (b & Hrun & Hcode & _ & _ & Hcause & Hmsg & Hyes).
  exists b. split; [exact Hrun|]. split; [exact Hcode|].
  split; [exact Hcause|]. split; [exact Hmsg | exact Hyes].
Defined.

(** *** The message of a failed response *)

(** The message of the error thrown for a non-OK response with a parsed
    JSON body, any status but 429: the body's top-level [message] when
    that is a string; otherwise the [message] of its [error] object when
    that is a string; otherwise a default naming the status.  A body that
    is not an object or array contributes nothing. *)
Theorem failure_message {W} `{Runtime W}
    (config : Config.ResolvedConfig) (path : string)
    (options : RequestOptions) (w : W) (response : Response) (w' : W)
    (data : JSValue) :
  receives config path options w response w' ->
  ok response = false -> isJson response = true ->
  JSON_parse (text response) = Some data ->
  status response <> 429 ->
  let fallback := "Request failed with status " ++ string_of_Z (status response) in
  exists e,
    executeRequest config path options w = (Threw (ThrownBearWatch e), w')
    /\ (forall m, is_object data = true ->
                  js_get data "message" = JString m -> message e = m)
    /\ (forall m, is_object data = true ->
                  js_string_of (js_get data "message") = None ->
                  is_object (js_get data "error") = true ->
                  js_get (js_get data "error") "message" = JString m ->
                  message e = m)
    /\ (is_object data = false -> message e = fallback)
    /\ (js_string_of (js_get data "message") = None ->
        js_string_of (js_get_opt (js_get data "error") "message") = None ->
        message e = fallback).
Proof.
  intros Hrecv Hok Hjson Hparse H429 fallback.
  assert (Hresp : exists e,
             on_response options response = Threw (ThrownBearWatch e)
             /\ message e = match getErrorMessage data with
                            | Some m => m
                            | None => fallback
                            end).
  { unfold on_response. rewrite Hok, Hjson, Hparse. simpl negb.
    rewrite andb_false_r. cbv iota.
    destruct (Z.eqb_spec (status response) 429) as [|_]; [contradiction|].
    eexists. split; reflexivity. }
  destruct Hresp as (e & Hresp & Hmsg).
  exists e. split.
  { exact (ClassifierFacts.executeRequest_typed config path options
             w response w' e Hrecv Hresp). }
  rewrite Hmsg. unfold getErrorMessage. repeat split.
  - intros m Hobj Htop. now rewrite Hobj, Htop.
  - intros m Hobj Htop Herr Hnested. now rewrite Hobj, Htop, Herr, Hnested.
  - intros Hobj. now rewrite Hobj.
  - intros Htop Hnested. rewrite Htop.
    destruct (is_object data); [|reflexivity].
    destruct (js_get data "error") as [ | | | | |items|fields] eqn:Herr;
      try reflexivity;
      unfold js_get_opt in Hnested; cbn [js_nullish] in Hnested;
      cbv zeta; cbn [is_object]; now rewrite Hnested.
Qed.

Lemma failure_message_witness :
  (@receives _ host_bad_request config heartbeat post Scripted.start
     bad_request after_one_call
   /\ ok bad_request = false /\ isJson bad_request = true
   /\ @JSON_parse _ host_bad_request (text bad_request) = Some bad_request_json
   /\ status bad_request <> 429
   /\ is_object bad_request_json = true
   /\ js_get bad_request_json "message" = JString "startedAt is required")
  /\ exists e,
       @executeRequest _ host_bad_request config heartbeat post Scripted.start
       = (Threw (ThrownBearWatch e), after_one_call)
       /\ message e = "startedAt is required".
Proof.
  assert (Hrecv : @receives _ host_bad_request config heartbeat post
                    Scripted.start bad_request after_one_call)
    by (eexists; split; reflexivity).
  assert (Hok : ok bad_request = false) by reflexivity.
  assert (Hjson : isJson bad_request = true) by reflexivity.
  assert (Hparse : @JSON_parse _ host_bad_request (text bad_request)
                   = Some bad_request_json) by reflexivity.
  assert (H429 : status bad_request <> 429) by (simpl; lia).
  assert (Hobj : is_object bad_request_json = true) by reflexivity.
  assert (Htop : js_get bad_request_json "message"
                 = JString "startedAt is required") by reflexivity.
  split; [repeat split; assumption|].
  destruct (@failure_message _ host_bad_request config heartbeat post
              Scripted.start bad_request after_one_call bad_request_json
              Hrecv Hok Hjson Hparse H429)
    as (e & Hrun & Hmsg & _).
  exists e. split; [exact Hrun|]. exact (Hmsg _ Hobj Htop).
Defined.

End ClassifierExtras.


(** ** Requests as a whole *)
Module RequestExtras.
Import Errors Host Retry HttpClient Examples.

(** The policy a request runs [withRetry] with. *)
Lemma request_with_retry {W} `{Runtime W}
    (config : Config.ResolvedConfig) (path : string)
    (options : RequestOptions) (w : W)
    (final : Completion JSValue) (w' : W) (events : list (Event JSValue)) :
  retry options <> Some false ->
  withRetry (executeRequest config path options)
    {| maxRetries := Config.maxRetries config;
       baseDelay := Config.retryDelay config |} w
  = Some (final, w', events) ->
  request config path options w = Some (final, w').
Proof.
  intros Hretry Hrun. unfold request. rewrite Hrun.
  destruct (retry options) as [[|]|]; try reflexivity. now contradiction Hretry.
Qed.

(** If the first attempt is cut off by the attempt's own timeout and the
    second one succeeds, a request with at least one retry returns the
    second attempt's payload after exactly two attempts, separated by the
    backoff sleep for attempt 0. *)
Theorem timeout_then_success {W} `{Runtime W}
    (config : Config.ResolvedConfig) (path : string)
    (options : RequestOptions) (w : W) (abort : NativeError) (w1 : W)
    (delay : Z) (w2 : W) (payload : JSValue) (w3 : W) :
  1 <= Config.maxRetries config ->
  retry options <> Some false ->
  rejects config path options w (ThrownError abort) (Some "timeout") w1 ->
  err_name abort = "AbortError" ->
  calculateBackoffDelay 0 (Config.retryDelay config) w1 = (delay, w2) ->
  executeRequest config path options (sleep delay w2) = (Returned payload, w3) ->
  (exists b,
      withRetry (executeRequest config path options)
        {| maxRetries := Config.maxRetries config;
           baseDelay := Config.retryDelay config |} w
      = Some (Returned payload, w3,
              [Attempt (Threw (ThrownBearWatch b)); Sleep delay;
               Attempt (Returned payload)])
      /\ code b = TIMEOUT /\ cause b = Some abort)
  /\ request config path options w = Some (Returned payload, w3).
Proof.
  intros Hmax Hretry Hrej Hname Hdelay Hsecond.
  set (policy := {| maxRetries := Config.maxRetries config;
                    baseDelay := Config.retryDelay config |}).
  set (b := new_BearWatchError
              ("Request timed out after "
                 ++ string_of_Z (Config.timeout config) ++ "ms")
              TIMEOUT None None (context options) (Some abort)).
  assert (Hfirst : executeRequest config path options w
                   = (Threw (ThrownBearWatch b), w1)).
  { rewrite (LoopFacts.executeRequest_rejected config path options w _ _ w1 Hrej).
    unfold on_catch. now rewrite Hname. }
  assert (Hrun : withRetry (executeRequest config path options) policy w
                 = Some (Returned payload, w3,
                         [Attempt (Threw (ThrownBearWatch b)); Sleep delay;
                          Attempt (Returned payload)])).
  { unfold withRetry, withRetry_fuel.
    rewrite (LoopFacts.withRetry_loop_retries _ policy _ 0 None w b w1);
      [|simpl; lia | exact Hfirst | reflexivity].
    replace (retry_delay b 0 policy w1) with (delay, w2)
      by (symmetry; exact Hdelay).
    replace (Z.to_nat (maxRetries policy + 1))
      with (S (Z.to_nat (maxRetries policy))) by (simpl; lia).
    rewrite (LoopFacts.withRetry_loop_stops _ policy _ (0 + 1) (Some b)
               (sleep delay w2) (Returned payload) w3);
      [reflexivity | simpl; lia | exact Hsecond | exact I]. }
  split.
  - exists b. split; [exact Hrun|]. now split.
  - exact (request_with_retry config path options w _ _ _ Hretry Hrun).
Qed.

Lemma timeout_then_success_witness :
  let w2 := after_one_call in
  (1 <= Config.maxRetries config
   /\ retry post <> Some false
   /\ @rejects _ host_slow_start config heartbeat post Scripted.start
        (ThrownError abort_error) (Some "timeout") after_one_call
   /\ err_name abort_error = "AbortError"
   /\ @calculateBackoffDelay _ host_slow_start 0 (Config.retryDelay config)
        after_one_call = (375, w2)
   /\ @executeRequest _ host_slow_start config heartbeat post
        (@sleep _ host_slow_start 375 w2)
      = (Returned (JNumber 7), {| Scripted.clock := 375; Scripted.calls := 2 |}))
  /\ @request _ host_slow_start config heartbeat post Scripted.start
     = Some (Returned (JNumber 7), {| Scripted.clock := 375; Scripted.calls := 2 |}).
Proof.
  intros w2.
  assert (Hmax : 1 <= Config.maxRetries config) by (simpl; lia).
  assert (Hretry : retry post <> Some false) by discriminate.
  assert (Hrej : @rejects _ host_slow_start config heartbeat post Scripted.start
                   (ThrownError abort_error) (Some "timeout") after_one_call)
    by (eexists; repeat split; reflexivity).
  assert (Hname : err_name abort_error = "AbortError") by reflexivity.
  assert (Hdelay : @calculateBackoffDelay _ host_slow_start 0
                     (Config.retryDelay config) after_one_call = (375, w2))
    by reflexivity.
  assert (Hsecond : @executeRequest _ host_slow_start config heartbeat post
                      (@sleep _ host_slow_start 375 w2)
                    = (Returned (JNumber 7),
                       {| Scripted.clock := 375; Scripted.calls := 2 |}))
    by reflexivity.
  split; [repeat split; assumption|].
  exact (proj2 (@timeout_then_success _ host_slow_start config heartbeat post
                  Scripted.start abort_error after_one_call 375 w2 (JNumber 7)
                  _ Hmax Hretry Hrej Hname Hdelay Hsecond)).
Defined.

Lemma request_single_attempt {W} `{Runtime W}
    (config : Config.ResolvedConfig) (path : string)
    (options : RequestOptions) (w : W) :
  Config.maxRetries config = 0 ->
  request config path options w = Some (executeRequest config path options w).
Proof.
  intros Hzero. unfold request.
  destruct (executeRequest config path options w) as [outcome w1] eqn:Hfn.
  destruct (retry options) as [[|]|]; try reflexivity;
    unfold withRetry, withRetry_fuel;
    rewrite (LoopFacts.withRetry_loop_stops
               (executeRequest config path options)
               {| maxRetries := Config.maxRetries config;
                  baseDelay := Config.retryDelay config |}
               _ 0 None w outcome w1);
    try reflexivity; try exact Hfn; simpl; try lia;
    destruct outcome as [v | [e | e | v]]; try exact I; right; lia.
Qed.

(** A client configured with [maxRetries: 0] keeps that zero (it is not
    replaced by the default of 3), and its requests then behave as with
    [retry: false]: one attempt, whose outcome is the request's. *)
Theorem zero_budget_is_no_retry {W} `{Runtime W}
    (user : Config.BearWatchConfig) (path : string)
    (options : RequestOptions) (w : W) :
  Config.given_maxRetries user = Some 0 ->
  let config := Config.resolveConfig user in
  Config.maxRetries config = 0
  /\ request config path options w
     = Some (executeRequest config path options w).
Proof.
  intros Hgiven config.
  assert (Hzero : Config.maxRetries config = 0).
  { unfold config, Config.resolveConfig. simpl. now rewrite Hgiven. }
  split; [exact Hzero|].
  exact (request_single_attempt config path options w Hzero).
Qed.

Lemma zero_budget_is_no_retry_witness :
  let user := {| Config.given_apiKey := "test-key";
                 Config.given_baseUrl := None;
                 Config.given_timeout := None;
                 Config.given_maxRetries := Some 0;
                 Config.given_retryDelay := None |} in
  Config.given_maxRetries user = Some 0
  /\ @request _ host_bad_gateway (Config.resolveConfig user) heartbeat post
       Scripted.start
     = Some (@executeRequest _ host_bad_gateway (Config.resolveConfig user)
               heartbeat post Scripted.start).
Proof.
  intros user.
  assert (Hgiven : Config.given_maxRetries user = Some 0) by reflexivity.
  split; [exact Hgiven|].
  exact (proj2 (@zero_budget_is_no_retry _ host_bad_gateway user heartbeat post
                  Scripted.start Hgiven)).
Defined.

(** A client built without [maxRetries] makes at most four attempts per
    request; if [retryDelay] is left out too and no attempt is rate
    limited, its sleeps add up to at most 3500 ms. *)
Theorem default_budget {W} `{Runtime W}
    (user : Config.BearWatchConfig) (path : string)
    (options : RequestOptions) (w : W) :
  Config.given_maxRetries user = None ->
  let config := Config.resolveConfig user in
  let fn := executeRequest config path options in
  exists final w' events,
    withRetry fn
      {| maxRetries := Config.maxRetries config;
         baseDelay := Config.retryDelay config |} w
    = Some (final, w', events)
    /\ (attempts events <= 4)%nat
    /\ (Config.given_retryDelay user = None ->
        (forall w0, (0 <= fst (Math_random w0))%Q
                    /\ (fst (Math_random w0) <= 1)%Q) ->
        (forall w0 e w1, fn w0 = (Threw (ThrownBearWatch e), w1) ->
                         code e <> RATE_LIMITED) ->
        total_sleep events <= 3500).
Proof.
  intros Hgiven config fn.
  set (policy := {| maxRetries := Config.maxRetries config;
                    baseDelay := Config.retryDelay config |}).
  assert (Hmax : maxRetries policy = 3).
  { unfold policy, config, Config.resolveConfig. simpl. now rewrite Hgiven. }
  destruct (LoopFacts.withRetry_total fn policy w) as [[[final w'] events] Hrun].
  exists final, w', events. split; [exact Hrun|]. split.
  - destruct (LoopFacts.withRetry_loop_shape fn policy _ _ _ _ _ _ _ Hrun)
      as [_ Hcount]; lia.
  - intros Hdelay Hrandom Hnever.
    assert (Hbase : baseDelay policy = 500).
    { unfold policy, config, Config.resolveConfig. simpl. now rewrite Hdelay. }
    pose proof (LoopExtras.total_sleep_from fn policy (withRetry_fuel policy)
                  0 None w final w' events) as Hbound.
    rewrite Hmax, Hbase in Hbound.
    apply Hbound;
      [lia | lia | vm_compute; reflexivity | exact Hrandom | exact Hnever
      | exact Hrun].
Qed.

Lemma default_budget_witness :
  let user := {| Config.given_apiKey := "test-key";
                 Config.given_baseUrl := None;
                 Config.given_timeout := None;
                 Config.given_maxRetries := None;
                 Config.given_retryDelay := None |} in
  let config := Config.resolveConfig user in
  Config.given_maxRetries user = None
  /\ exists final w' events,
       @withRetry _ _ host_bad_gateway
         (@executeRequest _ host_bad_gateway config heartbeat post)
         {| maxRetries := Config.maxRetries config;
            baseDelay := Config.retryDelay config |} Scripted.start
       = Some (final, w', events)
       /\ (attempts events <= 4)%nat.
Proof.
  intros user config.
  assert (Hgiven : Config.given_maxRetries user = None) by reflexivity.
  split; [exact Hgiven|].
  destruct (@default_budget _ host_bad_gateway user heartbeat post
              Scripted.start Hgiven)
    as (final & w' & events & Hrun & Hcount & _).
  exists final, w', events. split; [exact Hrun | exact Hcount].
Defined.

End RequestExtras.

(** ** Pings and wrapped jobs *)
Module BearWatchExtras.
Import Errors Host Examples.
Import BearWatch.

(** A ping given an invalid [Date] throws the [RangeError] of
    [toISOString] and sends nothing: the client is not called and the
    world is as before. *)
Theorem ping_rejects_invalid_date {W} `{Runtime W}
    (http : HttpClient W) (jobId : string) (o : PingOptions) (w : W) :
  completedAt o = Some (ADate None) \/ startedAt o = Some (ADate None) ->
  ping http jobId (Some o) w = (Threw (ThrownError invalid_time_value), w).
Proof.
  intros Hinvalid. unfold ping. simpl.
  destruct (completedAt o) as [[[t|]|s]|];
    destruct (startedAt o) as [[[t'|]|s']|];
    destruct Hinvalid as [Heq | Heq]; try discriminate Heq; reflexivity.
Qed.

Lemma ping_rejects_invalid_date_witness :
  let http := @createHttpClient _ host_accepted config in
  let o := {| status := None; output := None; error := None;
              startedAt := Some (ADate None); completedAt := None;
              metadata := None; retry := None |} in
  (completedAt o = Some (ADate None) \/ startedAt o = Some (ADate None))
  /\ @ping _ host_accepted http "my-job" (Some o) Scripted.start
     = (Threw (ThrownError invalid_time_value), Scripted.start).
Proof.
  intros http o.
  assert (Hinvalid : completedAt o = Some (ADate None)
                     \/ startedAt o = Some (ADate None))
    by (right; reflexivity).
  split; [exact Hinvalid|].
  exact (@ping_rejects_invalid_date _ host_accepted http "my-job" o
           Scripted.start Hinvalid).
Defined.

(** What a ping sends when its dates are valid: one POST to the job's
    heartbeat path, with retries on unless [retry] is [false], whose
    body always has [status] (SUCCESS by default), [completedAt] (now by
    default) and [startedAt] (by default equal to [completedAt]), and has
    [output], [error] and [metadata] exactly when they are given. *)
Theorem ping_request {W} `{Runtime W}
    (http : HttpClient W) (jobId : string) (options : option PingOptions)
    (w : W) :
  ping_option options completedAt <> Some (ADate None) ->
  ping_option options startedAt <> Some (ADate None) ->
  let now := Date_toISOString (Date_now w) in
  let completed :=
    match ping_option options completedAt with
    | Some (ADate (Some t)) => Date_toISOString t
    | Some (AString s) => s
    | _ => now
    end in
  let started :=
    match ping_option options startedAt with
    | Some (ADate (Some t)) => Date_toISOString t
    | Some (AString s) => s
    | _ => completed
    end in
  exists body,
    ping http jobId options w
    = request http (heartbeat_path jobId)
        {| HttpClient.method := "POST";
           HttpClient.body := body;
           HttpClient.retry :=
             Some (match ping_option options retry with
                   | Some false => false
                   | _ => true
                   end);
           HttpClient.context :=
             Some {| Errors.jobId := Some jobId;
                     Errors.runId := None;
                     Errors.operation := Some "ping" |} |} w
    /\ js_get body "status"
       = JString (match ping_option options status with
                  | Some s => s
                  | None => "SUCCESS"
                  end)
    /\ js_get body "startedAt" = JString started
    /\ js_get body "completedAt" = JString completed
    /\ js_get body "output"
       = match ping_option options output with
         | Some text => JString text
         | None => JUndefined
         end
    /\ js_get body "error"
       = match ping_option options error with
         | Some text => JString text
         | None => JUndefined
         end
    /\ js_get body "metadata"
       = match ping_option options metadata with
         | Some data => data
         | None => JUndefined
         end.
Proof.
  intros Hcompleted Hstarted. destruct options as [o|]; unfold ping; simpl in *.
  - destruct (completedAt o) as [[[t|]|s]|]; try (now contradiction Hcompleted);
      destruct (startedAt o) as [[[t'|]|s']|]; try (now contradiction Hstarted);
      destruct (output o), (error o), (metadata o);
      eexists; (split; [reflexivity|]); repeat split; reflexivity.
  - eexists. split; [reflexivity|]. repeat split; reflexivity.
Qed.

Lemma ping_request_witness :
  let http := @createHttpClient _ host_accepted config in
  let o := {| status := None; output := Some "Processed 100 items";
              error := None;
              startedAt := None; completedAt := Some (AString "2026-01-22T10:00:00Z");
              metadata := None; retry := Some false |} in
  (ping_option (Some o) completedAt <> Some (ADate None)
   /\ ping_option (Some o) startedAt <> Some (ADate None))
  /\ exists body,
       @ping _ host_accepted http "my-job" (Some o) Scripted.start
       = request http (heartbeat_path "my-job")
           {| HttpClient.method := "POST";
              HttpClient.body := body;
              HttpClient.retry := Some false;
              HttpClient.context :=
                Some {| Errors.jobId := Some "my-job";
                        Errors.runId := None;
                        Errors.operation := Some "ping" |} |} Scripted.start
       /\ js_get body "status" = JString "SUCCESS"
       /\ js_get body "startedAt" = JString "2026-01-22T10:00:00Z"
       /\ js_get body "output" = JString "Processed 100 items"
       /\ js_get body "error" = JUndefined.
Proof.
  intros http o.
  assert (Hc : ping_option (Some o) completedAt <> Some (ADate None))
    by discriminate.
  assert (Hs : ping_option (Some o) startedAt <> Some (ADate None))
    by discriminate.
  split; [split; assumption|].
  destruct (@ping_request _ host_accepted http "my-job" (Some o) Scripted.start
              Hc Hs)
    as (body & Hping & Hstatus & Hstarted & _ & Houtput & Herror & _).
  exists body. split; [exact Hping|]. split; [exact Hstatus|].
  split; [exact Hstarted|]. split; [exact Houtput | exact Herror].
Defined.

(** When the wrapped job returns, [wrap] sends the SUCCESS report and
    returns the job's result if the report succeeds.  If the report
    fails with [P], [wrap] goes on to send a FAILED report for [P] and
    throws [P]: the job's result is lost. *)
Theorem wrap_success_paths {W T} `{Runtime W}
    (http : HttpClient W) (jobId : string) (fn : Async W T)
    (options : option WrapOptions) (w : W) (result : T) (w1 : W)
    (reported : Completion JSValue) (w2 : W) :
  fn w = (Returned result, w1) ->
  ping http jobId
    (Some (success_options options (Date_now w) (Date_now w1))) w1
  = (reported, w2) ->
  match reported with
  | Returned _ => wrap http jobId fn options w = (Returned result, w2)
  | Threw P =>
      forall second w3,
        report_failure http jobId options (Date_now w) P w2 = (second, w3) ->
        wrap http jobId fn options w = (Threw P, w3)
  end.
Proof.
  intros Hfn Hping. unfold success_options in Hping.
  destruct reported as [v | P].
  - unfold wrap. now rewrite Hfn, Hping.
  - intros second w3 Hsecond. unfold wrap. now rewrite Hfn, Hping, Hsecond.
Qed.

Lemma wrap_success_paths_witness :
  let http := @createHttpClient _ host_offline config_no_retry in
  let two_calls := {| Scripted.clock := 0; Scripted.calls := 2 |} in
  (succeeding_job Scripted.start = (Returned (JString "done"), Scripted.start)
   /\ @ping _ host_offline http "my-job"
        (Some (success_options None 0 0)) Scripted.start
      = (Threw (ThrownBearWatch offline_error), after_one_call)
   /\ @report_failure _ host_offline http "my-job" None 0
        (ThrownBearWatch offline_error) after_one_call
      = (Threw (ThrownBearWatch offline_error), two_calls))
  /\ @wrap _ _ host_offline http "my-job" succeeding_job None Scripted.start
     = (Threw (ThrownBearWatch offline_error), two_calls).
Proof.
  intros http two_calls.
  assert (Hfn : succeeding_job Scripted.start
                = (Returned (JString "done"), Scripted.start)) by reflexivity.
  assert (Hping : @ping _ host_offline http "my-job"
                    (Some (success_options None
                             (@Date_now _ host_offline Scripted.start)
                             (@Date_now _ host_offline Scripted.start)))
                    Scripted.start
                  = (Threw (ThrownBearWatch offline_error), after_one_call))
    by (vm_compute; reflexivity).
  assert (Hsecond : @report_failure _ host_offline http "my-job" None
                      (@Date_now _ host_offline Scripted.start)
                      (ThrownBearWatch offline_error) after_one_call
                    = (Threw (ThrownBearWatch offline_error), two_calls))
    by (vm_compute; reflexivity).
  split; [split; [exact Hfn | split; [exact Hping | exact Hsecond]]|].
  exact (@wrap_success_paths _ _ host_offline http "my-job" succeeding_job None
           Scripted.start _ Scripted.start _ after_one_call Hfn Hping
           _ two_calls Hsecond).
Defined.

(** The FAILED report of [wrap] is sent whenever the text of the error
    can be computed, which it can for every [Error]: a POST to the job's
    heartbeat path whose body has status FAILED, that text, the start
    time of [wrap] and the time of the report, and that is retried
    unless the wrap options say [retry: false].  The text cannot be
    computed for a thrown value that is not an [Error] and whose
    conversion to a string throws; then nothing is sent, and the world
    is as it was. *)
Theorem wrap_failure_report {W} `{Runtime W}
    (http : HttpClient W) (jobId : string) (options : option WrapOptions)
    (started : Z) (E : Thrown) (w : W) :
  match describe E with
  | Some described =>
      exists body,
        report_failure http jobId options started E w
        = request http (heartbeat_path jobId)
            {| HttpClient.method := "POST";
               HttpClient.body := body;
               HttpClient.retry :=
                 Some (match options with
                       | Some {| wrap_retry := Some false |} => false
                       | _ => true
                       end);
               HttpClient.context :=
                 Some {| Errors.jobId := Some jobId;
                         Errors.runId := None;
                         Errors.operation := Some "ping" |} |} w
        /\ js_get body "status" = JString "FAILED"
        /\ js_get body "error" = JString described
        /\ js_get body "startedAt" = JString (Date_toISOString started)
        /\ js_get body "completedAt" = JString (Date_toISOString (Date_now w))
        /\ js_get body "output" = JUndefined
  | None =>
      report_failure http jobId options started E w
      = (Threw (ThrownError conversion_error), w)
      /\ exists v, E = ThrownValue v /\ ToString v = None
  end.
Proof.
  unfold report_failure.
  destruct (describe E) as [described|] eqn:Hdescribe.
  - unfold ping. simpl.
    destruct options as [[[m|] [[|]|]]|];
      eexists; (split; [reflexivity|]); repeat split; reflexivity.
  - split; [reflexivity |].
    destruct E as [e | e | v]; try discriminate Hdescribe.
    exists v. split; [reflexivity | exact Hdescribe].
Qed.

(** Both cases on the scripted host whose network is down: the report
    of an [Error] is attempted (one network call is made), the report
    of a thrown object with a key [toString] of its own is not, and
    [wrap] rethrows the thrown value either way. *)
Example wrap_failure_report_cases :
  let http := @createHttpClient _ host_offline config_no_retry in
  let unprintable_value := ThrownValue (JObject [("toString", JNumber 1)]) in
  @describe _ host_offline business_error = Some "Original business error"
  /\ snd (@report_failure _ host_offline http "my-job" None 0 business_error
            Scripted.start) = after_one_call
  /\ @describe _ host_offline unprintable_value = None
  /\ @report_failure _ host_offline http "my-job" None 0 unprintable_value
       Scripted.start
     = (Threw (ThrownError conversion_error), Scripted.start)
  /\ @wrap _ _ host_offline http "my-job"
       (fun w => (@Threw JSValue unprintable_value, w)) None Scripted.start
     = (Threw unprintable_value, Scripted.start).
Proof. cbv zeta. repeat split; vm_compute; reflexivity. Qed.

End BearWatchExtras.

(** ** Reading numbers and content types *)
Module ParsingExtras.
Import Errors Host Retry HttpClient Examples.

Lemma read_digit_step (c : ascii) (k : Z) (rest : string) (acc : Z) :
  digit_of c = Some k ->
  read_digits (String c rest) (Some acc) = read_digits rest (Some (10 * acc + k)).
Proof. intros Hd. cbn [read_digits]. now rewrite Hd. Qed.

Lemma read_digit_first (c : ascii) (k : Z) (rest : string) :
  digit_of c = Some k ->
  read_digits (String c rest) None = read_digits rest (Some k).
Proof. intros Hd. cbn [read_digits]. now rewrite Hd. Qed.

(** Rewrites the reading of a leading digit character. *)
Ltac read_digit :=
  match goal with
  | |- context [read_digits (String ?c _) (Some _)] =>
      let d := eval vm_compute in (digit_of c) in
      match d with
      | Some ?k => rewrite (read_digit_step c k) by reflexivity
      end
  | |- context [read_digits (String ?c _) None] =>
      let d := eval vm_compute in (digit_of c) in
      match d with
      | Some ?k => rewrite (read_digit_first c k) by reflexivity
      end
  end.

Lemma read_digits_uint (d : Decimal.uint) (acc : Z) :
  read_digits (NilEmpty.string_of_uint d) (Some acc) = Some (uint_value d acc).
Proof.
  revert acc. induction d; intros acc;
    cbn [NilEmpty.string_of_uint uint_value]; [reflexivity | ..];
    read_digit; rewrite IHd; f_equal; f_equal; lia.
Qed.

Lemma read_digits_uint_start (d : Decimal.uint) :
  d <> Decimal.Nil ->
  read_digits (NilEmpty.string_of_uint d) None = Some (uint_value d 0).
Proof.
  destruct d; intros Hne; [now contradiction Hne | ..];
    cbn [NilEmpty.string_of_uint uint_value];
    read_digit; rewrite read_digits_uint; reflexivity.
Qed.

Lemma of_uint_acc_value (d : Decimal.uint) (acc : positive) :
  Z.pos (Pos.of_uint_acc d acc) = uint_value d (Z.pos acc).
Proof.
  revert acc. induction d; intros acc;
    cbn [Pos.of_uint_acc uint_value]; [reflexivity | ..];
    rewrite IHd; f_equal; lia.
Qed.

Lemma of_uint_value (d : Decimal.uint) :
  Z.of_N (Pos.of_uint d) = uint_value d 0.
Proof.
  induction d; cbn [Pos.of_uint uint_value Z.of_N];
    [reflexivity | exact IHd | ..];
    rewrite of_uint_acc_value; reflexivity.
Qed.

Lemma to_uint_value (p : positive) : uint_value (Pos.to_uint p) 0 = Z.pos p.
Proof. now rewrite <- of_uint_value, Unsigned.of_to. Qed.

(** The decimal rendering of a positive number starts with a digit, so
    [parseInt] skips nothing and reads all of it. *)
Lemma leading_integer_digits (d : Decimal.uint) :
  d <> Decimal.Nil ->
  NilEmpty.string_of_uint d <> ""
  /\ leading_integer (NilEmpty.string_of_uint d) = Some (uint_value d 0).
Proof.
  intros Hne. pose proof (read_digits_uint_start d Hne) as Hread.
  destruct d; [now contradiction Hne | ..];
    (split; [discriminate | exact Hread]).
Qed.

Lemma leading_integer_string_of_Z (n : Z) :
  0 <= n -> string_of_Z n <> "" /\ leading_integer (string_of_Z n) = Some n.
Proof.
  intros Hn. destruct n as [|p|p]; [now split | | lia].
  unfold string_of_Z. simpl.
  pose proof (Unsigned.to_uint_nonnil p) as Hne.
  destruct (leading_integer_digits (Pos.to_uint p) Hne) as [Hnonempty Hparse].
  rewrite to_uint_value in Hparse.
  unfold NilZero.string_of_uint.
  destruct (Pos.to_uint p); [now contradiction Hne | ..]; now split.
Qed.

(** [parseInt] reads the decimal rendering of [n >= 0] as the double
    nearest to [n]. *)
Lemma parseInt10_string_of_Z (n : Z) :
  0 <= n -> parseInt10 (string_of_Z n) = Some (Double.of_Z n).
Proof.
  intros Hn. unfold parseInt10.
  now rewrite (proj2 (leading_integer_string_of_Z n Hn)).
Qed.

(** A [Retry-After] value that is the decimal rendering of [n] seconds,
    [n >= 0], is read back as [n * 1000] milliseconds, whatever [new
    Date] would make of it, as long as [n * 1000] is at most 2^53: up
    to there the integers are doubles, and neither [parseInt] nor the
    product rounds. *)
Theorem parseRetryAfter_seconds {W} `{Runtime W} (n : Z) (w : W) :
  0 <= n -> n * 1000 <= 2 ^ 53 ->
  parseRetryAfter (Some (string_of_Z n)) w = Some (n * 1000).
Proof.
  intros Hn Hsafe.
  destruct (leading_integer_string_of_Z n Hn) as [Hnonempty _].
  pose proof (parseInt10_string_of_Z n Hn) as Hparse.
  rewrite (RetryAfterFacts.of_Z_exact n) in Hparse by lia.
  unfold parseRetryAfter.
  destruct (string_of_Z n) as [|c rest]; [now contradiction Hnonempty|].
  rewrite Hparse, (RetryAfterFacts.geb_true n 0 Hn).
  rewrite (RetryAfterFacts.of_Z_exact (n * 1000)) by lia. reflexivity.
Qed.

Lemma parseRetryAfter_seconds_witness :
  (0 <= 120 /\ 120 * 1000 <= 2 ^ 53)
  /\ @parseRetryAfter _ host_dated (Some (string_of_Z 120)) Scripted.start
     = Some 120000.
Proof.
  assert (Hn : 0 <= 120) by lia.
  assert (Hsafe : 120 * 1000 <= 2 ^ 53) by (vm_compute; discriminate).
  split; [split; assumption |].
  exact (@parseRetryAfter_seconds _ host_dated 120 Scripted.start Hn Hsafe).
Defined.

(** Beyond 2^53 the digits are rounded as they are read, and the
    product is rounded again: 2^53 + 1 seconds are read as 2^53, and
    72057594037929 seconds give 72057594037928992 milliseconds. *)
Example parseRetryAfter_rounds {W} `{Runtime W} (w : W) :
  parseInt10 "9007199254740993" = Some 9007199254740992
  /\ parseRetryAfter (Some "9007199254740993") w = Some 9007199254740992000
  /\ parseRetryAfter (Some "72057594037929") w = Some 72057594037928992.
Proof. repeat split; vm_compute; reflexivity. Qed.

(** *** The content-type test *)

Lemma includes_unfold (s sub : string) :
  includes s sub
  = if String.prefix sub s then true
    else match s with
         | EmptyString => false
         | String _ rest => includes rest sub
         end.
Proof. destruct s; reflexivity. Qed.

Lemma prefix_app (sub post : string) : String.prefix sub (sub ++ post) = true.
Proof.
  induction sub as [|c sub IH]; simpl; [now destruct post|].
  destruct (ascii_dec c c) as [_ | Hne]; [exact IH | now contradiction Hne].
Qed.

Lemma prefix_split (sub s : string) :
  String.prefix sub s = true -> exists post, s = sub ++ post.
Proof.
  revert s. induction sub as [|c sub IH]; intros s Hpre.
  - now exists s.
  - destruct s as [|c' s]; simpl in Hpre; [discriminate|].
    destruct (ascii_dec c c') as [<- | _]; [|discriminate].
    destruct (IH s Hpre) as (post & ->). now exists post.
Qed.

(** [s.includes(sub)] holds exactly of the strings that have [sub]
    somewhere inside. *)
Lemma includes_iff (s sub : string) :
  includes s sub = true <-> exists pre post, s = pre ++ sub ++ post.
Proof.
  split.
  - induction s as [|c s IH]; rewrite includes_unfold;
      destruct (String.prefix sub _) eqn:Hpre.
    + intros _. destruct (prefix_split _ _ Hpre) as (post & ->).
      now exists "", post.
    + discriminate.
    + intros _. destruct (prefix_split _ _ Hpre) as (post & Heq).
      exists "", post. exact Heq.
    + intros Hin. destruct (IH Hin) as (pre & post & ->).
      now exists (String c pre), post.
  - intros (pre & post & ->). induction pre as [|c pre IH].
    + rewrite includes_unfold. change ("" ++ sub ++ post) with (sub ++ post).
      now rewrite prefix_app.
    + change (String c pre ++ sub ++ post) with (String c (pre ++ sub ++ post)).
      rewrite includes_unfold, IH. now destruct (String.prefix _ _).
Qed.

(** A response counts as JSON exactly when it has a [Content-Type]
    header with [application/json] somewhere in it, in that spelling: a
    value with parameters, such as a character set, is accepted, and a
    missing header is not. *)
Theorem isJson_iff (response : Response) :
  isJson response = true
  <-> exists pre post,
        headers_get response "Content-Type"
        = Some (pre ++ "application/json" ++ post).
Proof.
  unfold isJson. destruct (headers_get response "Content-Type") as [ct|].
  - rewrite includes_iff. split.
    + intros (pre & post & ->). now exists pre, post.
    + intros (pre & post & Heq). injection Heq as ->. now exists pre, post.
  - split; [discriminate | intros (pre & post & Heq); discriminate].
Qed.

Lemma isJson_iff_witness :
  headers_get with_charset "Content-Type"
  = Some ("" ++ "application/json" ++ "; charset=utf-8")
  /\ isJson with_charset = true.
Proof.
  assert (Hheader : headers_get with_charset "Content-Type"
                    = Some ("" ++ "application/json" ++ "; charset=utf-8"))
    by reflexivity.
  split; [exact Hheader|].
  exact (proj2 (isJson_iff with_charset)
           (ex_intro _ "" (ex_intro _ "; charset=utf-8" Hheader))).
Defined.

End ParsingExtras.
